(** * Verification of the job-scraping crawl controller

    Shallow embedding of the three scrapers of the repository
    ([Linkedin_Large.py], [Linkedin_Small.py], [Indeed.py]) and the
    properties of their URL handling, page signatures, extraction loop,
    pagination, error scoping, checkpoint writes and de-duplication.

    Conventions.
    - A Python [str] is represented by the list of its UTF-8 bytes
      ([pystr]).  Every delimiter, key and marker the code looks for is
      ASCII, and an ASCII byte never occurs inside a multi-byte UTF-8
      sequence, so searching, splitting and comparing are exact.
      Case mapping, white space and digits are taken on ASCII bytes.
    - [urllib.parse] is modelled after CPython 3.11 ([urlsplit],
      [urlunsplit], [parse_qsl], [parse_qs], [urlencode], [quote_plus],
      [unquote]).  Percent-escapes are decoded to bytes; this is what
      Python yields whenever the escapes spell well-formed UTF-8.
    - The browser (Selenium driver), the clock, the console and the
      HTTP search API are an environment: a record of operations over an
      abstract world, each of which may raise.  Scraper methods are
      written in a state-and-exception monad over that world. *)

From Stdlib Require Import Ascii String List ZArith Lia Bool DecimalString Permutation.
From stdpp Require Import gmap list strings.
Import ListNotations.

(** ** Python strings *)

Definition pystr := list ascii.

Definition py (s : string) : pystr := list_ascii_of_string s.
Arguments py _ : simpl never.

Definition ord (c : ascii) : nat := nat_of_ascii c.

Definition between (lo hi : nat) (c : ascii) : bool :=
  (lo <=? ord c) && (ord c <=? hi).

Definition is_upper (c : ascii) : bool := between 65 90 c.
Definition is_lower (c : ascii) : bool := between 97 122 c.
Definition is_alpha (c : ascii) : bool := is_upper c || is_lower c.
Definition is_digit (c : ascii) : bool := between 48 57 c.
Definition is_ascii (c : ascii) : bool := ord c <? 128.

(** [str.isspace] on the ASCII range: TAB..CR, FS..US and the space. *)
Definition is_space (c : ascii) : bool := between 9 13 c || between 28 32 c.

Definition lower_char (c : ascii) : ascii :=
  if is_upper c then ascii_of_nat (ord c + 32) else c.

(** [s.lower()] *)
Definition lower (s : pystr) : pystr := List.map lower_char s.

Definition str_eqb (a b : pystr) : bool := bool_decide (a = b).

Fixpoint drop_while (p : ascii -> bool) (s : pystr) : pystr :=
  match s with
  | [] => []
  | c :: s' => if p c then drop_while p s' else s
  end.

Fixpoint take_while (p : ascii -> bool) (s : pystr) : pystr :=
  match s with
  | [] => []
  | c :: s' => if p c then c :: take_while p s' else []
  end.

(** [s.lstrip()], [s.rstrip()], [s.strip()] *)
Definition lstrip (s : pystr) : pystr := drop_while is_space s.
Definition rstrip (s : pystr) : pystr := rev (drop_while is_space (rev s)).
Definition strip (s : pystr) : pystr := rstrip (lstrip s).

(** [s.isdigit()]: non-empty and all digits *)
Definition isdigit (s : pystr) : bool :=
  negb (bool_decide (s = [])) && forallb is_digit s.

Fixpoint starts_with (p s : pystr) : bool :=
  match p, s with
  | [], _ => true
  | a :: p', b :: s' => Ascii.eqb a b && starts_with p' s'
  | _ :: _, [] => false
  end.

(** [needle in s] *)
Fixpoint contains (needle s : pystr) : bool :=
  starts_with needle s ||
  match s with
  | [] => false
  | _ :: s' => contains needle s'
  end.

(** [s.partition(c)] for a one-character separator: the text before the
    first [c] and the text after it, or [None] when [c] does not occur. *)
Fixpoint cut_at (c : ascii) (s : pystr) : option (pystr * pystr) :=
  match s with
  | [] => None
  | x :: s' =>
      if Ascii.eqb x c then Some ([], s')
      else match cut_at c s' with
           | Some (a, b) => Some (x :: a, b)
           | None => None
           end
  end.

(** [s.split(c)] for a one-character separator *)
Fixpoint split_char (c : ascii) (s : pystr) : list pystr :=
  match s with
  | [] => [[]]
  | x :: s' =>
      if Ascii.eqb x c then [] :: split_char c s'
      else match split_char c s' with
           | [] => [[x]]
           | w :: ws => (x :: w) :: ws
           end
  end.

(** [sep.join(parts)] *)
Fixpoint join (sep : pystr) (parts : list pystr) : pystr :=
  match parts with
  | [] => []
  | [w] => w
  | w :: ws => w ++ sep ++ join sep ws
  end.

(** [s.replace(c, d)] for single characters *)
Definition replace_char (c d : ascii) (s : pystr) : pystr :=
  List.map (fun x => if Ascii.eqb x c then d else x) s.

(** [s.replace(c, "")] *)
Definition remove_char (c : ascii) (s : pystr) : pystr :=
  List.filter (fun x => negb (Ascii.eqb x c)) s.

(** [s.split(sep)[1]] style access needs the text after the first
    occurrence of a multi-character separator. *)
Fixpoint after_first (sep s : pystr) : option pystr :=
  if starts_with sep s then Some (drop (length sep) s)
  else match s with
       | [] => None
       | _ :: s' => after_first sep s'
       end.

(** Text of [s] before the first occurrence of [sep] (all of [s] when
    [sep] does not occur): [s.split(sep)[0]]. *)
Fixpoint before_first (sep s : pystr) : pystr :=
  if starts_with sep s then []
  else match s with
       | [] => []
       | x :: s' => x :: before_first sep s'
       end.

(** [str(n)] for a non-negative integer *)
Definition str_of_nat (n : nat) : pystr :=
  py (NilEmpty.string_of_uint (Nat.to_uint n)).

Definition nonempty {A} (l : list A) : bool :=
  match l with [] => false | _ => true end.

Definition mem_char (c : ascii) (s : pystr) : bool := existsb (Ascii.eqb c) s.

Definition mem_str (x : pystr) (l : list pystr) : bool := existsb (str_eqb x) l.

(** ** Python dictionaries with string keys

    Insertion order is observable ([urlencode] walks the items in
    order), so a dictionary is an association list without repeated
    keys: assigning to a present key keeps its position. *)

Definition pydict (V : Type) := list (pystr * V).

Fixpoint dict_get {V} (d : pydict V) (k : pystr) : option V :=
  match d with
  | [] => None
  | (k', v) :: d' => if str_eqb k' k then Some v else dict_get d' k
  end.

(** [d[k] = v] *)
Fixpoint dict_set {V} (d : pydict V) (k : pystr) (v : V) : pydict V :=
  match d with
  | [] => [(k, v)]
  | (k', v') :: d' =>
      if str_eqb k' k then (k', v) :: d' else (k', v') :: dict_set d' k v
  end.

(** [d.pop(k, None)] *)
Fixpoint dict_pop {V} (d : pydict V) (k : pystr) : pydict V :=
  match d with
  | [] => []
  | (k', v') :: d' => if str_eqb k' k then d' else (k', v') :: dict_pop d' k
  end.

Definition dict_keys {V} (d : pydict V) : list pystr := List.map fst d.

(** [dict(pairs)] *)
Definition dict_of_pairs {V} (pairs : list (pystr * V)) : pydict V :=
  fold_left (fun d kv => dict_set d (fst kv) (snd kv)) pairs [].

(** ** urllib.parse *)

Record SplitResult := mkSplit {
  scheme : pystr;
  netloc : pystr;
  path : pystr;
  query : pystr;
  fragment : pystr
}.

Definition scheme_char (c : ascii) : bool :=
  is_alpha c || is_digit c || mem_char c (py "+-.").

(** [_WHATWG_C0_CONTROL_OR_SPACE] *)
Definition c0_control_or_space (c : ascii) : bool := ord c <=? 32.

(** [_UNSAFE_URL_BYTES_TO_REMOVE] *)
Definition unsafe_url_byte (c : ascii) : bool :=
  mem_char c [ascii_of_nat 9; ascii_of_nat 13; ascii_of_nat 10].

Definition uses_netloc : list pystr :=
  List.map py
    [""; "ftp"; "http"; "gopher"; "nntp"; "telnet"; "imap"; "wais"; "file";
     "mms"; "https"; "shttp"; "snews"; "prospero"; "rtsp"; "rtspu"; "rsync";
     "svn"; "svn+ssh"; "sftp"; "nfs"; "git"; "git+ssh"; "ws"; "wss"]%string.

Definition netloc_delim (c : ascii) : bool := mem_char c (py "/?#").

(** [_splitnetloc(url, start)] *)
Definition _splitnetloc (url : pystr) (start : nat) : pystr * pystr :=
  let rest := drop start url in
  (take_while (fun c => negb (netloc_delim c)) rest,
   drop_while (fun c => negb (netloc_delim c)) rest).

(** The scheme prefix of [urlsplit]: [i = url.find(':')] and the loop
    over [url[:i]]. *)
Definition split_scheme (url : pystr) : pystr * pystr :=
  match cut_at ":" url with
  | Some (c0 :: pre, post) =>
      if is_ascii c0 && is_alpha c0 && forallb scheme_char (c0 :: pre)
      then (lower (c0 :: pre), post)
      else ([], url)
  | _ => ([], url)
  end.

Section Urllib.

(** [urlsplit] hands a bracketed host to the [ipaddress] module and a
    non-ASCII host to [unicodedata]; both can reject it with
    [ValueError].  Their verdicts are parameters. *)
Variable check_bracketed_netloc : pystr -> bool.
Variable checknetloc_nfkc : pystr -> bool.

Definition netloc_ok (n : pystr) : bool :=
  let open := mem_char "[" n in
  let close := mem_char "]" n in
  negb ((open && negb close) || (close && negb open))
  && (negb (open && close) || check_bracketed_netloc n)
  && (negb (nonempty n) || forallb is_ascii n || checknetloc_nfkc n).

(** [urlsplit(url)]; [None] stands for [ValueError]. *)
Definition urlsplit (url : pystr) : option SplitResult :=
  let url := drop_while c0_control_or_space url in
  let url := List.filter (fun c => negb (unsafe_url_byte c)) url in
  let '(sch, url) := split_scheme url in
  let '(loc, url) :=
    if starts_with (py "//") url then _splitnetloc url 2 else ([], url) in
  let '(url, frag) :=
    match cut_at "#" url with Some (a, b) => (a, b) | None => (url, []) end in
  let '(url, qry) :=
    match cut_at "?" url with Some (a, b) => (a, b) | None => (url, []) end in
  if netloc_ok loc then Some (mkSplit sch loc url qry frag) else None.

End Urllib.

(** [if url and url[:1] != '/': url = '/' + url] *)
Definition rooted (url : pystr) : pystr :=
  if nonempty url && negb (str_eqb (take 1 url) (py "/"))
  then py "/" ++ url else url.

(** [urlunsplit((scheme, netloc, url, query, fragment))] *)
Definition urlunsplit (r : SplitResult) : pystr :=
  let url := path r in
  let url :=
    if nonempty (netloc r)
       || (nonempty (scheme r) && mem_str (scheme r) uses_netloc
           && negb (str_eqb (take 2 url) (py "//")))
    then py "//" ++ netloc r ++ rooted url
    else url in
  let url := if nonempty (scheme r) then scheme r ++ py ":" ++ url else url in
  let url := if nonempty (query r) then url ++ py "?" ++ query r else url in
  if nonempty (fragment r) then url ++ py "#" ++ fragment r else url.

Definition hex_val (c : ascii) : option nat :=
  if is_digit c then Some (ord c - 48)
  else if between 65 70 c then Some (ord c - 55)
  else if between 97 102 c then Some (ord c - 87)
  else None.

Definition hex_digit (n : nat) : ascii :=
  if n <? 10 then ascii_of_nat (48 + n) else ascii_of_nat (55 + n).

(** [unquote_to_bytes]: [%XY] with two hexadecimal digits becomes one
    byte, any other [%] stays. *)
Fixpoint unquote (s : pystr) : pystr :=
  match s with
  | [] => []
  | c :: s' =>
      if Ascii.eqb c "%" then
        match s' with
        | a :: b :: rest =>
            match hex_val a, hex_val b with
            | Some x, Some y => ascii_of_nat (16 * x + y) :: unquote rest
            | _, _ => c :: unquote s'
            end
        | _ => c :: unquote s'
        end
      else c :: unquote s'
  end.

(** [_ALWAYS_SAFE]: letters, digits and [_.-~] *)
Definition always_safe (c : ascii) : bool :=
  is_alpha c || is_digit c || mem_char c (py "_.-~").

(** One byte of [quote_plus(s, safe='')] *)
Definition quote_byte (c : ascii) : pystr :=
  if always_safe c then [c]
  else if Ascii.eqb c " " then py "+"
  else ["%"%char; hex_digit (ord c / 16); hex_digit (ord c mod 16)].

Definition quote_plus (s : pystr) : pystr := concat (List.map quote_byte s).

(** A name or value of a query field: [unquote(x.replace('+', ' '))] *)
Definition unquote_plus (s : pystr) : pystr :=
  unquote (replace_char "+" " " s).

(** The body of the loop of [parse_qsl] for one [name_value] *)
Definition parse_field (keep_blank_values : bool) (name_value : pystr)
  : option (pystr * pystr) :=
  if nonempty name_value then
    match cut_at "=" name_value with
    | Some (n, v) =>
        if nonempty v || keep_blank_values
        then Some (unquote_plus n, unquote_plus v) else None
    | None =>
        if keep_blank_values then Some (unquote_plus name_value, []) else None
    end
  else None.

(** [parse_qsl(qs, keep_blank_values)] *)
Definition parse_qsl (qs : pystr) (keep_blank_values : bool)
  : list (pystr * pystr) :=
  let query_args := if nonempty qs then split_char "&" qs else [] in
  omap (parse_field keep_blank_values) query_args.

(** [parse_qs(qs)]: every name with the list of its values *)
Definition parse_qs (qs : pystr) : pydict (list pystr) :=
  fold_left
    (fun d nv =>
       match dict_get d (fst nv) with
       | Some vs => dict_set d (fst nv) (vs ++ [snd nv])
       | None => dict_set d (fst nv) [snd nv]
       end)
    (parse_qsl qs false) [].

(** One [k=v] item of [urlencode] *)
Definition encode_field (kv : pystr * pystr) : pystr :=
  quote_plus (fst kv) ++ py "=" ++ quote_plus (snd kv).

(** [urlencode(q, doseq=True)] for a dictionary of strings *)
Definition urlencode (q : pydict pystr) : pystr :=
  join (py "&") (List.map encode_field q).

(** The characters [quote_plus] can emit *)
Definition qchar (c : ascii) : bool := always_safe c || mem_char c (py "+%").

(** ** URL helpers of the LinkedIn scrapers *)

Definition drop_keys : list pystr :=
  List.map py
    ["currentJobId"; "originToLandingJobPostings"; "origin"; "trackingId";
     "refId"; "lipi"]%string.

(** The loop [for k in list(q.keys()): if k in drop_keys: q.pop(k, None)] *)
Definition pop_drop_keys (q : pydict pystr) : pydict pystr :=
  fold_left
    (fun d k => if mem_str k drop_keys then dict_pop d k else d)
    (dict_keys q) q.

Section UrlHelpers.

Variable check_bracketed_netloc : pystr -> bool.
Variable checknetloc_nfkc : pystr -> bool.

Abbreviation urlsplit := (urlsplit check_bracketed_netloc checknetloc_nfkc).

(** [_set_query_param(url, key, value)] with [value] already a string
    ([str(value)]) *)
Definition _set_query_param (url key value : pystr) : option pystr :=
  match urlsplit url with
  | None => None
  | Some parts =>
      let q := dict_of_pairs (parse_qsl (query parts) true) in
      let q := dict_set q key value in
      let new_query := urlencode q in
      Some (urlunsplit
              (mkSplit (scheme parts) (netloc parts) (path parts)
                       new_query (fragment parts)))
  end.

(** [_normalize_search_url(url)]; the two LinkedIn scrapers carry the
    same text. *)
Definition _normalize_search_url (url : pystr) : option pystr :=
  match urlsplit url with
  | None => None
  | Some parts =>
      let q := dict_of_pairs (parse_qsl (query parts) true) in
      let q := pop_drop_keys q in
      let q := dict_set q (py "start") (py "0") in
      let new_query := urlencode q in
      Some (urlunsplit
              (mkSplit (scheme parts) (netloc parts) (path parts)
                       new_query (fragment parts)))
  end.

(** [_extract_job_id_from_url(url)]; a [ValueError] of [urlsplit] is
    swallowed by the bare [except]. *)
Definition _extract_job_id_from_url (url : pystr) : pystr :=
  if negb (nonempty url) then py "N/A"
  else
    let from_query :=
      match urlsplit url with
      | Some parts =>
          match dict_get (parse_qs (query parts)) (py "currentJobId") with
          | Some (v :: _) => Some (strip v)
          | _ => None
          end
      | None => None
      end in
    match from_query with
    | Some id => id
    | None =>
        match after_first (py "/jobs/view/") url with
        | Some rest =>
            let seg := before_first (py "/jobs/view/") rest in
            before_first (py "?") (before_first (py "/") seg)
        | None => py "N/A"
        end
    end.

End UrlHelpers.

(** [_job_permalink(job_id)] of [Linkedin_Large.py] *)
Definition _job_permalink (job_id : pystr) : pystr :=
  if nonempty job_id && negb (str_eqb job_id (py "N/A"))
  then py "https://www.linkedin.com/jobs/view/" ++ job_id ++ py "/"
  else py "N/A".

(** ** Auxiliary notions for the statements about URLs *)

(** A field survives the deny-list *)
Definition keep_key (kv : pystr * pystr) : bool :=
  negb (mem_str (fst kv) drop_keys).

(** The dictionary that [_normalize_search_url] encodes, as a function
    of the query text of the input *)
Definition normal_query (qs : pystr) : pydict pystr :=
  dict_set (pop_drop_keys (dict_of_pairs (parse_qsl qs true)))
    (py "start") (py "0").

(** No TAB, CR or LF *)
Definition safe_bytes (s : pystr) : bool :=
  forallb (fun c => negb (unsafe_url_byte c)) s.

(** The characters of an encoded query *)
Definition echar (c : ascii) : bool := qchar c || mem_char c (py "=&").

(** A scheme as [urlsplit] returns it: empty, or a lower-case word over
    the scheme characters that starts with a letter *)
Definition scheme_ok (s : pystr) : bool :=
  match s with
  | [] => true
  | c0 :: _ =>
      is_ascii c0 && is_alpha c0 && forallb scheme_char s && str_eqb (lower s) s
  end.

(** Text that may follow the path in a URL: nothing, or a query or a
    fragment *)
Definition path_follower (x : pystr) : bool :=
  match x with
  | [] => true
  | c :: _ => mem_char c (py "?#")
  end.

(** A URL with an empty authority whose path starts with two slashes.
    CPython 3.11's [urlunsplit] writes such a path without the empty
    authority, so the text does not read back as it was split. *)
Definition slash_slash_path (r : SplitResult) : bool :=
  negb (nonempty (netloc r)) && starts_with (py "//") (path r).

(** What [urlsplit] returns on the text that [urlunsplit] writes *)
Definition resplit (r : SplitResult) : SplitResult :=
  if nonempty (netloc r) then r
  else if nonempty (scheme r) && mem_str (scheme r) uses_netloc
          && negb (str_eqb (take 2 (path r)) (py "//"))
  then mkSplit (scheme r) [] (rooted (path r)) (query r) (fragment r)
  else r.

(** The text of a URL from its parts, the authority written with its
    two slashes when [with_netloc] holds *)
Definition assemble (s : pystr) (with_netloc : bool) (n pp e f : pystr) : pystr :=
  (if nonempty s then s ++ py ":" else [])
  ++ (if with_netloc then py "//" ++ n else [])
  ++ pp ++ py "?" ++ e ++ (if nonempty f then py "#" ++ f else []).

(** Whether [urlunsplit] writes an authority *)
Definition writes_netloc (r : SplitResult) : bool :=
  nonempty (netloc r)
  || (nonempty (scheme r) && mem_str (scheme r) uses_netloc
      && negb (str_eqb (take 2 (path r)) (py "//"))).

(** A host validator that accepts everything.  The URLs of the concrete
    examples below have plain ASCII hosts without brackets, for which
    [urlsplit] consults no validator. *)
Definition accept_all (_ : pystr) : bool := true.

(** The value a repeated query field ends up with: its last one *)
Definition last_value (pairs : list (pystr * pystr)) (k : pystr) : option pystr :=
  dict_get (rev pairs) k.

(** ** Exceptions *)

Inductive exn_class :=
| StaleElementReferenceException
| TimeoutException
| InvalidSessionIdException
| NoSuchElementException
| WebDriverException
| KeyError
| IndexError
| ValueError
| OtherException.

(** An exception: its class and [str(e)] *)
Record exn := mkExn { exn_type : exn_class; exn_text : pystr }.

Definition exn_class_eqb (a b : exn_class) : bool :=
  match a, b with
  | StaleElementReferenceException, StaleElementReferenceException
  | TimeoutException, TimeoutException
  | InvalidSessionIdException, InvalidSessionIdException
  | NoSuchElementException, NoSuchElementException
  | WebDriverException, WebDriverException
  | KeyError, KeyError
  | IndexError, IndexError
  | ValueError, ValueError
  | OtherException, OtherException => true
  | _, _ => false
  end.

Definition dead_markers : list pystr :=
  List.map py
    ["invalid session id"; "session deleted"; "not connected to devtools";
     "disconnected"; "chrome not reachable"; "httpconnectionpool";
     "read timed out"]%string.

(** [_is_driver_dead(e)] *)
Definition _is_driver_dead (e : exn) : bool :=
  let msg := lower (exn_text e) in
  existsb (fun m => contains m msg) dead_markers.

(** ** The state-and-exception monad

    A computation takes the state and returns the state with its
    outcome: a value, a raised exception, or [OutOfFuel] when one of
    the unbounded loops ([while True], [while time.time() < end]) has not
    finished within the fuel it was given. *)

Inductive result (A : Type) :=
| Ok (a : A)
| Raise (e : exn)
| OutOfFuel.
Arguments Ok {A} a.
Arguments Raise {A} e.
Arguments OutOfFuel {A}.

Definition M (S A : Type) : Type := S -> result A * S.

Definition ret {S A} (a : A) : M S A := fun s => (Ok a, s).

Definition bind {S A B} (m : M S A) (k : A -> M S B) : M S B :=
  fun s =>
    match m s with
    | (Ok a, s') => k a s'
    | (Raise e, s') => (Raise e, s')
    | (OutOfFuel, s') => (OutOfFuel, s')
    end.

Definition raise {S A} (e : exn) : M S A := fun s => (Raise e, s).

Definition out_of_fuel {S A} : M S A := fun s => (OutOfFuel, s).

(** [try: m  except Exception as e: handler(e)] *)
Definition try_except {S A} (m : M S A) (handler : exn -> M S A) : M S A :=
  fun s =>
    match m s with
    | (Raise e, s') => handler e s'
    | r => r
    end.

(** [try: m  finally: fin], for a [fin] that cannot raise *)
Definition try_finally {S A} (m : M S A) (fin : S -> S) : M S A :=
  fun s => let '(r, s') := m s in (r, fin s').

Declare Scope monad_scope.
Delimit Scope monad_scope with monad.
Notation "x <- m ;; k" := (bind m (fun x => k))
  (at level 100, m at next level, right associativity) : monad_scope.
Notation "m ;; k" := (bind m (fun _ => k))
  (at level 100, right associativity) : monad_scope.
Open Scope monad_scope.

(** ** Records of the scrapers *)

(** One entry of [self.jobs] *)
Record job := mkJob {
  title : pystr;
  company : pystr;
  location : pystr;
  salary_range : pystr;
  posted_date : pystr;
  description : pystr;
  url : pystr;
  job_id : pystr;
  company_job_count : nat;
  scraped_at : pystr
}.

(** A job card as the driver shows it: what reading [card.text] and the
    two id attributes returns.  The outer [None] stands for a read that
    raises, the inner one for Python's [None]. *)
Record card := mkCard {
  card_text : option (option pystr);
  card_occludable_job_id : option (option pystr);
  card_data_job_id : option (option pystr);
  card_handle : nat
}.

Inductive locator :=
| Css (selector : pystr)
| TagName (name : pystr).

(** ** The environment

    Everything outside the scraper object: the Selenium driver, the
    clock, the console, the cookie file, and the pure library helpers.
    Operations that the source wraps whole in a [try] that swallows
    every exception are total here. *)
Record Env (W : Type) := mkEnv {
  (** [self.driver.get(url)] *)
  env_get : pystr -> W -> result unit * W;
  (** [self.driver.current_url] *)
  env_current_url : W -> result pystr * W;
  (** [self.driver.find_elements(By.CSS_SELECTOR, sel)] *)
  env_find_elements : pystr -> W -> result (list card) * W;
  (** [self.driver.find_element(...).text] *)
  env_element_text : locator -> W -> result (option pystr) * W;
  (** [self.wait.until(EC.presence_of_element_located(...))] *)
  env_wait_present : pystr -> W -> result unit * W;
  (** [self.driver.execute_script(script, ...)] *)
  env_execute_script : pystr -> W -> result unit * W;
  (** [_find_list_container()] is not [None] *)
  env_find_list_container : W -> bool * W;
  (** [_click_card(card)] *)
  env_click_card : card -> W -> bool * W;
  (** [_extract_location_posted()] *)
  env_location_posted : W -> (pystr * pystr) * W;
  (** [_extract_description()] *)
  env_description : W -> pystr * W;
  (** [_create_driver()] *)
  env_create_driver : W -> result unit * W;
  (** [_load_cookies()] *)
  env_load_cookies : W -> bool * W;
  (** [_save_cookies()] *)
  env_save_cookies : W -> W;
  (** [self.driver.quit()] inside [try ... except: pass] *)
  env_quit : W -> W;
  (** [input(prompt)] *)
  env_input : pystr -> W -> result unit * W;
  (** [time.time()], in milliseconds *)
  env_time : W -> Z * W;
  (** [time.sleep(seconds)], in milliseconds *)
  env_sleep : Z -> W -> W;
  (** [human_delay(a, b)], bounds in milliseconds *)
  env_human_delay : Z -> Z -> W -> W;
  (** [datetime.now().isoformat()] *)
  env_now_iso : W -> pystr * W;
  (** [_extract_salary_from_description(description)] *)
  env_salary : pystr -> pystr;
  (** [json.dump(jobs, f, indent=2, ensure_ascii=False)]: the chunks
      written to [f] *)
  env_json_dump : list job -> list pystr;
  (** the host validators of [urlsplit] *)
  env_check_bracketed_netloc : pystr -> bool;
  env_checknetloc_nfkc : pystr -> bool
}.

(** ** Files

    The part of the file system the scrapers write.  A writer performs
    its operations one at a time; a reader, or a crash, may come
    between any two of them. *)

Inductive fs_op :=
| FsOpenW (path : pystr)                  (* open(path, "w"): create or truncate *)
| FsWrite (path : pystr) (chunk : pystr)  (* f.write(chunk) *)
| FsReplace (src dst : pystr).            (* os.replace(src, dst) *)

Definition filesystem := pydict pystr.

Definition fs_step (fs : filesystem) (op : fs_op) : filesystem :=
  match op with
  | FsOpenW p => dict_set fs p []
  | FsWrite p chunk =>
      match dict_get fs p with
      | Some old => dict_set fs p (old ++ chunk)
      | None => dict_set fs p chunk
      end
  | FsReplace src dst =>
      match dict_get fs src with
      | Some content => dict_set (dict_pop fs src) dst content
      | None => fs
      end
  end.

Definition fs_run (ops : list fs_op) (fs : filesystem) : filesystem :=
  fold_left fs_step ops fs.

(** What a reader of [path] sees *)
Definition fs_read (fs : filesystem) (path : pystr) : option pystr :=
  dict_get fs path.

(** ** The scraper object *)

Record scraper (W : Type) := mkScraper {
  world : W;
  jobs : list job;
  company_counts : pydict nat;
  signin_prompted : bool;          (* [_signin_prompted], Linkedin_Small only *)
  files : filesystem
}.
Arguments mkScraper {W}.
Arguments world {W}.
Arguments jobs {W}.
Arguments company_counts {W}.
Arguments signin_prompted {W}.
Arguments files {W}.

Definition set_world {W} (s : scraper W) (w : W) : scraper W :=
  mkScraper w (jobs s) (company_counts s) (signin_prompted s) (files s).
Definition set_jobs {W} (s : scraper W) (js : list job) : scraper W :=
  mkScraper (world s) js (company_counts s) (signin_prompted s) (files s).
Definition set_company_counts {W} (s : scraper W) (c : pydict nat) : scraper W :=
  mkScraper (world s) (jobs s) c (signin_prompted s) (files s).
Definition set_signin_prompted {W} (s : scraper W) (b : bool) : scraper W :=
  mkScraper (world s) (jobs s) (company_counts s) b (files s).
Definition set_files {W} (s : scraper W) (f : filesystem) : scraper W :=
  mkScraper (world s) (jobs s) (company_counts s) (signin_prompted s) f.

Definition PAGE_SIZE : nat := 25.

Definition card_selectors : list pystr :=
  List.map py
    ["li[data-occludable-job-id]"; "li[data-job-id]";
     "li.jobs-search-results__list-item"; "li[class*='job-card']"]%string.

Definition no_res_selectors : list pystr :=
  List.map py
    ["div.jobs-search-no-results"; "div.jobs-search-two-pane__no-results";
     "div.artdeco-empty-state"]%string.

Definition title_selectors : list pystr :=
  List.map py
    ["div.job-details-jobs-unified-top-card__job-title h1";
     "div.jobs-unified-top-card__job-title h1";
     "h2[data-test-job-title]"]%string.

(** [_is_promoted_card(card)] *)
Definition _is_promoted_card (c : card) : bool :=
  match card_text c with
  | Some t =>
      let t := lower (default [] t) in
      contains (py "promoted") t || contains (py "sponsored") t
  | None => false
  end.

(** One attribute of [_get_listing_anchor_id] *)
Definition anchor_of_attr (a : option (option pystr)) : option pystr :=
  match a with
  | Some (Some v) =>
      if nonempty v && isdigit (strip v) then Some (strip v) else None
  | _ => None
  end.

(** [_get_listing_anchor_id(card)] *)
Definition _get_listing_anchor_id (c : card) : option pystr :=
  match anchor_of_attr (card_occludable_job_id c) with
  | Some v => Some v
  | None => anchor_of_attr (card_data_job_id c)
  end.

(** The two loops of [_page_signature]: walk the cards, skip promoted
    ones in the first loop, append the anchor id when there is one, and
    stop as soon as [n] ids are collected. *)
Fixpoint collect_ids (skip_promoted : bool) (n : nat) (cards : list card)
    (ids : list pystr) : list pystr :=
  match cards with
  | [] => ids
  | c :: rest =>
      if skip_promoted && _is_promoted_card c
      then collect_ids skip_promoted n rest ids
      else
        let ids' :=
          match _get_listing_anchor_id c with
          | Some jid => ids ++ [jid]
          | None => ids
          end in
        if n <=? length ids' then ids' else collect_ids skip_promoted n rest ids'
  end.

(** [_page_signature(n)] on the cards found *)
Definition page_signature_of (n : nat) (cards : list card) : list pystr :=
  let ids := collect_ids true n cards [] in
  if nonempty ids then ids else collect_ids false n cards [].

(** [sig and sig == prev_sig] *)
Definition signature_repeated (sig : list pystr) (prev_sig : option (list pystr))
  : bool :=
  nonempty sig && bool_decide (prev_sig = Some sig).

(** The test of [_extract_title]:
    [t and 3 < len(t) < 200 and t.lower() != "jobs"] *)
Definition title_ok (t : pystr) : bool :=
  nonempty t && (3 <? length t) && (length t <? 200)
  && negb (str_eqb (lower t) (py "jobs")).

(** [str(KeyError(k))] for a key without quotes or escapes *)
Definition key_error_text (k : pystr) : pystr := py "'" ++ k ++ py "'".

(** [max_pages and page_count > max_pages] *)
Definition page_limit_reached (max_pages : option nat) (page_count : nat) : bool :=
  match max_pages with
  | Some m => negb (m =? 0) && (m <? page_count)
  | None => false
  end.

Definition json_path_large : pystr :=
  py "json_output/linkedin_all_large_companies_jobs.json".
Definition json_path_small : pystr :=
  py "json_output/linkedin_all_small_companies_jobs.json".

(** [save_results()]: [open(json_path, "w")] and the writes of
    [json.dump] *)
Definition save_results_ops (json_path : pystr) (chunks : list pystr)
  : list fs_op :=
  FsOpenW json_path :: List.map (FsWrite json_path) chunks.

(** [atomic_write_json(path, data)] of [Indeed.py] *)
Definition atomic_write_json_ops (path : pystr) (chunks : list pystr)
  : list fs_op :=
  let tmp := path ++ py ".tmp" in
  FsOpenW tmp :: List.map (FsWrite tmp) chunks ++ [FsReplace tmp path].

(** How a loop iteration ends *)
Inductive loop_ctl (A : Type) :=
| Break
| Continue (a : A).
Arguments Break {A}.
Arguments Continue {A} a.

(** A target of [Linkedin_Large]: a name and its search URLs *)
Record company_large := mkCompanyLarge {
  cl_name : pystr;
  cl_urls : list pystr
}.

(** A target of [Linkedin_Small]: a name and one search URL *)
Record company_small := mkCompanySmall {
  cs_name : pystr;
  cs_url : pystr
}.

(** ** Methods shared by the two LinkedIn scrapers *)

Section Methods.

Context {W : Type} (env : Env W).

Abbreviation St := (scraper W).

(** An operation of the environment that may raise *)
Definition lift {A} (op : W -> result A * W) : M St A :=
  fun s => let '(r, w) := op (world s) in (r, set_world s w).

(** An operation of the environment that always returns *)
Definition lift_total {A} (op : W -> A * W) : M St A :=
  fun s => let '(a, w) := op (world s) in (Ok a, set_world s w).

(** An operation of the environment without result *)
Definition lift_unit (op : W -> W) : M St unit :=
  fun s => (Ok tt, set_world s (op (world s))).

Definition driver_get (u : pystr) : M St unit := lift (env_get W env u).
Definition current_url : M St pystr := lift (env_current_url W env).
Definition find_elements (sel : pystr) : M St (list card) :=
  lift (env_find_elements W env sel).
Definition element_text (l : locator) : M St (option pystr) :=
  lift (env_element_text W env l).
Definition wait_present (sel : pystr) : M St unit :=
  lift (env_wait_present W env sel).
Definition execute_script (script : pystr) : M St unit :=
  lift (env_execute_script W env script).
Definition _find_list_container : M St bool :=
  lift_total (env_find_list_container W env).
Definition _click_card (c : card) : M St bool :=
  lift_total (env_click_card W env c).
Definition _extract_location_posted : M St (pystr * pystr) :=
  lift_total (env_location_posted W env).
Definition _extract_description : M St pystr :=
  lift_total (env_description W env).
Definition _create_driver : M St unit := lift (env_create_driver W env).
Definition _load_cookies : M St bool := lift_total (env_load_cookies W env).
Definition _save_cookies : M St unit := lift_unit (env_save_cookies W env).
Definition driver_quit : St -> St :=
  fun s => set_world s (env_quit W env (world s)).
Definition input (prompt : pystr) : M St unit := lift (env_input W env prompt).
Definition time_time : M St Z := lift_total (env_time W env).
Definition sleep (ms : Z) : M St unit := lift_unit (env_sleep W env ms).
Definition human_delay (a b : Z) : M St unit :=
  lift_unit (env_human_delay W env a b).
Definition now_iso : M St pystr := lift_total (env_now_iso W env).

Definition normalize_url (u : pystr) : M St pystr :=
  match _normalize_search_url (env_check_bracketed_netloc W env)
          (env_checknetloc_nfkc W env) u with
  | Some v => ret v
  | None => raise (mkExn ValueError (py "Invalid IPv6 URL"))
  end.

Definition set_query_param (u key value : pystr) : M St pystr :=
  match _set_query_param (env_check_bracketed_netloc W env)
          (env_checknetloc_nfkc W env) u key value with
  | Some v => ret v
  | None => raise (mkExn ValueError (py "Invalid IPv6 URL"))
  end.

Definition job_id_from_url (u : pystr) : pystr :=
  _extract_job_id_from_url (env_check_bracketed_netloc W env)
    (env_checknetloc_nfkc W env) u.

(** The loop of [_find_job_cards] over its selectors *)
Fixpoint find_first_cards (sels : list pystr) : M St (list card) :=
  match sels with
  | [] => ret []
  | sel :: rest =>
      cards <- find_elements sel ;;
      if nonempty cards then ret cards else find_first_cards rest
  end.

(** [_find_job_cards()] *)
Definition _find_job_cards : M St (list card) := find_first_cards card_selectors.

(** The loop of [_wait_for_results_or_end] over the no-results
    selectors: whether one of them shows a text with "no" and "result" *)
Fixpoint no_results_marker (sels : list pystr) : M St bool :=
  match sels with
  | [] => ret false
  | sel :: rest =>
      found <-
        try_except
          (txt <- element_text (Css sel) ;;
           let txt := lower (default [] txt) in
           ret (contains (py "no") txt && contains (py "result") txt))
          (fun _ => ret false) ;;
      if found then ret true else no_results_marker rest
  end.

(** The [while time.time() < end] loop of [_wait_for_results_or_end] *)
Fixpoint wait_results_loop (fuel : nat) (end_ : Z) : M St bool :=
  match fuel with
  | O => out_of_fuel
  | S fuel' =>
      now <- time_time ;;
      if (now <? end_)%Z then
        cards <- _find_job_cards ;;
        if nonempty cards then ret true
        else
          marker <- no_results_marker no_res_selectors ;;
          if marker then ret false
          else sleep 250 ;; wait_results_loop fuel' end_
      else ret false
  end.

(** [_wait_for_results_or_end(timeout)] *)
Definition _wait_for_results_or_end (fuel : nat) (timeout : Z) : M St bool :=
  now <- time_time ;;
  wait_results_loop fuel (now + timeout)%Z.

Definition scroll_container : pystr :=
  py "arguments[0].scrollTop = arguments[0].scrollTop + arguments[0].offsetHeight;".
Definition scroll_window : pystr := py "window.scrollBy(0, 800);".

(** The [for _ in range(max_scrolls)] loop of [_ensure_cards_loaded] *)
Fixpoint ensure_cards_loop (scrolls : nat) (container : bool) (target : nat)
    (prev_count : Z) (stable : nat) : M St bool :=
  match scrolls with
  | O =>
      cards <- _find_job_cards ;;
      ret (0 <? length cards)
  | S scrolls' =>
      cards <- _find_job_cards ;;
      let cur_count := length cards in
      if target <=? cur_count then ret true
      else
        let stable := if (Z.of_nat cur_count =? prev_count)%Z then S stable else 0 in
        if 2 <=? stable then ret (0 <? cur_count)
        else
          try_except
            (execute_script (if container then scroll_container else scroll_window))
            (fun _ => ret tt) ;;
          human_delay 350 800 ;;
          ensure_cards_loop scrolls' container target (Z.of_nat cur_count) stable
  end.

(** [_ensure_cards_loaded(target, max_scrolls)] *)
Definition _ensure_cards_loaded (target max_scrolls : nat) : M St bool :=
  container <- _find_list_container ;;
  ensure_cards_loop max_scrolls container target (-1)%Z 0.

(** [_page_signature(n)] *)
Definition _page_signature (n : nat) : M St (list pystr) :=
  cards <- _find_job_cards ;;
  ret (page_signature_of n cards).

(** [_wait_for_job_details_loaded()] *)
Fixpoint wait_details_from (sels : list pystr) : M St bool :=
  match sels with
  | [] => ret false
  | sel :: rest =>
      ok <- try_except (wait_present sel ;; ret true) (fun _ => ret false) ;;
      if ok then ret true else wait_details_from rest
  end.

Definition _wait_for_job_details_loaded : M St bool :=
  wait_details_from title_selectors.

(** [_extract_title()] *)
Fixpoint extract_title_from (sels : list pystr) : M St pystr :=
  match sels with
  | [] => ret (py "N/A")
  | sel :: rest =>
      r <-
        try_except
          (t <- element_text (Css sel) ;;
           let t := strip (default [] t) in
           ret (if title_ok t then Some t else None))
          (fun _ => ret None) ;;
      match r with
      | Some t => ret t
      | None => extract_title_from rest
      end
  end.

Definition _extract_title : M St pystr := extract_title_from title_selectors.

(** [self.company_counts[company_name] += 1] and the read that follows *)
Definition bump_company_count (company_name : pystr) : M St nat :=
  fun s =>
    match dict_get (company_counts s) company_name with
    | Some n =>
        (Ok (S n),
         set_company_counts s (dict_set (company_counts s) company_name (S n)))
    | None => (Raise (mkExn KeyError (key_error_text company_name)), s)
    end.

(** [self.company_counts.setdefault(company_name, 0)] *)
Definition setdefault_company_count (company_name : pystr) : M St unit :=
  fun s =>
    match dict_get (company_counts s) company_name with
    | Some _ => (Ok tt, s)
    | None =>
        (Ok tt, set_company_counts s (dict_set (company_counts s) company_name 0))
    end.

(** [self.jobs.append(job_data)] *)
Definition append_job (j : job) : M St unit :=
  fun s => (Ok tt, set_jobs s (jobs s ++ [j])).

(** [save_results()] into [json_path] *)
Definition save_results (json_path : pystr) : M St unit :=
  fun s =>
    (Ok tt,
     set_files s
       (fs_run (save_results_ops json_path (env_json_dump W env (jobs s)))
          (files s))).

End Methods.

(** ** Linkedin_Large.py *)

Module Large.
Section WithEnv.

Context {W : Type} (env : Env W).

Abbreviation St := (scraper W).

(** [safe_get(url, retries, wait_after)] *)
Fixpoint safe_get (u : pystr) (retries : nat) (wait_after : Z) : M St bool :=
  match retries with
  | O => ret false
  | S retries' =>
      try_except
        (driver_get env u ;; sleep env wait_after ;; ret true)
        (fun e =>
           if _is_driver_dead e then
             _create_driver env ;;
             _load_cookies env ;;
             safe_get u retries' wait_after
           else ret false)
  end.

(** [_looks_logged_out()] *)
Definition _looks_logged_out : M St bool :=
  try_except
    (u <- current_url env ;;
     let u := lower u in
     if contains (py "login") u || contains (py "checkpoint") u then ret true
     else
       body <- element_text env (TagName (py "body")) ;;
       let body := lower (default [] body) in
       ret (contains (py "sign in") body && contains (py "join linkedin") body))
    (fun _ => ret false).

(** [recover_driver(url_to_resume)] *)
Definition recover_driver (url_to_resume : pystr) : M St bool :=
  _create_driver env ;;
  _load_cookies env ;;
  ok <- safe_get url_to_resume 3 5500 ;;
  if negb ok then ret false
  else
    logged_out <- _looks_logged_out ;;
    if logged_out then
      input env (py "Resolve LinkedIn checkpoint/login in the browser, then press ENTER to continue... ") ;;
      _save_cookies env ;;
      safe_get url_to_resume 2 5500
    else ret ok.

(** [_ensure_logged_in_once(first_url)] *)
Definition _ensure_logged_in_once (first_url : pystr) : M St unit :=
  _load_cookies env ;;
  safe_get first_url 2 6000 ;;
  logged_out <- _looks_logged_out ;;
  if logged_out then
    input env (py "Log into LinkedIn in the opened browser window, then press ENTER to begin scraping... ") ;;
    _save_cookies env
  else
    input env (py "LinkedIn appears logged in. Press ENTER to begin scraping... ").

(** The read of [self.driver.current_url] in [_wait_for_url_job_change],
    tried again once unless the driver is dead *)
Definition current_url_retry : M St pystr :=
  try_except (current_url env)
    (fun e => if _is_driver_dead e then raise e else current_url env).

(** The [while time.time() < end] loop of [_wait_for_url_job_change] *)
Fixpoint url_change_loop (fuel : nat) (end_ : Z) (previous_job_id : pystr)
  : M St (pystr * pystr) :=
  match fuel with
  | O => out_of_fuel
  | S fuel' =>
      now <- time_time env ;;
      if (now <? end_)%Z then
        cur_url <- current_url_retry ;;
        let cur_job_id := job_id_from_url env cur_url in
        if negb (str_eqb cur_job_id (py "N/A"))
           && negb (str_eqb cur_job_id previous_job_id)
        then ret (cur_url, cur_job_id)
        else sleep env 150 ;; url_change_loop fuel' end_ previous_job_id
      else
        cur_url <- current_url env ;;
        ret (cur_url, job_id_from_url env cur_url)
  end.

(** [_wait_for_url_job_change(previous_job_id, timeout)] *)
Definition _wait_for_url_job_change (fuel : nat) (previous_job_id : pystr)
    (timeout : Z) : M St (pystr * pystr) :=
  now <- time_time env ;;
  url_change_loop fuel (now + timeout)%Z previous_job_id.

(** The two [except] clauses of the loop of [_extract_jobs_on_page]:
    stale elements and timeouts are skipped, a dead driver is raised
    again, anything else is skipped. *)
Definition skip_or_reraise {A} (skip : A) (e : exn) : M St A :=
  match exn_type e with
  | StaleElementReferenceException | TimeoutException => ret skip
  | _ => if _is_driver_dead e then raise e else ret skip
  end.

(** What the first half of an iteration yields *)
Inductive activation :=
| NoMoreCards                              (* [i >= len(cards)]: break *)
| Skipped                                  (* [continue] *)
| Activated (job_url job_id : pystr).

(** An iteration of [_extract_jobs_on_page] up to [prev_job_id = job_id] *)
Definition activate_card (fuel : nat) (i : nat) (prev_job_id : pystr)
  : M St activation :=
  try_except
    (cards <- _find_job_cards env ;;
     match cards !! i with
     | None => ret NoMoreCards
     | Some c =>
         clicked <- _click_card env c ;;
         if negb clicked then ret Skipped
         else
           r <- _wait_for_url_job_change fuel prev_job_id 7000 ;;
           ret (Activated (fst r) (snd r))
     end)
    (skip_or_reraise Skipped).

(** The rest of the iteration; whether a record was appended *)
Definition extract_record (company_name job_id : pystr) : M St bool :=
  try_except
    (loaded <- _wait_for_job_details_loaded env ;;
     if negb loaded then ret false
     else
       human_delay env 250 650 ;;
       title <- _extract_title env ;;
       if str_eqb title (py "N/A") then ret false
       else
         lp <- _extract_location_posted env ;;
         description <- _extract_description env ;;
         let salary := env_salary W env description in
         company_job_count <- bump_company_count company_name ;;
         let url_for_json := _job_permalink job_id in
         scraped_at <- now_iso env ;;
         append_job
           (mkJob title company_name (fst lp) salary (snd lp) description
              (if nonempty url_for_json then url_for_json else py "N/A")
              job_id company_job_count scraped_at) ;;
         ret true)
    (skip_or_reraise false).

(** The [for i in range(limit)] loop, from index [i] for [todo] more
    iterations *)
Fixpoint extract_loop (fuel : nat) (company_name : pystr) (todo i : nat)
    (prev_job_id : pystr) (count : nat) : M St nat :=
  match todo with
  | O => ret count
  | S todo' =>
      a <- activate_card fuel i prev_job_id ;;
      match a with
      | NoMoreCards => ret count
      | Skipped => extract_loop fuel company_name todo' (S i) prev_job_id count
      | Activated job_url job_id =>
          added <- extract_record company_name job_id ;;
          extract_loop fuel company_name todo' (S i) job_id
            (if added then S count else count)
      end
  end.

(** [_extract_jobs_on_page(company_name)] *)
Definition _extract_jobs_on_page (fuel : nat) (company_name : pystr) : M St nat :=
  cards <- _find_job_cards env ;;
  if negb (nonempty cards) then ret 0
  else
    u <- current_url env ;;
    let prev_job_id := job_id_from_url env u in
    let limit := Nat.min (length cards) PAGE_SIZE in
    extract_loop fuel company_name limit 0 prev_job_id 0.

(** The handler of the two [try] blocks of [scrape_single_url]:
    [if self._is_driver_dead(e): if not self.recover_driver(
    self.driver.current_url): break; continue] and [raise] otherwise *)
Definition recover_or_reraise {A} (again : A) (e : exn)
  : M St (loop_ctl A) :=
  if _is_driver_dead e then
    u <- current_url env ;;
    ok <- recover_driver u ;;
    if negb ok then ret Break else ret (Continue again)
  else raise e.

(** What one pass through the body of [while True] decides *)
Inductive page_outcome :=
| PageBreak
| PageContinue (prev_sig : option (list pystr)).

(** The navigation at the top of the loop body, for [page_count > 1]:
    whether the body goes on *)
Definition open_next_page (fuel : nat) (base_url : pystr) (start : nat)
  : M St bool :=
  next_url <- set_query_param env base_url (py "start") (str_of_nat start) ;;
  loaded <- safe_get next_url 3 4500 ;;
  recovered <-
    (if negb loaded then recover_driver next_url else ret true) ;;
  if negb recovered then ret false
  else
    logged_out <- _looks_logged_out ;;
    if logged_out then ret false
    else _wait_for_results_or_end env fuel 25000.

(** The body of [while True] in [scrape_single_url], after
    [page_count += 1] *)
Definition scrape_page (fuel : nat) (company_name base_url : pystr)
    (max_pages : option nat) (page_count : nat)
    (prev_sig : option (list pystr)) : M St page_outcome :=
  let start := (page_count - 1) * PAGE_SIZE in
  if page_limit_reached max_pages page_count then ret PageBreak
  else
    go <- (if 1 <? page_count then open_next_page fuel base_url start
           else ret true) ;;
    if negb go then ret PageBreak
    else
      loaded <-
        try_except
          (ok <- _ensure_cards_loaded env PAGE_SIZE 12 ;;
           ret (Continue (Some ok)))
          (recover_or_reraise None) ;;
      match loaded with
      | Break => ret PageBreak
      | Continue None => ret (PageContinue prev_sig)
      | Continue (Some false) => ret PageBreak
      | Continue (Some true) =>
          cards <- _find_job_cards env ;;
          if negb (nonempty cards) then ret PageBreak
          else
            sig <- _page_signature env 10 ;;
            if signature_repeated sig prev_sig then ret PageBreak
            else
              found <-
                try_except
                  (n <- _extract_jobs_on_page fuel company_name ;;
                   ret (Continue (Some n)))
                  (recover_or_reraise None) ;;
              match found with
              | Break => ret PageBreak
              | Continue None => ret (PageContinue (Some sig))
              | Continue (Some _) =>
                  save_results env json_path_large ;;
                  ret (PageContinue (Some sig))
              end
      end.

(** The [while True] loop of [scrape_single_url]; [page_count] is the
    value before [page_count += 1] *)
Fixpoint pages_loop (rounds fuel : nat) (company_name base_url : pystr)
    (max_pages : option nat) (page_count : nat)
    (prev_sig : option (list pystr)) : M St unit :=
  match rounds with
  | O => out_of_fuel
  | S rounds' =>
      r <- scrape_page fuel company_name base_url max_pages (S page_count)
             prev_sig ;;
      match r with
      | PageBreak => ret tt
      | PageContinue prev_sig' =>
          pages_loop rounds' fuel company_name base_url max_pages
            (S page_count) prev_sig'
      end
  end.

(** [scrape_single_url(company_name, url, max_pages)] *)
Definition scrape_single_url (fuel : nat) (company_name u : pystr)
    (max_pages : option nat) : M St unit :=
  base_url <- normalize_url env u ;;
  base_url <- set_query_param env base_url (py "start") (str_of_nat 0) ;;
  opened <- safe_get base_url 3 5500 ;;
  if negb opened then ret tt
  else
    logged_out <- _looks_logged_out ;;
    if logged_out then ret tt
    else
      shown <- _wait_for_results_or_end env fuel 25000 ;;
      if negb shown then ret tt
      else pages_loop fuel fuel company_name base_url max_pages 0 None.

(** The loop over [url_list] *)
Fixpoint scrape_urls (fuel : nat) (company_name : pystr) (urls : list pystr)
    (max_pages : option nat) : M St unit :=
  match urls with
  | [] => ret tt
  | u :: rest =>
      scrape_single_url fuel company_name u max_pages ;;
      human_delay env 1500 3000 ;;
      scrape_urls fuel company_name rest max_pages
  end.

(** The loop over [companies] *)
Fixpoint scrape_companies (fuel : nat) (companies : list company_large)
    (max_pages : option nat) : M St unit :=
  match companies with
  | [] => ret tt
  | c :: rest =>
      setdefault_company_count (cl_name c) ;;
      scrape_urls fuel (cl_name c) (cl_urls c) max_pages ;;
      human_delay env 2000 4000 ;;
      scrape_companies fuel rest max_pages
  end.

(** [companies[0]["urls"][0]] *)
Definition first_url (companies : list company_large) : M St pystr :=
  match companies with
  | c :: _ =>
      match cl_urls c with
      | u :: _ => ret u
      | [] => raise (mkExn IndexError (py "list index out of range"))
      end
  | [] => raise (mkExn IndexError (py "list index out of range"))
  end.

(** [scrape_all_companies(companies, max_pages_per_url)] *)
Definition scrape_all_companies (fuel : nat) (companies : list company_large)
    (max_pages_per_url : option nat) : M St unit :=
  try_finally
    (u <- first_url companies ;;
     _ensure_logged_in_once u ;;
     scrape_companies fuel companies max_pages_per_url)
    (driver_quit env).

End WithEnv.
End Large.

(** ** Linkedin_Small.py *)

Module Small.
Section WithEnv.

Context {W : Type} (env : Env W).

Abbreviation St := (scraper W).

(** [_is_session_valid()] *)
Definition _is_session_valid : M St bool :=
  try_except
    (current_url env ;; ret true)
    (fun e =>
       ret (negb (contains (py "invalid session id") (lower (exn_text e))))).

(** The [while time.time() < end] loop of [_wait_for_url_job_change] *)
Fixpoint url_change_loop (fuel : nat) (end_ : Z) (previous_job_id : pystr)
  : M St (pystr * pystr) :=
  match fuel with
  | O => out_of_fuel
  | S fuel' =>
      now <- time_time env ;;
      if (now <? end_)%Z then
        cur_url <- current_url env ;;
        let cur_job_id := job_id_from_url env cur_url in
        if negb (str_eqb cur_job_id (py "N/A"))
           && negb (str_eqb cur_job_id previous_job_id)
        then ret (cur_url, cur_job_id)
        else sleep env 150 ;; url_change_loop fuel' end_ previous_job_id
      else
        cur_url <- current_url env ;;
        ret (cur_url, job_id_from_url env cur_url)
  end.

(** [_wait_for_url_job_change(previous_job_id, timeout)] *)
Definition _wait_for_url_job_change (fuel : nat) (previous_job_id : pystr)
    (timeout : Z) : M St (pystr * pystr) :=
  now <- time_time env ;;
  url_change_loop fuel (now + timeout)%Z previous_job_id.

(** The three [except] clauses of the loop of [_extract_jobs_on_page]:
    only [InvalidSessionIdException] is raised again. *)
Definition skip_or_reraise {A} (skip : A) (e : exn) : M St A :=
  match exn_type e with
  | InvalidSessionIdException => raise e
  | _ => ret skip
  end.

(** What the first half of an iteration yields *)
Inductive activation :=
| NoMoreCards
| Skipped
| Activated (job_url job_id : pystr).

(** An iteration of [_extract_jobs_on_page] up to [prev_job_id = job_id] *)
Definition activate_card (fuel : nat) (i : nat) (prev_job_id : pystr)
  : M St activation :=
  try_except
    (cards <- _find_job_cards env ;;
     match cards !! i with
     | None => ret NoMoreCards
     | Some c =>
         clicked <- _click_card env c ;;
         if negb clicked then ret Skipped
         else
           r <- _wait_for_url_job_change fuel prev_job_id 7000 ;;
           ret (Activated (fst r) (snd r))
     end)
    (skip_or_reraise Skipped).

(** The rest of the iteration; whether a record was appended.  The
    [url] field is the browser URL read after the click. *)
Definition extract_record (company_name job_url job_id : pystr) : M St bool :=
  try_except
    (loaded <- _wait_for_job_details_loaded env ;;
     if negb loaded then ret false
     else
       human_delay env 250 650 ;;
       title <- _extract_title env ;;
       if str_eqb title (py "N/A") then ret false
       else
         lp <- _extract_location_posted env ;;
         description <- _extract_description env ;;
         let salary := env_salary W env description in
         company_job_count <- bump_company_count company_name ;;
         scraped_at <- now_iso env ;;
         append_job
           (mkJob title company_name (fst lp) salary (snd lp) description
              (if negb (str_eqb job_id (py "N/A")) then job_url else py "N/A")
              job_id company_job_count scraped_at) ;;
         ret true)
    (skip_or_reraise false).

(** The [for i in range(len(cards))] loop *)
Fixpoint extract_loop (fuel : nat) (company_name : pystr) (todo i : nat)
    (prev_job_id : pystr) (count : nat) : M St nat :=
  match todo with
  | O => ret count
  | S todo' =>
      a <- activate_card fuel i prev_job_id ;;
      match a with
      | NoMoreCards => ret count
      | Skipped => extract_loop fuel company_name todo' (S i) prev_job_id count
      | Activated job_url job_id =>
          added <- extract_record company_name job_url job_id ;;
          extract_loop fuel company_name todo' (S i) job_id
            (if added then S count else count)
      end
  end.

(** [_extract_jobs_on_page(company_name)] *)
Definition _extract_jobs_on_page (fuel : nat) (company_name : pystr) : M St nat :=
  cards <- _find_job_cards env ;;
  if negb (nonempty cards) then ret 0
  else
    u <- current_url env ;;
    let prev_job_id := job_id_from_url env u in
    extract_loop fuel company_name (length cards) 0 prev_job_id 0.

(** The body of [while True] in [scrape_single_company], after
    [page_count += 1]; [seen] is [seen_first_listing_ids] *)
Definition scrape_page (fuel : nat) (company_name base_url : pystr)
    (max_pages : option nat) (page_count : nat) (seen : list pystr)
  : M St (loop_ctl (list pystr)) :=
  if page_limit_reached max_pages page_count then ret Break
  else
    loaded <- _ensure_cards_loaded env 25 12 ;;
    if negb loaded then ret Break
    else
      cards <- _find_job_cards env ;;
      match cards with
      | [] => ret Break
      | c0 :: _ =>
          let first_listing_id := _get_listing_anchor_id c0 in
          let repeated :=
            match first_listing_id with
            | Some id0 => mem_str id0 seen
            | None => false
            end in
          if repeated then ret Break
          else
            let seen' :=
              match first_listing_id with
              | Some id0 => id0 :: seen
              | None => seen
              end in
            _extract_jobs_on_page fuel company_name ;;
            save_results env json_path_small ;;
            next_url <- set_query_param env base_url (py "start")
                          (str_of_nat (page_count * 25)) ;;
            driver_get env next_url ;;
            human_delay env 2200 4000 ;;
            shown <- _wait_for_results_or_end env fuel 25000 ;;
            if negb shown then ret Break else ret (Continue seen')
      end.

(** The [while True] loop of [scrape_single_company] *)
Fixpoint pages_loop (rounds fuel : nat) (company_name base_url : pystr)
    (max_pages : option nat) (page_count : nat) (seen : list pystr)
  : M St unit :=
  match rounds with
  | O => out_of_fuel
  | S rounds' =>
      r <- scrape_page fuel company_name base_url max_pages (S page_count) seen ;;
      match r with
      | Break => ret tt
      | Continue seen' =>
          pages_loop rounds' fuel company_name base_url max_pages
            (S page_count) seen'
      end
  end.

(** [scrape_single_company(company_name, url, max_pages)] *)
Definition scrape_single_company (fuel : nat) (company_name u : pystr)
    (max_pages : option nat) : M St unit :=
  try_except
    (base_url <- normalize_url env u ;;
     base_url <- set_query_param env base_url (py "start") (str_of_nat 0) ;;
     driver_get env base_url ;;
     sleep env 6000 ;;
     shown <- _wait_for_results_or_end env fuel 25000 ;;
     if negb shown then ret tt
     else pages_loop fuel fuel company_name base_url max_pages 0 [])
    (fun e =>
       match exn_type e with
       | InvalidSessionIdException => raise e
       | _ => ret tt
       end).

(** The loop over [companies] of [scrape_all_companies] *)
Fixpoint scrape_companies (fuel : nat) (companies : list company_small)
    (max_pages : option nat) : M St unit :=
  match companies with
  | [] => ret tt
  | c :: rest =>
      valid <- _is_session_valid ;;
      if negb valid then ret tt
      else
        setdefault_company_count (cs_name c) ;;
        scrape_single_company fuel (cs_name c) (cs_url c) max_pages ;;
        human_delay env 2000 4000 ;;
        scrape_companies fuel rest max_pages
  end.

Definition hide_webdriver : pystr :=
  py "Object.defineProperty(navigator, 'webdriver', {get: () => false});".

(** The sign-in at the start of [scrape_all_companies] *)
Definition sign_in_once (companies : list company_small) : M St unit :=
  fun s =>
    match companies with
    | c :: _ =>
        if signin_prompted s then (Ok tt, s)
        else
          (driver_get env (cs_url c) ;;
           sleep env 6000 ;;
           execute_script env hide_webdriver ;;
           input env (py "Log into LinkedIn (Google sign-in fine), then press ENTER when job list is visible... ") ;;
           (fun s' => (Ok tt, set_signin_prompted s' true))) s
    | [] => (Ok tt, s)
    end.

(** [scrape_all_companies(companies, max_pages_per_company)] *)
Definition scrape_all_companies (fuel : nat) (companies : list company_small)
    (max_pages_per_company : option nat) : M St unit :=
  try_finally
    (sign_in_once companies ;;
     scrape_companies fuel companies max_pages_per_company)
    (driver_quit env).

End WithEnv.
End Small.

(** ** Auxiliary notions for the statements about pages and records *)

(** The anchor ids of the cards that have one, in page order *)
Definition anchor_ids (cards : list card) : list pystr :=
  omap _get_listing_anchor_id cards.

(** The page restricted to its non-promoted cards *)
Definition non_promoted (cards : list card) : list card :=
  List.filter (fun c => negb (_is_promoted_card c)) cards.

(** The records a run has appended to [self.jobs] *)
Definition appended {W} (before after : scraper W) : list job :=
  drop (length (jobs before)) (jobs after).

(** [after] holds the records of [before] followed by records that all
    satisfy [P] *)
Definition extends {W} (P : job -> Prop) (before after : scraper W) : Prop :=
  exists added, jobs after = jobs before ++ added /\ Forall P added.

(** Whatever [m] returns, it has only appended records that satisfy
    [P], and a returned value satisfies [Q] *)
Definition sat {W A} (P : job -> Prop) (m : M (scraper W) A) (Q : A -> Prop)
  : Prop :=
  forall s r s', m s = (r, s') ->
    extends P s s' /\ match r with Ok a => Q a | _ => True end.

(** What every record appended by [Linkedin_Large] satisfies *)
Definition large_record_ok (j : job) : Prop :=
  title_ok (title j) = true /\ url j = _job_permalink (job_id j).

(** What every record appended by [Linkedin_Small] satisfies *)
Definition small_record_ok (j : job) : Prop :=
  title_ok (title j) = true /\ (job_id j = py "N/A" -> url j = py "N/A").

(** ** A scripted browser, for concrete runs

    The examples below run the scrapers against a small deterministic
    environment: a script says which cards a loaded URL shows, where a
    click leads, which title the detail pane has, and which call of
    [find_elements] fails. *)

Inductive event :=
| EvGet (u : pystr)
| EvClick (handle : nat)
| EvRestart
| EvQuit.

Record script := mkScript {
  sc_cards : pystr -> list card;
  sc_after_click : pystr -> card -> pystr;
  sc_title : pystr -> option pystr;
  sc_no_results : pystr -> option pystr;
  sc_fault : nat -> option exn;       (* by calls of [find_elements] so far *)
  sc_get_fault : nat -> option exn    (* by restarts of the driver so far *)
}.

Record browser := mkBrowser {
  br_url : pystr;            (* [current_url] *)
  br_page : pystr;           (* the URL last loaded *)
  br_clock : Z;
  br_finds : nat;            (* calls of [find_elements] so far *)
  br_log : list event
}.

Definition br_log_event (b : browser) (e : event) : browser :=
  mkBrowser (br_url b) (br_page b) (br_clock b) (br_finds b) (br_log b ++ [e]).

Definition br_advance (b : browser) (ms : Z) : browser :=
  mkBrowser (br_url b) (br_page b) (br_clock b + ms) (br_finds b) (br_log b).

Definition first_card_selector : pystr := py "li[data-occludable-job-id]".
Definition first_title_selector : pystr :=
  py "div.job-details-jobs-unified-top-card__job-title h1".
Definition first_no_res_selector : pystr := py "div.jobs-search-no-results".

Definition no_such_element : exn :=
  mkExn NoSuchElementException (py "Message: no such element").

Definition is_restart (e : event) : bool :=
  match e with
  | EvRestart => true
  | _ => false
  end.

Definition restarts (log : list event) : nat :=
  length (List.filter is_restart log).

Definition scripted_env (sc : script) : Env browser :=
  {| env_get := fun u b =>
       match sc_get_fault sc (restarts (br_log b)) with
       | Some e => (Raise e, br_log_event b (EvGet u))
       | None =>
           (Ok tt,
            mkBrowser u u (br_clock b) (br_finds b) (br_log b ++ [EvGet u]))
       end;
     env_current_url := fun b => (Ok (br_url b), b);
     env_find_elements := fun sel b =>
       let b' := mkBrowser (br_url b) (br_page b) (br_clock b)
                   (S (br_finds b)) (br_log b) in
       match sc_fault sc (br_finds b) with
       | Some e => (Raise e, b')
       | None =>
           (Ok (if str_eqb sel first_card_selector
                then sc_cards sc (br_page b) else []), b')
       end;
     env_element_text := fun l b =>
       match l with
       | TagName _ => (Ok (Some []), b)
       | Css sel =>
           if str_eqb sel first_title_selector then
             match sc_title sc (br_url b) with
             | Some t => (Ok (Some t), b)
             | None => (Raise no_such_element, b)
             end
           else if str_eqb sel first_no_res_selector then
             match sc_no_results sc (br_page b) with
             | Some t => (Ok (Some t), b)
             | None => (Raise no_such_element, b)
             end
           else (Raise no_such_element, b)
       end;
     env_wait_present := fun sel b =>
       if str_eqb sel first_title_selector then
         match sc_title sc (br_url b) with
         | Some _ => (Ok tt, b)
         | None => (Raise (mkExn TimeoutException (py "Message: ")), b)
         end
       else (Raise (mkExn TimeoutException (py "Message: ")), b);
     env_execute_script := fun _ b => (Ok tt, b);
     env_find_list_container := fun b => (true, b);
     env_click_card := fun c b =>
       (true,
        mkBrowser (sc_after_click sc (br_url b) c) (br_page b) (br_clock b)
          (br_finds b) (br_log b ++ [EvClick (card_handle c)]));
     env_location_posted := fun b => ((py "Toronto, ON", py "2 days ago"), b);
     env_description := fun b => (py "N/A", b);
     env_create_driver := fun b => (Ok tt, br_log_event b EvRestart);
     env_load_cookies := fun b => (true, b);
     env_save_cookies := fun b => b;
     env_quit := fun b => br_log_event b EvQuit;
     env_input := fun _ b => (Ok tt, b);
     env_time := fun b => (br_clock b, br_advance b 1000);
     env_sleep := fun ms b => br_advance b ms;
     env_human_delay := fun a _ b => br_advance b a;
     env_now_iso := fun b => (py "2026-01-05T09:00:00", b);
     env_salary := fun _ => py "N/A";
     env_json_dump := fun js => py "[" :: List.map title js ++ [py "]"];
     env_check_bracketed_netloc := accept_all;
     env_checknetloc_nfkc := accept_all |}.

Definition fresh_browser : browser := mkBrowser [] [] 0 0 [].

Definition fresh_scraper : scraper browser :=
  mkScraper fresh_browser [] [] false [].

(** A card with anchor id [id] *)
Definition plain_card (handle : nat) (id : pystr) : card :=
  mkCard (Some (Some (py "Analyst"))) (Some (Some id)) (Some None) handle.

(** A promoted card with anchor id [id] *)
Definition promoted_card (handle : nat) (id : pystr) : card :=
  mkCard (Some (Some (py "Analyst Promoted"))) (Some (Some id)) (Some None) handle.

Definition search_page : pystr :=
  py "https://www.linkedin.com/jobs/search/?f_C=1808&start=0".

(** A scraper whose browser shows [u], with company [name] registered *)
Definition scraper_at (u name : pystr) : scraper browser :=
  mkScraper (mkBrowser u u 0 0 []) [] [(name, 0)] false [].

(** One card; the click opens the detail pane but the browser URL never
    shows a job id. *)
Definition site_without_job_id : script :=
  {| sc_cards := fun _ => [plain_card 0 (py "101")];
     sc_after_click := fun u _ => u;
     sc_title := fun _ => Some (py "Financial Analyst");
     sc_no_results := fun _ => None;
     sc_fault := fun _ => None;
     sc_get_fault := fun _ => None |}.

(** Two cards that open the same posting; the second click leaves a
    tracking parameter in the browser URL. *)
Definition site_same_posting_twice : script :=
  {| sc_cards := fun _ => [plain_card 0 (py "42"); promoted_card 1 (py "42")];
     sc_after_click := fun _ c =>
       if card_handle c =? 0
       then py "https://www.linkedin.com/jobs/search/?currentJobId=42&f_C=1808"
       else py "https://www.linkedin.com/jobs/search/?currentJobId=42&f_C=1808&refId=abc";
     sc_title := fun _ => Some (py "Financial Analyst");
     sc_no_results := fun _ => None;
     sc_fault := fun _ => None;
     sc_get_fault := fun _ => None |}.

(** The URLs requested from the source, in order *)
Definition requested (log : list event) : list pystr :=
  omap (fun e => match e with EvGet u => Some u | _ => None end) log.

(** A dead-driver failure and one that is not *)
Definition read_timed_out : exn :=
  mkExn WebDriverException
    (py "HTTPConnectionPool(host='localhost', port=51234): Read timed out. (read timeout=120)").

Definition unknown_error : exn :=
  mkExn WebDriverException (py "Message: unknown error: unhandled inspector error").

Definition net_error : exn :=
  mkExn WebDriverException (py "Message: unknown error: net::ERR_NAME_NOT_RESOLVED").

(** [e] at the [k]-th call, nothing otherwise *)
Definition fault_at (k : nat) (e : exn) (n : nat) : option exn :=
  if n =? k then Some e else None.

Definition no_fault (n : nat) : option exn := None.

(** After the first restart every [get] fails *)
Definition offline_after_restart (n : nat) : option exn :=
  if 0 <? n then Some net_error else None.

(** The click on a card puts its id in the browser URL *)
Definition open_posting (u : pystr) (c : card) : pystr :=
  py "https://www.linkedin.com/jobs/search/?currentJobId="
  ++ default [] (anchor_of_attr (card_occludable_job_id c)) ++ py "&f_C=1808".

Definition posting_title (u : pystr) : option pystr :=
  Some (py "Analyst " ++ _extract_job_id_from_url accept_all accept_all u).

(** Three pages of one posting each (101, 201, 301), then an explicit
    "No results found" *)
Definition three_pages (fault get_fault : nat -> option exn) : script :=
  {| sc_cards := fun u =>
       if contains (py "start=0") u then [plain_card 0 (py "101")]
       else if contains (py "start=25") u then [plain_card 0 (py "201")]
       else if contains (py "start=50") u then [plain_card 0 (py "301")]
       else [];
     sc_after_click := open_posting;
     sc_title := posting_title;
     sc_no_results := fun u =>
       if contains (py "start=75") u then Some (py "No results found") else None;
     sc_fault := fault;
     sc_get_fault := get_fault |}.

(** The source answers every offset with the same two postings *)
Definition site_repeating : script :=
  {| sc_cards := fun _ => [plain_card 0 (py "101"); plain_card 1 (py "102")];
     sc_after_click := open_posting;
     sc_title := posting_title;
     sc_no_results := fun _ => None;
     sc_fault := no_fault;
     sc_get_fault := no_fault |}.

(** A page that shows the "no results" banner above suggested postings *)
Definition site_banner_and_cards : script :=
  {| sc_cards := fun u =>
       if contains (py "start=0") u then [plain_card 0 (py "101")] else [];
     sc_after_click := open_posting;
     sc_title := posting_title;
     sc_no_results := fun _ => Some (py "No results found");
     sc_fault := no_fault;
     sc_get_fault := no_fault |}.

(** A page without cards that shows the banner *)
Definition site_empty : script :=
  {| sc_cards := fun _ => [];
     sc_after_click := open_posting;
     sc_title := posting_title;
     sc_no_results := fun _ => Some (py "No results found");
     sc_fault := no_fault;
     sc_get_fault := no_fault |}.

Definition seed_url : pystr :=
  py "https://www.linkedin.com/jobs/search/?currentJobId=5&f_C=1808&origin=x".

Definition other_seed_url : pystr :=
  py "https://www.linkedin.com/jobs/search/?f_C=2211&origin=y".

Definition page_url (start : nat) : pystr :=
  py "https://www.linkedin.com/jobs/search/?f_C=1808&start=" ++ str_of_nat start.

Definition two_targets_large : list company_large :=
  [mkCompanyLarge (py "RBC") [seed_url; other_seed_url]].

Definition two_targets_small : list company_small :=
  [mkCompanySmall (py "RBC") seed_url; mkCompanySmall (py "TD") other_seed_url].

Definition invalid_session : exn :=
  mkExn InvalidSessionIdException (py "Message: invalid session id").

(** A scraper with a fresh browser and company [name] registered *)
Definition scraper_for (name : pystr) : scraper browser :=
  mkScraper fresh_browser [] [(name, 0)] false [].

(** ** Indeed.py *)

Module Indeed.

(** A cell of a data-frame row or a value of a job dictionary *)
Inductive pyval :=
| VNone
| VNaN
| VStr (s : pystr)
| VBool (b : bool)
| VInt (z : Z)
| VOther (repr : pystr).       (* any other object, by its [str()]; truthy *)

Definition pyval_eqb (a b : pyval) : bool :=
  match a, b with
  | VNone, VNone => true
  | VStr x, VStr y => str_eqb x y
  | VBool x, VBool y => Bool.eqb x y
  | VInt x, VInt y => (x =? y)%Z
  | VOther x, VOther y => str_eqb x y
  | _, _ => false                (* in particular [nan != nan] *)
  end.

(** [d.get(k)] *)
Definition get (d : pydict pyval) (k : pystr) : pyval :=
  default VNone (dict_get d k).

(** [is_missing(v)] *)
Definition is_missing (v : pyval) : bool :=
  match v with
  | VNone | VNaN => true
  | _ => false
  end.

(** [norm(v)] *)
Definition norm (v : pyval) : pyval :=
  if is_missing v then VNone
  else match v with
       | VStr s => let s := strip s in if nonempty s then VStr s else VNone
       | _ => v
       end.

(** [v is None] *)
Definition is_none (v : pyval) : bool :=
  match v with
  | VNone => true
  | _ => false
  end.

(** [normalize_dict(d)] *)
Definition normalize_dict (d : pydict pyval) : pydict pyval :=
  List.map (fun kv => (fst kv, norm (snd kv))) d.

(** [bool(v)] *)
Definition truthy (v : pyval) : bool :=
  match v with
  | VNone => false
  | VNaN => true
  | VStr s => nonempty s
  | VBool b => b
  | VInt z => negb (z =? 0)%Z
  | VOther _ => true
  end.

Definition str_of_Z (z : Z) : pystr :=
  match z with
  | Z0 => py "0"
  | Zpos p => str_of_nat (Pos.to_nat p)
  | Zneg p => py "-" ++ str_of_nat (Pos.to_nat p)
  end.

(** [str(v)] *)
Definition str (v : pyval) : pystr :=
  match v with
  | VNone => py "None"
  | VNaN => py "nan"
  | VStr s => s
  | VBool true => py "True"
  | VBool false => py "False"
  | VInt z => str_of_Z z
  | VOther r => r
  end.

(** [v or ""] *)
Definition or_empty (v : pyval) : pyval := if truthy v then v else VStr [].

(** [str(job.get(k) or "")] *)
Definition piece (job : pydict pyval) (k : pystr) : pystr :=
  let v := get job k in
  if truthy v then str v else [].

Definition dedupe_fields : list pystr :=
  List.map py
    ["site"; "id"; "job_url"; "job_url_direct"; "title"; "company"; "location"]%string.

Definition COMMON_FIELDS : list pystr :=
  List.map py
    ["site"; "id"; "title"; "company"; "location"; "job_url"; "job_url_direct";
     "description"; "date_posted"; "job_type"; "min_amount"; "max_amount";
     "interval"; "currency"; "is_remote"]%string.

(** [to_clean_lower(x)] *)
Definition to_clean_lower (x : pyval) : option pystr :=
  if is_missing x then None
  else let s := strip (str x) in
       if nonempty s then Some (lower s) else None.

(** [make_allowed_company_set(aliases)] *)
Definition make_allowed_company_set (aliases : list pystr) : list pystr :=
  omap (fun a => to_clean_lower (VStr a)) aliases.

(** [company_exact_allowed(job_company, allowed_company_lc)] *)
Definition company_exact_allowed (job_company : pyval)
    (allowed_company_lc : list pystr) : bool :=
  match to_clean_lower job_company with
  | Some jc => mem_str jc allowed_company_lc
  | None => false
  end.

(** [keep_common_fields(raw)] *)
Definition keep_common_fields (raw : pydict pyval) : pydict pyval :=
  normalize_dict (List.map (fun k => (k, get raw k)) COMMON_FIELDS).

(** [GroupStats] *)
Record GroupStats := mkStats {
  requests : nat;
  rows_seen : nat;
  added : nat;
  deduped : nat;
  dropped_company_mismatch : nat;
  dropped_missing_anchor : nat;
  errors : nat
}.

Definition stats0 : GroupStats := mkStats 0 0 0 0 0 0 0.

(** The locals of [scrape_company_group] that [ingest_df] updates *)
Record group_state := mkGroup {
  stats : GroupStats;
  seen : list pyval;                       (* the set [seen] *)
  jobs : list (pydict pyval);
  mismatch_example : option (pydict pyval)
}.

Definition group0 : group_state := mkGroup stats0 [] [] None.

Section Group.

(** [hashlib.sha1(raw).hexdigest()] *)
Variable sha1_hexdigest : pystr -> pystr.

(** The text inference of [Indeed.py], built on regular expressions and
    on [datetime]; taken as total functions of their arguments *)
Variable infer_work_arrangement : pyval -> pyval -> pyval -> pyval.
Variable infer_employment_types : pyval -> pyval -> pyval -> pyval.
Variable parse_salary_from_text : pyval -> pyval -> pyval * pyval * pyval * pyval.
Variable split_location : pyval -> pyval * pyval * pyval.
Variable posted_days_ago : pyval -> pyval -> pyval.

(** Python's [<] on the key tuples of [sort_jobs_newest_first] *)
Variable key_lt : pyval * pyval * pyval -> pyval * pyval * pyval -> bool.

Variable enforce_exact_company_match : bool.
Variable company_group : pystr.
Variable search_terms : list pystr.

(** [stable_dedupe_key(job)] *)
Definition stable_dedupe_key (job : pydict pyval) : pystr :=
  sha1_hexdigest (join (py "||") (List.map (piece job) dedupe_fields)).

(** [job[k] = job.get(k) if job.get(k) is not None else v] *)
Definition fill (job : pydict pyval) (k : pystr) (v : pyval) : pydict pyval :=
  dict_set job k (if is_none (get job k) then v else get job k).

(** [enrich_common_fields(job)]; [now] is what [utc_now_iso()] answers *)
Definition enrich_common_fields (now : pystr) (job : pydict pyval)
  : pydict pyval :=
  let job := normalize_dict job in
  let title := or_empty (get job (py "title")) in
  let desc := or_empty (get job (py "description")) in
  let location := or_empty (get job (py "location")) in
  let country := or_empty (get job (py "search_country_indeed")) in
  let wa := infer_work_arrangement title location desc in
  let job := dict_set job (py "work_arrangement") wa in
  let job :=
    dict_set job (py "is_remote")
      (if pyval_eqb wa (VStr (py "remote")) then VBool true
       else if pyval_eqb wa (VStr (py "hybrid"))
               || pyval_eqb wa (VStr (py "onsite")) then VBool false
       else match get job (py "is_remote") with
            | VBool b => VBool b
            | _ => VNone
            end) in
  let job :=
    dict_set job (py "employment_types")
      (infer_employment_types title desc (get job (py "job_type"))) in
  let job :=
    if existsb (fun k => is_none (get job k))
         (List.map py ["min_amount"; "max_amount"; "interval"; "currency"]%string)
    then
      let '(min_amt, max_amt, interval, currency) :=
        parse_salary_from_text desc country in
      fill (fill (fill (fill job (py "min_amount") min_amt)
                    (py "max_amount") max_amt)
              (py "interval") interval)
        (py "currency") currency
    else job in
  let '(city, region, country_hint) := split_location location in
  let job := dict_set job (py "location_city") city in
  let job := dict_set job (py "location_region") region in
  let job := dict_set job (py "location_country_hint") country_hint in
  let job :=
    dict_set job (py "scraped_at")
      (if truthy (get job (py "scraped_at")) then get job (py "scraped_at")
       else VStr now) in
  let job :=
    dict_set job (py "posted_days_ago")
      (posted_days_ago (get job (py "date_posted")) (get job (py "scraped_at"))) in
  let job := dict_set job (py "dedupe_key") (VStr (stable_dedupe_key job)) in
  normalize_dict job.

(** The sort key of [sort_jobs_newest_first] *)
Definition sort_key (j : pydict pyval) : pyval * pyval * pyval :=
  (or_empty (get j (py "date_posted")),
   or_empty (get j (py "title")),
   if truthy (get j (py "job_url")) then get j (py "job_url")
   else or_empty (get j (py "job_url_direct"))).

(** Stable insertion into a list that has the greatest key first *)
Fixpoint insert_desc (j : pydict pyval) (l : list (pydict pyval))
  : list (pydict pyval) :=
  match l with
  | [] => [j]
  | x :: l' =>
      if key_lt (sort_key x) (sort_key j) then j :: l
      else x :: insert_desc j l'
  end.

(** [sorted(jobs, key=key, reverse=True)] *)
Definition sort_jobs_newest_first (jobs : list (pydict pyval))
  : list (pydict pyval) :=
  fold_left (fun acc j => insert_desc j acc) jobs [].

(** The four provenance columns that [ingest_df] adds *)
Definition with_provenance (d : pydict pyval) (search_term country
    search_location : pystr) : pydict pyval :=
  dict_set
    (dict_set
       (dict_set (dict_set d (py "company_group") (VStr company_group))
          (py "company_search_term") (VStr search_term))
       (py "search_country_indeed") (VStr country))
    (py "search_location") (VStr search_location).

Definition bump_rows_seen (g : group_state) : group_state :=
  let s := stats g in
  mkGroup (mkStats (requests s) (S (rows_seen s)) (added s) (deduped s)
             (dropped_company_mismatch s) (dropped_missing_anchor s) (errors s))
    (seen g) (jobs g) (mismatch_example g).

Definition bump_missing_anchor (g : group_state) : group_state :=
  let s := stats g in
  mkGroup (mkStats (requests s) (rows_seen s) (added s) (deduped s)
             (dropped_company_mismatch s) (S (dropped_missing_anchor s)) (errors s))
    (seen g) (jobs g) (mismatch_example g).

Definition bump_mismatch (g : group_state) (example : pydict pyval)
  : group_state :=
  let s := stats g in
  mkGroup (mkStats (requests s) (rows_seen s) (added s) (deduped s)
             (S (dropped_company_mismatch s)) (dropped_missing_anchor s) (errors s))
    (seen g) (jobs g)
    (match mismatch_example g with
     | None => Some example
     | Some e => Some e
     end).

Definition bump_deduped (g : group_state) : group_state :=
  let s := stats g in
  mkGroup (mkStats (requests s) (rows_seen s) (added s) (S (deduped s))
             (dropped_company_mismatch s) (dropped_missing_anchor s) (errors s))
    (seen g) (jobs g) (mismatch_example g).

Definition add_job (g : group_state) (key : pyval) (enriched : pydict pyval)
  : group_state :=
  let s := stats g in
  mkGroup (mkStats (requests s) (rows_seen s) (S (added s)) (deduped s)
             (dropped_company_mismatch s) (dropped_missing_anchor s) (errors s))
    (key :: seen g) (jobs g ++ [enriched]) (mismatch_example g).

(** The example kept for the first company mismatch *)
Definition mismatch_of (raw : pydict pyval) (search_term country
    search_location : pystr) : pydict pyval :=
  normalize_dict
    (dict_set
       (with_provenance (dict_pop raw (py "description")) search_term country
          search_location)
       (py "allowed_company_names")
       (VOther (join (py ", ") search_terms))).

(** [utc_now_iso()] while the [n]-th row of the group is enriched *)
Variable utc_now_iso : nat -> pystr.

(** The body of [for _, row in df.iterrows()] in [ingest_df]; [raw]
    already carries the four provenance columns *)
Definition ingest_row (search_term country search_location : pystr)
    (g : group_state) (raw : pydict pyval) : group_state :=
  let g := bump_rows_seen g in
  if is_missing (get raw (py "job_url"))
     && is_missing (get raw (py "job_url_direct"))
     && is_missing (get raw (py "id"))
  then bump_missing_anchor g
  else if enforce_exact_company_match
          && negb (company_exact_allowed (get raw (py "company"))
                     (make_allowed_company_set search_terms))
  then bump_mismatch g (mismatch_of raw search_term country search_location)
  else
    let kept := keep_common_fields raw in
    let kept := with_provenance kept search_term country search_location in
    let enriched := enrich_common_fields (utc_now_iso (rows_seen (stats g))) kept in
    let key := get enriched (py "dedupe_key") in
    if existsb (pyval_eqb key) (seen g) then bump_deduped g
    else add_job g key enriched.

(** [ingest_df(df, search_term=..., country=..., search_location=...)];
    [df] is the list of the rows, [None] when the request gave no frame *)
Definition ingest_df (df : option (list (pydict pyval))) (search_term country
    search_location : pystr) (g : group_state) : group_state :=
  match df with
  | None => g
  | Some rows =>
      fold_left
        (fun g row =>
           ingest_row search_term country search_location g
             (with_provenance row search_term country search_location))
        rows g
  end.

(** What [scrape_with_retries] answered to one request of the group *)
Record response := mkResponse {
  resp_search_term : pystr;
  resp_country : pystr;
  resp_location : pystr;           (* the country, or a city after a cap *)
  resp_df : option (list (pydict pyval));
  resp_err : bool
}.

Definition count_request (err : bool) (g : group_state) : group_state :=
  let s := stats g in
  mkGroup (mkStats (S (requests s)) (rows_seen s) (added s) (deduped s)
             (dropped_company_mismatch s) (dropped_missing_anchor s)
             (if err then S (errors s) else errors s))
    (seen g) (jobs g) (mismatch_example g).

(** One turn of the request loops of [scrape_company_group] *)
Definition handle_response (g : group_state) (r : response) : group_state :=
  ingest_df (resp_df r) (resp_search_term r) (resp_country r) (resp_location r)
    (count_request (resp_err r) g).

(** [scrape_company_group], on the answers to the requests it made, in
    the order it made them *)
Definition scrape_company_group (answers : list response) : group_state :=
  fold_left handle_response answers group0.

(** What [save_group] hands to [atomic_write_json] *)
Definition save_group (g : group_state) : list (pydict pyval) :=
  sort_jobs_newest_first (jobs g).

End Group.

(** The [dedupe_key] of a stored job *)
Definition dedupe_key (j : pydict pyval) : pyval := get j (py "dedupe_key").

(** What the loops keep true of the locals of [scrape_company_group] *)
Record group_inv (g : group_state) : Prop := mkGroupInv {
  inv_seen : seen g = rev (List.map dedupe_key (jobs g));
  inv_nodup : NoDup (List.map dedupe_key (jobs g));
  inv_added : added (stats g) = length (jobs g);
  inv_rows : rows_seen (stats g)
             = added (stats g) + deduped (stats g)
               + dropped_company_mismatch (stats g)
               + dropped_missing_anchor (stats g)
}.

End Indeed.

(** ** Auxiliary notions for the statements about URLs and files *)

Definition no_qf (c : ascii) : bool := negb (mem_char c (py "?#")).
Definition not_delim (c : ascii) : bool := negb (netloc_delim c).

Record wf_split (r : SplitResult) : Prop := {
  wf_scheme : scheme_ok (scheme r) = true;
  wf_netloc : forallb not_delim (netloc r) = true;
  wf_path : forallb no_qf (path r) = true;
  wf_safe_netloc : safe_bytes (netloc r) = true;
  wf_safe_path : safe_bytes (path r) = true;
  wf_safe_fragment : safe_bytes (fragment r) = true;
  wf_np : netloc r <> [] -> path r = [] \/ starts_with (py "/") (path r) = true;
  wf_head : scheme r = [] -> netloc r = [] ->
            match path r with
            | [] => True
            | c :: _ => c0_control_or_space c = false
            end;
  wf_noscheme : scheme r = [] -> netloc r = [] ->
                forall x, path_follower x = true ->
                split_scheme (path r ++ x) = ([], path r ++ x)
}.

(** An operation that leaves [path] alone *)
Definition spares (path : pystr) (op : fs_op) : Prop :=
  match op with
  | FsOpenW p | FsWrite p _ => p <> path
  | FsReplace _ dst => False
  end.

(** ** Invariants of a run of the LinkedIn scrapers *)

(** [m] keeps [I]: from a state where [I] holds, [m] ends in a state
    where it holds, whether it returns, raises or runs out of fuel *)
Definition keeps {W A} (I : scraper W -> Prop) (m : M (scraper W) A) : Prop :=
  forall s r s', I s -> m s = (r, s') -> I s'.

(** The records of company [name] among [js] *)
Definition count_of (name : pystr) (js : list job) : nat :=
  length (List.filter (fun j => str_eqb (company j) name) js).

(** Every record carries its rank among the records of its company *)
Definition numbered (js : list job) : Prop :=
  forall i j, js !! i = Some j ->
    company_job_count j = count_of (company j) (take (S i) js).

(** [company_counts] and the [company_job_count] fields agree with
    [jobs]: a registered company has as many records as its counter
    says, an unregistered one has none, and the records are numbered *)
Definition counted {W} (s : scraper W) : Prop :=
  (forall c, match dict_get (company_counts s) c with
             | Some n => n = count_of c (jobs s)
             | None => count_of c (jobs s) = 0
             end)
  /\ numbered (jobs s).

(** The output file is absent or holds the dump of the first [k]
    records of [jobs], for some [k] *)
Definition checkpoint_behind {W} (env : Env W) (path : pystr) (s : scraper W)
  : Prop :=
  fs_read (files s) path = None
  \/ exists k, fs_read (files s) path
               = Some (concat (env_json_dump W env (take k (jobs s)))).

(** ** More of Indeed.py *)

Module IndeedHelpers.

(** The characters that [safe_filename] keeps: [[A-Za-z0-9._-]] *)
Definition filename_char (c : ascii) : bool :=
  is_alpha c || is_digit c || mem_char c (py "._-").

(** [re.sub(r"[^A-Za-z0-9._-]+", "_", name)]: every maximal run of
    other characters becomes one underscore.  [in_run] says that the
    character before was replaced.  (A character outside ASCII is a run
    of bytes outside the class, so bytes and characters give the same
    runs.) *)
Fixpoint squeeze (in_run : bool) (name : pystr) : pystr :=
  match name with
  | [] => []
  | c :: rest =>
      if filename_char c then c :: squeeze false rest
      else if in_run then squeeze true rest
      else "_"%char :: squeeze true rest
  end.

(** [s.strip(chars)] for one character *)
Definition strip_char (c : ascii) (s : pystr) : pystr :=
  rev (drop_while (Ascii.eqb c) (rev (drop_while (Ascii.eqb c) s))).

(** [safe_filename(name)] *)
Definition safe_filename (name : pystr) : pystr :=
  strip_char "_" (squeeze false name).

(** [parts[-1]] of a non-empty list *)
Fixpoint last_part (a : pystr) (rest : list pystr) : pystr :=
  match rest with
  | [] => a
  | b :: rest' => last_part b rest'
  end.

(** [split_location(location)]: city, region and country; the outer
    [None] stands for the [IndexError] of [parts[0]] on an empty
    [parts] *)
Definition split_location (location : option pystr)
  : option (option pystr * option pystr * option pystr) :=
  match location with
  | None => Some (None, None, None)
  | Some location =>
      if negb (nonempty location) then Some (None, None, None)
      else
        let loc := strip location in
        if negb (nonempty loc) || str_eqb (lower loc) (py "remote")
        then Some (None, None, None)
        else
          let parts :=
            List.filter nonempty (List.map strip (split_char "," loc)) in
          match parts with
          | [] => None
          | [a] => Some (Some a, None, None)
          | [a; b] => Some (Some a, Some b, None)
          | a :: b :: rest => Some (Some a, Some b, Some (last_part b rest))
          end
  end.

(** What one call of [call_scrape_jobs] gives: a data frame ([None], or
    its rows) or an exception, as the text [f"{type(e).__name__}: {e}"] *)
Inductive attempt :=
| Answered (df : option (list (pydict Indeed.pyval)))
| Failed (err : pystr).

(** The loop [for attempt in range(cfg.max_retries + 1)] of
    [scrape_with_retries], from attempt [attempt] with [todo] turns
    left.  [call k] is the outcome of the call made at attempt [k];
    [slept] collects the attempts after which the loop slept
    [min(retry_max_seconds, retry_base_seconds * 2 ** attempt)] and a
    random part. *)
Fixpoint retry_loop (call : nat -> attempt) (max_retries todo attempt : nat)
    (last_err : option pystr) (slept : list nat)
  : (list (pydict Indeed.pyval) * option pystr) * list nat :=
  match todo with
  | O => (([], last_err), slept)
  | S todo' =>
      match call attempt with
      | Answered df => ((default [] df, None), slept)
      | Failed err =>
          if max_retries <=? attempt then (([], Some err), slept)
          else retry_loop call max_retries todo' (S attempt) (Some err)
                 (slept ++ [attempt])
      end
  end.

(** [scrape_with_retries(cfg, ...)]: the frame (empty when there is
    none), the last error, and the sleeps *)
Definition scrape_with_retries (max_retries : nat) (call : nat -> attempt)
  : (list (pydict Indeed.pyval) * option pystr) * list nat :=
  retry_loop call max_retries (S max_retries) 0 None [].

End IndeedHelpers.

(** ** Auxiliary notions for the statements about texts and jobs *)

(** A text without the characters of [p] at its two ends *)
Definition trim (p : ascii -> bool) (s : pystr) : pystr :=
  rev (drop_while p (rev (drop_while p s))).

(** A text made of commas and white space only *)
Definition only_commas (s : pystr) : bool :=
  forallb (fun c => Ascii.eqb c "," || is_space c) s.

(** What [normalize_dict] leaves as a value: [None], a non-empty text
    without white space around it, or something that is not a text and
    not missing *)
Definition clean_value (v : Indeed.pyval) : Prop :=
  match v with
  | Indeed.VNone => True
  | Indeed.VNaN => False
  | Indeed.VStr s => s <> [] /\ strip s = s
  | _ => True
  end.

(** [d'] has the seven fields of the dedupe key as [d] has them *)
Definition same_anchor (d d' : pydict Indeed.pyval) : Prop :=
  forall k, In k Indeed.dedupe_fields -> Indeed.get d' k = Indeed.get d k.

(** A total of the rows of the frames that were answered *)
Definition rows_of (answers : list Indeed.response) : nat :=
  list_sum (List.map (fun r => length (default [] (Indeed.resp_df r))) answers).

(** * Proofs *)

(** * Proofs *)

(** ** Characters and strings *)

Ltac ascii_cases c :=
  destruct c as [[] [] [] [] [] [] [] []].

Lemma eqb_char_eq (a b : ascii) : Ascii.eqb a b = true <-> a = b.
Proof. apply Ascii.eqb_eq. Qed.

Lemma eqb_char_neq (a b : ascii) : Ascii.eqb a b = false <-> a <> b.
Proof. apply Ascii.eqb_neq. Qed.

Lemma str_eqb_eq (a b : pystr) : str_eqb a b = true <-> a = b.
Proof. unfold str_eqb. apply bool_decide_eq_true. Qed.

Lemma str_eqb_neq (a b : pystr) : str_eqb a b = false <-> a <> b.
Proof. unfold str_eqb. apply bool_decide_eq_false. Qed.

Lemma str_eqb_refl (a : pystr) : str_eqb a a = true.
Proof. by apply str_eqb_eq. Qed.

Lemma mem_char_In (c : ascii) (s : pystr) : mem_char c s = true <-> In c s.
Proof.
  unfold mem_char. rewrite existsb_exists. split.
  - intros (x & Hx & He). apply eqb_char_eq in He. by subst.
  - intros H. exists c. split; [done | by apply eqb_char_eq].
Qed.

Lemma mem_char_false (c : ascii) (s : pystr) :
  mem_char c s = false <-> ~ In c s.
Proof.
  rewrite <- mem_char_In. destruct (mem_char c s); naive_solver.
Qed.

Lemma mem_str_In (x : pystr) (l : list pystr) : mem_str x l = true <-> In x l.
Proof.
  unfold mem_str. rewrite existsb_exists. split.
  - intros (y & Hy & He). apply str_eqb_eq in He. by subst.
  - intros H. exists x. split; [done | apply str_eqb_refl].
Qed.

Lemma nonempty_true {A} (l : list A) : nonempty l = true <-> l <> [].
Proof. destruct l; simpl; split; congruence. Qed.

Lemma nonempty_false {A} (l : list A) : nonempty l = false <-> l = [].
Proof. destruct l; simpl; split; congruence. Qed.

Lemma cut_at_inv (c : ascii) (s a b : pystr) :
  cut_at c s = Some (a, b) -> s = a ++ c :: b /\ ~ In c a.
Proof.
  revert a b. induction s as [|x s IH]; intros a b; simpl; [done |].
  destruct (Ascii.eqb x c) eqn:E.
  - apply eqb_char_eq in E. subst x. intros [= <- <-]. split; [done | by intros []].
  - apply eqb_char_neq in E. destruct (cut_at c s) as [[a' b']|]; [| done].
    intros [= <- <-]. destruct (IH a' b' eq_refl) as [-> Hn]. split; [done |].
    intros [H|H]; [congruence | done].
Qed.

Lemma cut_at_app (c : ascii) (a b : pystr) :
  ~ In c a -> cut_at c (a ++ c :: b) = Some (a, b).
Proof.
  induction a as [|x a IH]; simpl; intros Hn.
  - by rewrite Ascii.eqb_refl.
  - destruct (Ascii.eqb x c) eqn:E.
    + apply eqb_char_eq in E. exfalso. apply Hn. by left.
    + rewrite IH; [done |]. intros Hi. apply Hn. by right.
Qed.

Lemma cut_at_Some (c : ascii) (s a b : pystr) :
  cut_at c s = Some (a, b) <-> s = a ++ c :: b /\ ~ In c a.
Proof.
  split; [apply cut_at_inv |]. intros [-> Hn]. by apply cut_at_app.
Qed.

Lemma cut_at_None (c : ascii) (s : pystr) :
  cut_at c s = None <-> ~ In c s.
Proof.
  induction s as [|x s IH]; simpl.
  - split; [by intros _ [] | done].
  - destruct (Ascii.eqb x c) eqn:E.
    + apply eqb_char_eq in E. subst. split; [done |]. intros H. exfalso. apply H. by left.
    + apply eqb_char_neq in E. destruct (cut_at c s) as [[a b]|].
      * split; [done |]. intros H. exfalso.
        assert (He : @None (pystr * pystr) = Some (a, b)); [| done].
        symmetry. apply IH. intros Hi. apply H. by right.
      * split; [| done]. intros _ [H|H]; [done |]. by apply IH.
Qed.

Lemma cut_at_app_l (c : ascii) (s t a b : pystr) :
  cut_at c s = Some (a, b) -> cut_at c (s ++ t) = Some (a, b ++ t).
Proof.
  intros H. apply cut_at_Some in H as [-> Hn]. apply cut_at_Some.
  split; [| done]. by rewrite <- app_assoc.
Qed.

Lemma take_while_app (p : ascii -> bool) (a b : pystr) :
  forallb p a = true ->
  take_while p (a ++ b) = a ++ take_while p b.
Proof.
  induction a as [|x a IH]; simpl; [done |].
  intros H. apply andb_true_iff in H as [Hx Ha]. rewrite Hx. by rewrite IH.
Qed.

Lemma drop_while_app (p : ascii -> bool) (a b : pystr) :
  forallb p a = true ->
  drop_while p (a ++ b) = drop_while p b.
Proof.
  induction a as [|x a IH]; simpl; [done |].
  intros H. apply andb_true_iff in H as [Hx Ha]. rewrite Hx. by rewrite IH.
Qed.

Lemma take_drop_while (p : ascii -> bool) (s : pystr) :
  take_while p s ++ drop_while p s = s.
Proof.
  induction s as [|x s IH]; simpl; [done |].
  destruct (p x); simpl; [by rewrite IH | done].
Qed.

Lemma take_while_all (p : ascii -> bool) (s : pystr) :
  forallb p (take_while p s) = true.
Proof.
  induction s as [|x s IH]; simpl; [done |].
  destruct (p x) eqn:E; simpl; [by rewrite E | done].
Qed.

Lemma drop_while_head (p : ascii -> bool) (s : pystr) :
  match drop_while p s with
  | [] => True
  | x :: _ => p x = false
  end.
Proof.
  induction s as [|x s IH]; simpl; [done |].
  destruct (p x) eqn:E; [done | by simpl].
Qed.

Lemma drop_while_id (p : ascii -> bool) (s : pystr) :
  match s with [] => True | x :: _ => p x = false end ->
  drop_while p s = s.
Proof. destruct s as [|x s]; simpl; [done |]. by intros ->. Qed.

Lemma filter_id (p : ascii -> bool) (s : pystr) :
  forallb p s = true -> List.filter p s = s.
Proof.
  induction s as [|x s IH]; simpl; [done |].
  intros H. apply andb_true_iff in H as [Hx Hs]. rewrite Hx. by rewrite IH.
Qed.

Lemma filter_all (p : ascii -> bool) (s : pystr) :
  forallb p (List.filter p s) = true.
Proof.
  induction s as [|x s IH]; simpl; [done |].
  destruct (p x) eqn:E; simpl; [by rewrite E | done].
Qed.

Lemma forallb_drop_while (q p : ascii -> bool) (s : pystr) :
  forallb q s = true -> forallb q (drop_while p s) = true.
Proof.
  induction s as [|x s IH]; simpl; [done |].
  intros H. apply andb_true_iff in H as [Hx Hs].
  destruct (p x); [by apply IH | simpl; by rewrite Hx, Hs].
Qed.

Lemma forallb_take_while (q p : ascii -> bool) (s : pystr) :
  forallb q s = true -> forallb q (take_while p s) = true.
Proof.
  induction s as [|x s IH]; simpl; [done |].
  intros H. apply andb_true_iff in H as [Hx Hs].
  destruct (p x); [simpl; rewrite Hx; by apply IH | done].
Qed.

Lemma forallb_app_iff (q : ascii -> bool) (a b : pystr) :
  forallb q (a ++ b) = true <-> forallb q a = true /\ forallb q b = true.
Proof. rewrite forallb_app. apply andb_true_iff. Qed.

Lemma forallb_In (q : ascii -> bool) (s : pystr) (c : ascii) :
  forallb q s = true -> In c s -> q c = true.
Proof. intros H Hi. rewrite forallb_forall in H. by apply H. Qed.

Lemma forallb_not_In (q : ascii -> bool) (s : pystr) (c : ascii) :
  forallb q s = true -> q c = false -> ~ In c s.
Proof. intros H Hq Hi. rewrite (forallb_In q s c H Hi) in Hq. done. Qed.

(** ** Percent-encoding *)

Lemma quote_byte_chars (c : ascii) : forallb qchar (quote_byte c) = true.
Proof. ascii_cases c; reflexivity. Qed.

Lemma unquote_plus_quote_byte (c : ascii) (t : pystr) :
  unquote_plus (quote_byte c ++ t) = c :: unquote_plus t.
Proof. ascii_cases c; reflexivity. Qed.

Lemma quote_plus_chars (s : pystr) : forallb qchar (quote_plus s) = true.
Proof.
  induction s as [|c s IH]; [done |].
  unfold quote_plus in *. simpl. rewrite forallb_app, quote_byte_chars. done.
Qed.

Lemma unquote_plus_quote_plus (s : pystr) : unquote_plus (quote_plus s) = s.
Proof.
  induction s as [|c s IH]; [done |].
  unfold quote_plus in *. simpl. by rewrite unquote_plus_quote_byte, IH.
Qed.

Lemma qchar_not_In (c : ascii) (s : pystr) :
  qchar c = false -> ~ In c (quote_plus s).
Proof. intros H. eapply forallb_not_In; [apply quote_plus_chars | done]. Qed.

(** ** Splitting and joining *)

Lemma split_char_notin (c : ascii) (a : pystr) :
  ~ In c a -> split_char c a = [a].
Proof.
  induction a as [|x a IH]; simpl; [done |]. intros Hn.
  destruct (Ascii.eqb x c) eqn:E.
  - apply eqb_char_eq in E. exfalso. apply Hn. by left.
  - rewrite IH; [done |]. intros Hi. apply Hn. by right.
Qed.

Lemma split_char_app (c : ascii) (a t : pystr) :
  ~ In c a -> split_char c (a ++ c :: t) = a :: split_char c t.
Proof.
  induction a as [|x a IH]; simpl; intros Hn.
  - by rewrite Ascii.eqb_refl.
  - destruct (Ascii.eqb x c) eqn:E.
    + apply eqb_char_eq in E. exfalso. apply Hn. by left.
    + rewrite IH; [done |]. intros Hi. apply Hn. by right.
Qed.

Lemma split_join (c : ascii) (l : list pystr) :
  l <> [] -> Forall (fun w => ~ In c w) l ->
  split_char c (join [c] l) = l.
Proof.
  induction l as [|w l IH]; [done |]. intros _ Hall.
  apply Forall_cons in Hall as [Hw Hl].
  destruct l as [|w' l].
  - simpl. by apply split_char_notin.
  - change (join [c] (w :: w' :: l)) with (w ++ c :: join [c] (w' :: l)).
    rewrite split_char_app by done. f_equal. by apply IH.
Qed.

Lemma join_nonempty (sep : pystr) (l : list pystr) :
  (exists w, In w l /\ w <> []) -> join sep l <> [].
Proof.
  induction l as [|w l IH]; intros (x & Hx & Hne); [done |].
  destruct l as [|w' l].
  - simpl. destruct Hx as [->|[]]. done.
  - change (join sep (w :: w' :: l)) with (w ++ sep ++ join sep (w' :: l)).
    destruct Hx as [->|Hx].
    + destruct x; [done | discriminate].
    + intros H. apply app_eq_nil in H as [_ H]. apply app_eq_nil in H as [_ H].
      revert H. apply IH. eauto.
Qed.

(** ** [parse_qsl] after [urlencode] *)

Lemma urlencode_fields (q : pydict pystr) :
  urlencode q = join (py "&") (List.map encode_field q).
Proof. done. Qed.

Lemma encode_field_nonempty (kv : pystr * pystr) : encode_field kv <> [].
Proof. unfold encode_field. destruct (quote_plus (fst kv)); discriminate. Qed.

Lemma encode_field_no_amp (kv : pystr * pystr) : ~ In "&"%char (encode_field kv).
Proof.
  unfold encode_field. rewrite !in_app_iff. intros [H|[H|H]].
  - by apply qchar_not_In in H.
  - destruct H as [H|[]]. discriminate.
  - by apply qchar_not_In in H.
Qed.

Lemma parse_field_encode (kv : pystr * pystr) :
  parse_field true (encode_field kv) = Some kv.
Proof.
  destruct kv as [k v]. unfold parse_field.
  destruct (nonempty (encode_field (k, v))) eqn:E.
  2:{ apply nonempty_false in E. by apply encode_field_nonempty in E. }
  unfold encode_field; simpl fst; simpl snd.
  change (py "=" ++ quote_plus v) with ("="%char :: quote_plus v).
  rewrite cut_at_app by (by apply qchar_not_In).
  rewrite orb_true_r. by rewrite !unquote_plus_quote_plus.
Qed.

Lemma omap_parse_field_encode (l : list (pystr * pystr)) :
  omap (parse_field true) (List.map encode_field l) = l.
Proof.
  induction l as [|x l IH]; [done |].
  rewrite map_cons. cbn [omap list_omap]. rewrite parse_field_encode.
  f_equal. exact IH.
Qed.

Lemma parse_qsl_urlencode (q : pydict pystr) :
  parse_qsl (urlencode q) true = q.
Proof.
  unfold parse_qsl. rewrite urlencode_fields.
  destruct q as [|kv q]; [done |].
  destruct (nonempty _) eqn:E.
  2:{ apply nonempty_false in E. exfalso. revert E. apply join_nonempty.
      exists (encode_field kv). split; [by left | apply encode_field_nonempty]. }
  change (py "&") with ["&"%char]. rewrite split_join.
  - apply omap_parse_field_encode.
  - done.
  - apply Forall_forall. intros w Hw. apply list_elem_of_In in Hw.
    apply in_map_iff in Hw as (x & <- & _). apply encode_field_no_amp.
Qed.

(** ** Dictionaries *)

Lemma mem_str_elem (x : pystr) (l : list pystr) : mem_str x l = true <-> x ∈ l.
Proof. rewrite mem_str_In. symmetry. apply list_elem_of_In. Qed.

Lemma mem_str_not_elem (x : pystr) (l : list pystr) :
  mem_str x l = false <-> x ∉ l.
Proof. rewrite <- mem_str_elem. destruct (mem_str x l); naive_solver. Qed.

Section Dict.
Context {V : Type}.
Implicit Types (d : pydict V) (k : pystr) (v : V).

Lemma dict_keys_cons k v d : dict_keys ((k, v) :: d) = k :: dict_keys d.
Proof. done. Qed.

Lemma dict_keys_app d1 d2 : dict_keys (d1 ++ d2) = dict_keys d1 ++ dict_keys d2.
Proof. unfold dict_keys. apply map_app. Qed.

Lemma dict_set_notin d k v :
  k ∉ dict_keys d -> dict_set d k v = d ++ [(k, v)].
Proof.
  induction d as [|[k' v'] d IH]; simpl; [done |]. intros Hn.
  apply not_elem_of_cons in Hn as [Hne Hn].
  destruct (str_eqb k' k) eqn:E.
  - apply str_eqb_eq in E. congruence.
  - by rewrite IH.
Qed.

Lemma dict_set_keys_in d k v :
  k ∈ dict_keys d -> dict_keys (dict_set d k v) = dict_keys d.
Proof.
  induction d as [|[k' v'] d IH]; simpl; [by intros ?%elem_of_nil |]. intros Hi.
  destruct (str_eqb k' k) eqn:E; [done |]. simpl. f_equal. apply IH.
  apply str_eqb_neq in E. apply elem_of_cons in Hi as [Hi|Hi]; [congruence | exact Hi].
Qed.

Lemma dict_set_keys d k v :
  dict_keys (dict_set d k v) = dict_keys d \/
  ((k ∉ dict_keys d) /\ dict_keys (dict_set d k v) = dict_keys d ++ [k]).
Proof.
  destruct (mem_str k (dict_keys d)) eqn:E.
  - left. apply dict_set_keys_in. by apply mem_str_elem.
  - apply mem_str_not_elem in E.
    right. split; [done |]. rewrite dict_set_notin by done.
    by rewrite dict_keys_app.
Qed.

Lemma dict_set_nodup d k v :
  NoDup (dict_keys d) -> NoDup (dict_keys (dict_set d k v)).
Proof.
  intros H. destruct (dict_set_keys d k v) as [->|[Hn ->]]; [done |].
  apply NoDup_app. split; [done |]. split.
  - intros x Hx Hx'. apply list_elem_of_singleton in Hx'. by subst.
  - apply NoDup_singleton.
Qed.

Lemma dict_get_set_eq d k v : dict_get (dict_set d k v) k = Some v.
Proof.
  induction d as [|[k' v'] d IH]; simpl.
  - by rewrite str_eqb_refl.
  - destruct (str_eqb k' k) eqn:E; simpl; rewrite E; [done | exact IH].
Qed.

Lemma dict_get_set_ne d k k' v :
  k <> k' -> dict_get (dict_set d k v) k' = dict_get d k'.
Proof.
  intros Hne. induction d as [|[k0 v0] d IH]; simpl.
  - apply str_eqb_neq in Hne. by rewrite Hne.
  - destruct (str_eqb k0 k) eqn:E; simpl.
    + apply str_eqb_eq in E. subst k0. apply str_eqb_neq in Hne. by rewrite Hne.
    + by rewrite IH.
Qed.

Lemma dict_set_id d k v : dict_get d k = Some v -> dict_set d k v = d.
Proof.
  induction d as [|[k' v'] d IH]; simpl; [done |].
  destruct (str_eqb k' k) eqn:E.
  - by intros [= ->].
  - intros H. by rewrite IH.
Qed.

Lemma dict_get_None d k : dict_get d k = None <-> k ∉ dict_keys d.
Proof.
  induction d as [|[k' v'] d IH]; simpl.
  - split; [intros _; apply not_elem_of_nil | done].
  - rewrite not_elem_of_cons. destruct (str_eqb k' k) eqn:E.
    + apply str_eqb_eq in E. split; [done |]. intros [Hne _]. congruence.
    + apply str_eqb_neq in E. rewrite IH. split.
      * intros Hn. split; [congruence | done].
      * by intros [_ Hn].
Qed.

Lemma dict_get_Some_elem d k v : dict_get d k = Some v -> (k, v) ∈ d.
Proof.
  induction d as [|[k' v'] d IH]; simpl; [done |].
  destruct (str_eqb k' k) eqn:E.
  - apply str_eqb_eq in E. intros [= ->]. subst. apply elem_of_cons. by left.
  - intros H. apply elem_of_cons. right. by apply IH.
Qed.

Lemma dict_pop_app_notin (F D : pydict V) k v :
  k ∉ dict_keys F -> dict_pop (F ++ (k, v) :: D) k = F ++ D.
Proof.
  induction F as [|[k' v'] F IH]; simpl; intros Hn.
  - by rewrite str_eqb_refl.
  - apply not_elem_of_cons in Hn as [Hne Hn]. destruct (str_eqb k' k) eqn:E.
    + apply str_eqb_eq in E. congruence.
    + by rewrite IH.
Qed.

Lemma dict_of_pairs_acc (acc P : pydict V) :
  NoDup (dict_keys acc) ->
  NoDup (dict_keys (fold_left (fun d kv => dict_set d (fst kv) (snd kv)) P acc)).
Proof.
  revert acc. induction P as [|[k v] P IH]; intros acc H; simpl; [done |].
  apply IH. by apply dict_set_nodup.
Qed.

Lemma dict_of_pairs_nodup (P : list (pystr * V)) :
  NoDup (dict_keys (dict_of_pairs P)).
Proof. apply dict_of_pairs_acc. constructor. Qed.

Lemma dict_of_pairs_id_acc (acc d : pydict V) :
  NoDup (dict_keys (acc ++ d)) ->
  fold_left (fun d kv => dict_set d (fst kv) (snd kv)) d acc = acc ++ d.
Proof.
  revert acc. induction d as [|[k v] d IH]; intros acc H; simpl.
  - by rewrite app_nil_r.
  - assert (Hk : k ∉ dict_keys acc).
    { rewrite dict_keys_app, dict_keys_cons in H.
      apply NoDup_app in H as (_ & H & _). intros Hi. apply (H k Hi).
      apply elem_of_cons. by left. }
    rewrite dict_set_notin by done. rewrite IH.
    + by rewrite <- app_assoc.
    + by rewrite <- app_assoc.
Qed.

Lemma dict_of_pairs_id d :
  NoDup (dict_keys d) -> dict_of_pairs d = d.
Proof. intros H. unfold dict_of_pairs. by rewrite dict_of_pairs_id_acc. Qed.

End Dict.

(** ** The query of a normalised URL *)

Lemma pop_drop_keys_acc (F D : pydict pystr) :
  NoDup (dict_keys (F ++ D)) ->
  fold_left (fun d k => if mem_str k drop_keys then dict_pop d k else d)
    (dict_keys D) (F ++ D) = F ++ List.filter keep_key D.
Proof.
  revert F. induction D as [|[k v] D IH]; intros F H; [done |].
  rewrite dict_keys_cons. cbn [fold_left List.filter]. unfold keep_key at 1.
  cbn [fst]. destruct (mem_str k drop_keys) eqn:E; cbn [negb].
  - assert (Hk : k ∉ dict_keys F).
    { rewrite dict_keys_app, dict_keys_cons in H.
      apply NoDup_app in H as (_ & H & _). intros Hi. apply (H k Hi).
      apply elem_of_cons. by left. }
    rewrite dict_pop_app_notin by done. apply IH.
    rewrite dict_keys_app in *. rewrite dict_keys_cons in H.
    apply NoDup_app in H as (H1 & H2 & H3). apply NoDup_app.
    split; [done |]. split.
    + intros x Hx Hx'. apply (H2 x Hx). apply elem_of_cons. by right.
    + by apply NoDup_cons in H3 as [_ H3].
  - replace (F ++ (k, v) :: D) with ((F ++ [(k, v)]) ++ D)
      by (by rewrite <- app_assoc).
    rewrite IH; [by rewrite <- app_assoc |]. by rewrite <- app_assoc.
Qed.

Lemma pop_drop_keys_filter (q : pydict pystr) :
  NoDup (dict_keys q) -> pop_drop_keys q = List.filter keep_key q.
Proof. intros H. exact (pop_drop_keys_acc [] q H). Qed.

Lemma filter_keys_nodup (p : pystr * pystr -> bool) (q : pydict pystr) :
  NoDup (dict_keys q) -> NoDup (dict_keys (List.filter p q)).
Proof.
  induction q as [|[k v] q IH]; simpl; [done |]. intros H.
  apply NoDup_cons in H as [Hk H]. destruct (p (k, v)); [| by apply IH].
  rewrite dict_keys_cons. apply NoDup_cons. split; [| by apply IH].
  intros Hi. apply Hk. clear -Hi. induction q as [|[k' v'] q IH]; simpl in *.
  - done.
  - destruct (p (k', v')).
    + rewrite dict_keys_cons in Hi. apply elem_of_cons in Hi as [->|Hi].
      * apply elem_of_cons. by left.
      * apply elem_of_cons. right. by apply IH.
    + apply elem_of_cons. right. by apply IH.
Qed.

Lemma filter_pairs_id (p : pystr * pystr -> bool) (q : pydict pystr) :
  Forall (fun kv => p kv = true) q -> List.filter p q = q.
Proof.
  induction 1 as [|kv q Hkv Hq IH]; simpl; [done |]. by rewrite Hkv, IH.
Qed.

Lemma filter_pairs_all (p : pystr * pystr -> bool) (q : pydict pystr) :
  Forall (fun kv => p kv = true) (List.filter p q).
Proof.
  induction q as [|kv q IH]; simpl; [constructor |].
  destruct (p kv) eqn:E; [by constructor | done].
Qed.

Lemma normal_query_nodup (qs : pystr) : NoDup (dict_keys (normal_query qs)).
Proof.
  unfold normal_query. apply dict_set_nodup.
  rewrite pop_drop_keys_filter by apply dict_of_pairs_nodup.
  apply filter_keys_nodup, dict_of_pairs_nodup.
Qed.

Lemma normal_query_keep (qs : pystr) :
  Forall (fun kv => keep_key kv = true) (normal_query qs).
Proof.
  unfold normal_query.
  rewrite pop_drop_keys_filter by apply dict_of_pairs_nodup.
  set (d := List.filter keep_key _).
  assert (Hd : Forall (fun kv => keep_key kv = true) d) by apply filter_pairs_all.
  clearbody d. induction Hd as [|[k v] d Hkv Hd IH]; cbn [dict_set].
  - by constructor.
  - destruct (str_eqb k (py "start")) eqn:E; constructor; done.
Qed.

Lemma normal_query_start (qs : pystr) :
  dict_get (normal_query qs) (py "start") = Some (py "0").
Proof. apply dict_get_set_eq. Qed.

Lemma normal_query_fixed (qs : pystr) :
  normal_query (urlencode (normal_query qs)) = normal_query qs.
Proof.
  unfold normal_query at 1. rewrite parse_qsl_urlencode.
  rewrite dict_of_pairs_id by apply normal_query_nodup.
  rewrite pop_drop_keys_filter by apply normal_query_nodup.
  rewrite filter_pairs_id by apply normal_query_keep.
  apply dict_set_id, normal_query_start.
Qed.

(** ** Facts about single characters, by enumeration *)

Ltac by_ascii c :=
  ascii_cases c; vm_compute; first [reflexivity | congruence | intros; congruence].

Lemma unsafe_is_c0 (c : ascii) :
  c0_control_or_space c = false -> unsafe_url_byte c = false.
Proof. by_ascii c. Qed.

Lemma alpha_not_c0 (c : ascii) :
  is_alpha c = true -> c0_control_or_space c = false.
Proof. by_ascii c. Qed.

Lemma scheme_char_safe (c : ascii) :
  scheme_char c = true -> unsafe_url_byte c = false.
Proof. by_ascii c. Qed.

Lemma lower_char_alpha (c : ascii) : is_alpha (lower_char c) = is_alpha c.
Proof. by_ascii c. Qed.

Lemma lower_char_ascii (c : ascii) :
  is_alpha c = true -> is_ascii (lower_char c) = is_ascii c.
Proof. by_ascii c. Qed.

Lemma lower_char_scheme (c : ascii) :
  scheme_char (lower_char c) = scheme_char c.
Proof. by_ascii c. Qed.

Lemma lower_char_idem (c : ascii) : lower_char (lower_char c) = lower_char c.
Proof. by_ascii c. Qed.

Lemma echar_safe (c : ascii) : echar c = true -> unsafe_url_byte c = false.
Proof. by_ascii c. Qed.

Lemma lower_idem (s : pystr) : lower (lower s) = lower s.
Proof.
  unfold lower. rewrite map_map. apply map_ext. intros c. apply lower_char_idem.
Qed.

Lemma lower_scheme_chars (s : pystr) :
  forallb scheme_char (lower s) = forallb scheme_char s.
Proof.
  induction s as [|c s IH]; [done |]. simpl. by rewrite lower_char_scheme, IH.
Qed.

Lemma scheme_chars_safe (s : pystr) :
  forallb scheme_char s = true -> safe_bytes s = true.
Proof.
  unfold safe_bytes. induction s as [|c s IH]; [done |]. simpl.
  intros H. apply andb_true_iff in H as [Hc Hs].
  by rewrite (scheme_char_safe c Hc), IH.
Qed.

Lemma scheme_chars_no (c : ascii) (s : pystr) :
  scheme_char c = false -> forallb scheme_char s = true -> ~ In c s.
Proof. intros Hc Hs. by eapply forallb_not_In. Qed.

(** ** The scheme prefix *)

Lemma starts_with_app (p s : pystr) : starts_with p (p ++ s) = true.
Proof. induction p as [|c p IH]; [done |]. simpl. by rewrite Ascii.eqb_refl. Qed.

Lemma starts_with_inv (p s : pystr) :
  starts_with p s = true -> exists t, s = p ++ t.
Proof.
  revert s. induction p as [|c p IH]; intros s; simpl.
  - intros _. by exists s.
  - destruct s as [|x s]; [done |]. intros H.
    apply andb_true_iff in H as [Hc Hp]. apply eqb_char_eq in Hc. subst x.
    destruct (IH s Hp) as [t ->]. by exists t.
Qed.

Lemma take2_slashes (s : pystr) :
  str_eqb (take 2 s) (py "//") = starts_with (py "//") s.
Proof.
  apply eq_true_iff_eq. rewrite str_eqb_eq. split.
  - intros H. destruct s as [|a [|b s]]; try discriminate H.
    inversion H. reflexivity.
  - intros H. apply starts_with_inv in H as [t ->]. reflexivity.
Qed.

Lemma take1_slash (s : pystr) :
  str_eqb (take 1 s) (py "/") = starts_with (py "/") s.
Proof.
  apply eq_true_iff_eq. rewrite str_eqb_eq. split.
  - intros H. destruct s as [|a s]; try discriminate H.
    inversion H. reflexivity.
  - intros H. apply starts_with_inv in H as [t ->]. reflexivity.
Qed.

Lemma split_scheme_good (s r : pystr) :
  s <> [] -> scheme_ok s = true ->
  split_scheme (s ++ py ":" ++ r) = (s, r).
Proof.
  intros Hne Hok. destruct s as [|c0 s]; [done |].
  unfold scheme_ok in Hok.
  apply andb_true_iff in Hok as [Hok Hl]. apply andb_true_iff in Hok as [Hok Hs].
  apply str_eqb_eq in Hl. unfold split_scheme.
  change (py ":" ++ r) with (":"%char :: r).
  rewrite cut_at_app by (by apply scheme_chars_no).
  by rewrite Hok, Hs, Hl.
Qed.

Lemma split_scheme_head (c : ascii) (w : pystr) :
  is_alpha c = false -> split_scheme (c :: w) = ([], c :: w).
Proof.
  intros Hc. unfold split_scheme.
  destruct (cut_at ":" (c :: w)) as [[[|c0 pre] post]|] eqn:E; try done.
  apply cut_at_inv in E as [E _]. inversion E; subst.
  by rewrite Hc, andb_false_r.
Qed.

Lemma split_scheme_cases (w : pystr) :
  (split_scheme w = ([], w)) \/
  (exists pre post, w = pre ++ py ":" ++ post /\ pre <> [] /\
     scheme_ok (lower pre) = true /\ forallb scheme_char pre = true /\
     split_scheme w = (lower pre, post)).
Proof.
  unfold split_scheme.
  destruct (cut_at ":" w) as [[[|c0 pre] post]|] eqn:E; try by left.
  destruct (is_ascii c0 && is_alpha c0 && forallb scheme_char (c0 :: pre)) eqn:C;
    [| by left].
  right. exists (c0 :: pre), post. apply cut_at_inv in E as [E _].
  apply andb_true_iff in C as [C Hs]. apply andb_true_iff in C as [Ha Hal].
  split; [done |]. split; [done |]. split; [| done].
  unfold scheme_ok.
  replace (lower (c0 :: pre)) with (lower_char c0 :: lower pre) by done.
  rewrite lower_char_alpha, lower_char_ascii by done. rewrite Ha, Hal.
  replace (lower_char c0 :: lower pre) with (lower (c0 :: pre)) by done.
  by rewrite lower_idem, str_eqb_refl, lower_scheme_chars, Hs.
Qed.

Lemma split_scheme_nil (w : pystr) (r : pystr) :
  split_scheme w = ([], r) -> r = w /\ split_scheme w = ([], w).
Proof.
  destruct (split_scheme_cases w) as [H|(pre & post & _ & Hne & _ & _ & H)];
    rewrite H.
  - by intros [= <-].
  - intros [= Hl _]. destruct pre; [done | discriminate].
Qed.

(** Whether a scheme is found depends only on the path, not on the
    query or fragment that follows it. *)
Lemma split_scheme_stable (p r x : pystr) :
  path_follower r = true -> path_follower x = true ->
  split_scheme (p ++ r) = ([], p ++ r) ->
  split_scheme (p ++ x) = ([], p ++ x).
Proof.
  intros Hr Hx H.
  destruct (cut_at ":" p) as [[a b]|] eqn:Ep.
  - unfold split_scheme in *.
    rewrite (cut_at_app_l _ _ r _ _ Ep) in H.
    rewrite (cut_at_app_l _ _ x _ _ Ep).
    destruct a as [|c0 a]; [done |].
    destruct (is_ascii c0 && is_alpha c0 && forallb scheme_char (c0 :: a)); [| done].
    cbn [lower List.map] in H. discriminate H.
  - apply cut_at_None in Ep. unfold split_scheme.
    destruct (cut_at ":" (p ++ x)) as [[[|c0 pre] post]|] eqn:E; try done.
    apply cut_at_inv in E as [E Hn].
    assert (Hq : exists c, In c (c0 :: pre) /\ scheme_char c = false).
    { destruct x as [|c x].
      - rewrite app_nil_r in E. subst p. exfalso. apply Ep.
        apply in_or_app. right. by left.
      - exists c. split.
        + apply app_eq_app in E as [l' [[E1 E2]|[E1 E2]]].
          * destruct l' as [|y l'].
            -- simpl in E2. inversion E2; subst. simpl in Hx. done.
            -- simpl in E2. inversion E2; subst. exfalso. apply Ep.
               apply in_or_app. right. by left.
          * destruct l' as [|y l'].
            -- simpl in E2. inversion E2; subst. simpl in Hx. done.
            -- simpl in E2. inversion E2; subst. rewrite E1.
               apply in_or_app. right. by left.
        + simpl in Hx. revert Hx. clear. by_ascii c. }
    destruct Hq as (c & Hc & Hsc).
    destruct (forallb scheme_char (c0 :: pre)) eqn:F.
    + rewrite (forallb_In _ _ _ F Hc) in Hsc. done.
    + by rewrite andb_false_r.
Qed.

(** ** What [urlsplit] returns *)

Lemma safe_bytes_app (a b : pystr) :
  safe_bytes (a ++ b) = true <-> safe_bytes a = true /\ safe_bytes b = true.
Proof. unfold safe_bytes. apply forallb_app_iff. Qed.

Lemma safe_bytes_cons (c : ascii) (b : pystr) :
  safe_bytes (c :: b) = true -> safe_bytes b = true.
Proof. unfold safe_bytes. simpl. intros H. by apply andb_true_iff in H as [_ H]. Qed.

Lemma stripped_head (u : pystr) :
  match List.filter (fun c => negb (unsafe_url_byte c))
          (drop_while c0_control_or_space u) with
  | [] => True
  | c :: _ => c0_control_or_space c = false
  end.
Proof.
  pose proof (drop_while_head c0_control_or_space u) as H.
  destruct (drop_while c0_control_or_space u) as [|c t]; [done |].
  simpl. by rewrite (unsafe_is_c0 c H).
Qed.

(** The two cuts that separate fragment and query from the path *)
Lemma cuts_spec (w : pystr) :
  let '(w1, frag) :=
    match cut_at "#" w with Some (a, b) => (a, b) | None => (w, []) end in
  let '(p, qry) :=
    match cut_at "?" w1 with Some (a, b) => (a, b) | None => (w1, []) end in
  exists r, w = p ++ r /\ path_follower r = true /\ forallb no_qf p = true /\
            (safe_bytes w = true -> safe_bytes frag = true).
Proof.
  assert (Hno : forall s, ~ In "?"%char s -> ~ In "#"%char s -> forallb no_qf s = true).
  { intros s H1 H2. apply forallb_forall. intros c Hc. unfold no_qf.
    apply negb_true_iff, mem_char_false. intros [<-|[<-|[]]]; done. }
  destruct (cut_at "#" w) as [[a b]|] eqn:Ef.
  - apply cut_at_inv in Ef as [-> Hna].
    destruct (cut_at "?" a) as [[a' b']|] eqn:Eq.
    + apply cut_at_inv in Eq as [-> Hna'].
      exists ("?"%char :: b' ++ "#"%char :: b). split; [by rewrite <- app_assoc |].
      split; [done |]. split.
      * apply Hno; [done |]. intros Hi. apply Hna. apply in_or_app. by left.
      * intros H. apply safe_bytes_app in H as [_ H]. by apply safe_bytes_cons in H.
    + apply cut_at_None in Eq. exists ("#"%char :: b). split; [done |].
      split; [done |]. split; [by apply Hno |].
      intros H. apply safe_bytes_app in H as [_ H]. by apply safe_bytes_cons in H.
  - apply cut_at_None in Ef.
    destruct (cut_at "?" w) as [[a' b']|] eqn:Eq.
    + apply cut_at_inv in Eq as [-> Hna']. exists ("?"%char :: b').
      split; [done |]. split; [done |]. split; [| done].
      apply Hno; [done |]. intros Hi. apply Ef. apply in_or_app. by left.
    + apply cut_at_None in Eq. exists []. split; [by rewrite app_nil_r |].
      split; [done |]. split; [by apply Hno | done].
Qed.

Lemma path_head_after_delim (p r w : pystr) :
  w = p ++ r -> forallb no_qf p = true ->
  match w with [] => True | c :: _ => netloc_delim c = true end ->
  p = [] \/ starts_with (py "/") p = true.
Proof.
  intros -> Hp Hw. destruct p as [|c p]; [by left |]. right.
  simpl in Hw, Hp. apply andb_true_iff in Hp as [Hc _].
  revert Hw Hc. clear. by_ascii c.
Qed.

Lemma split_scheme_slash_path (p x : pystr) :
  p = [] \/ starts_with (py "/") p = true ->
  path_follower x = true ->
  split_scheme (p ++ x) = ([], p ++ x).
Proof.
  intros [->|Hp] Hx.
  - destruct x as [|c x]; [done |]. simpl. apply split_scheme_head.
    simpl in Hx. revert Hx. clear. by_ascii c.
  - apply starts_with_inv in Hp as [t ->]. by apply split_scheme_head.
Qed.

Section UrlsplitFacts.

Variable check_bracketed_netloc : pystr -> bool.
Variable checknetloc_nfkc : pystr -> bool.

Abbreviation urlsplit' := (urlsplit check_bracketed_netloc checknetloc_nfkc).
Abbreviation netloc_ok' := (netloc_ok check_bracketed_netloc checknetloc_nfkc).

Lemma netloc_ok_nil : netloc_ok' [] = true.
Proof. done. Qed.

Lemma urlsplit_wf (u : pystr) (r : SplitResult) :
  urlsplit' u = Some r -> wf_split r /\ netloc_ok' (netloc r) = true.
Proof.
  unfold urlsplit.
  pose proof (stripped_head u) as Hhead.
  pose proof (filter_all (fun c => negb (unsafe_url_byte c))
                (drop_while c0_control_or_space u)) as Hsafe.
  fold (safe_bytes (List.filter (fun c => negb (unsafe_url_byte c))
                      (drop_while c0_control_or_space u))) in Hsafe.
  set (U0 := List.filter _ _) in *. clearbody U0.
  destruct (split_scheme U0) as [s U1] eqn:Es.
  assert (Hs : scheme_ok s = true /\ safe_bytes U1 = true /\
               (s = [] -> U1 = U0 /\ split_scheme U0 = ([], U0))).
  { destruct (split_scheme_cases U0) as [H|(pre & post & E & Hne & Hok & _ & H)];
      rewrite H in Es; inversion Es; subst.
    - done.
    - apply safe_bytes_app in Hsafe as [_ Hsafe].
      apply safe_bytes_app in Hsafe as [_ Hsafe].
      split; [done |]. split; [done |]. intros Hl. destruct pre; done. }
  destruct Hs as (Hok & HsafeU1 & Hnil). clear Es.
  destruct (if starts_with (py "//") U1 then _splitnetloc U1 2 else ([], U1))
    as [n U2] eqn:En.
  assert (Hn : forallb not_delim n = true /\ safe_bytes n = true /\
               safe_bytes U2 = true /\
               (n <> [] -> match U2 with [] => True | c :: _ => netloc_delim c = true end) /\
               (n = [] -> (starts_with (py "//") U1 = false /\ U2 = U1) \/
                          match U2 with [] => True | c :: _ => netloc_delim c = true end)).
  { destruct (starts_with (py "//") U1) eqn:Epre.
    - apply starts_with_inv in Epre as [t ->]. unfold _splitnetloc in En.
      change (drop 2 (py "//" ++ t)) with t in En. inversion En; subst. clear En.
      apply safe_bytes_app in HsafeU1 as [_ Ht].
      assert (Hd : match drop_while (fun c => negb (netloc_delim c)) t with
                   | [] => True | c :: _ => netloc_delim c = true end).
      { pose proof (drop_while_head (fun c => negb (netloc_delim c)) t) as Hd.
        destruct (drop_while _ t); [done |]. by apply negb_false_iff in Hd. }
      split; [apply take_while_all |]. split; [by apply forallb_take_while |].
      split; [by apply forallb_drop_while |]. split; [done |]. intros _. by right.
    - inversion En; subst. split; [done |]. split; [done |]. split; [done |].
      split; [done |]. intros _. by left. }
  destruct Hn as (Hnd & Hsafen & HsafeU2 & Hnne & Hnnil). clear En.
  pose proof (cuts_spec U2) as Hcuts.
  destruct (match cut_at "#" U2 with Some (a, b) => (a, b) | None => (U2, []) end)
    as [U3 f].
  destruct (match cut_at "?" U3 with Some (a, b) => (a, b) | None => (U3, []) end)
    as [p q].
  destruct Hcuts as (R & HU2 & HR & Hp & Hf).
  destruct (netloc_ok' n) eqn:Hnok; [| done].
  intros [= <-]. split; [| done]. simpl.
  assert (Hsafep : safe_bytes p = true).
  { rewrite HU2 in HsafeU2. by apply safe_bytes_app in HsafeU2 as [H _]. }
  constructor; simpl; try done.
  - by apply Hf.
  - intros Hne. eapply path_head_after_delim; [exact HU2 | done | by apply Hnne].
  - intros -> ->. destruct (Hnil eq_refl) as [-> _].
    destruct (Hnnil eq_refl) as [[_ ->]|Hd].
    + subst U0. destruct p; [done | exact Hhead].
    + destruct (path_head_after_delim p R U2 HU2 Hp Hd) as [->|H]; [done |].
      apply starts_with_inv in H as [t ->]. done.
  - intros -> -> x Hx. destruct (Hnil eq_refl) as [-> Hsch].
    destruct (Hnnil eq_refl) as [[_ ->]|Hd].
    + subst U0. by apply (split_scheme_stable p R x).
    + apply split_scheme_slash_path; [| done].
      by apply (path_head_after_delim p R U2).
Qed.

End UrlsplitFacts.

(** ** Reading back what [urlunsplit] writes *)

Lemma strip_filter_id (v : pystr) :
  match v with [] => True | c :: _ => c0_control_or_space c = false end ->
  safe_bytes v = true ->
  List.filter (fun c => negb (unsafe_url_byte c))
    (drop_while c0_control_or_space v) = v.
Proof. intros Hh Hs. rewrite drop_while_id by done. by apply filter_id. Qed.

Lemma echar_no (c : ascii) (e : pystr) :
  echar c = false -> forallb echar e = true -> ~ In c e.
Proof. intros Hc He. by eapply forallb_not_In. Qed.

Lemma no_qf_no (c : ascii) (p : pystr) :
  no_qf c = false -> forallb no_qf p = true -> ~ In c p.
Proof. intros Hc Hp. by eapply forallb_not_In. Qed.

Lemma tail_fragment (pp e f : pystr) :
  forallb no_qf pp = true -> forallb echar e = true ->
  match cut_at "#" (pp ++ py "?" ++ e ++ (if nonempty f then py "#" ++ f else [])) with
  | Some (a, b) => (a, b)
  | None => (pp ++ py "?" ++ e ++ (if nonempty f then py "#" ++ f else []), [])
  end = (pp ++ py "?" ++ e, f).
Proof.
  intros Hp He.
  assert (Hn : ~ In "#"%char (pp ++ py "?" ++ e)).
  { rewrite !in_app_iff. intros [H|[H|H]].
    - by apply (no_qf_no "#" pp) in H.
    - destruct H as [H|[]]. discriminate.
    - by apply (echar_no "#" e) in H. }
  destruct f as [|c f]; cbn [nonempty].
  - rewrite !app_nil_r. apply cut_at_None in Hn. by rewrite Hn.
  - replace (pp ++ py "?" ++ e ++ py "#" ++ c :: f)
      with ((pp ++ py "?" ++ e) ++ "#"%char :: c :: f)
      by (by rewrite <- !app_assoc).
    by rewrite cut_at_app.
Qed.

Lemma tail_query (pp e : pystr) :
  forallb no_qf pp = true ->
  match cut_at "?" (pp ++ py "?" ++ e) with
  | Some (a, b) => (a, b)
  | None => (pp ++ py "?" ++ e, [])
  end = (pp, e).
Proof.
  intros Hp. change (py "?" ++ e) with ("?"%char :: e).
  rewrite cut_at_app; [done |]. by apply (no_qf_no "?" pp).
Qed.

Lemma splitnetloc_authority (n w : pystr) :
  forallb not_delim n = true ->
  match w with [] => True | c :: _ => netloc_delim c = true end ->
  _splitnetloc (py "//" ++ n ++ w) 2 = (n, w).
Proof.
  intros Hn Hw. unfold _splitnetloc.
  change (drop 2 (py "//" ++ n ++ w)) with (n ++ w).
  fold not_delim. rewrite take_while_app, drop_while_app by done.
  destruct w as [|c w]; simpl.
  - by rewrite app_nil_r.
  - unfold not_delim. rewrite Hw. simpl. by rewrite app_nil_r.
Qed.

Section ReadBack.

Variable check_bracketed_netloc : pystr -> bool.
Variable checknetloc_nfkc : pystr -> bool.

Abbreviation urlsplit' := (urlsplit check_bracketed_netloc checknetloc_nfkc).
Abbreviation netloc_ok' := (netloc_ok check_bracketed_netloc checknetloc_nfkc).

Lemma urlsplit_assemble (s : pystr) (with_netloc : bool) (n pp e f : pystr) :
  scheme_ok s = true ->
  forallb not_delim n = true -> netloc_ok' n = true ->
  forallb no_qf pp = true ->
  safe_bytes n = true -> safe_bytes pp = true -> safe_bytes f = true ->
  forallb echar e = true ->
  (if with_netloc
   then pp = [] \/ starts_with (py "/") pp = true
   else n = [] /\ starts_with (py "//") (pp ++ py "?") = false /\
        (s = [] ->
         match pp with [] => True | c :: _ => c0_control_or_space c = false end /\
         forall x, path_follower x = true ->
                   split_scheme (pp ++ x) = ([], pp ++ x))) ->
  urlsplit' (assemble s with_netloc n pp e f) = Some (mkSplit s n pp e f).
Proof.
  intros Hs Hn Hnok Hpp Hsn Hsp Hsf He Hcase.
  set (tail := pp ++ py "?" ++ e ++ (if nonempty f then py "#" ++ f else [])).
  set (body := (if with_netloc then py "//" ++ n else []) ++ tail).
  assert (Hv : assemble s with_netloc n pp e f
               = (if nonempty s then s ++ py ":" else []) ++ body) by done.
  assert (Htail_safe : safe_bytes tail = true).
  { unfold tail. apply safe_bytes_app. split; [done |].
    apply safe_bytes_app. split; [done |]. apply safe_bytes_app. split.
    - unfold safe_bytes. apply forallb_forall. intros c Hc.
      apply negb_true_iff, echar_safe. by apply (forallb_In echar e).
    - destruct (nonempty f); [| done]. by apply safe_bytes_app. }
  assert (Hbody_safe : safe_bytes body = true).
  { unfold body. apply safe_bytes_app. split; [| done].
    destruct with_netloc; [| done]. by apply safe_bytes_app. }
  assert (Htail_head : match tail with [] => True | c :: _ => netloc_delim c = true end
                       \/ with_netloc = false).
  { destruct with_netloc; [| by right]. left. unfold tail.
    destruct Hcase as [->|H]; [done |]. by apply starts_with_inv in H as [t ->]. }
  assert (Hscheme : split_scheme (assemble s with_netloc n pp e f) = (s, body)
                    /\ match assemble s with_netloc n pp e f with
                       | [] => True
                       | c :: _ => c0_control_or_space c = false
                       end).
  { rewrite Hv. destruct s as [|c0 s'] eqn:Es; cbn [nonempty].
    - rewrite app_nil_l. unfold body. destruct with_netloc.
      + split; [| done]. by apply split_scheme_head.
      + destruct Hcase as (_ & _ & H). destruct (H eq_refl) as [Hh Hns].
        rewrite app_nil_l. unfold tail. split.
        * by apply Hns.
        * destruct pp; [done | exact Hh].
    - rewrite <- app_assoc. split.
      + by apply split_scheme_good.
      + simpl. unfold scheme_ok in Hs. apply alpha_not_c0.
        apply andb_true_iff in Hs as [Hs _]. apply andb_true_iff in Hs as [Hs _].
        by apply andb_true_iff in Hs as [_ Hs]. }
  destruct Hscheme as [Hscheme Hhead].
  assert (Hv_safe : safe_bytes (assemble s with_netloc n pp e f) = true).
  { rewrite Hv. apply safe_bytes_app. split; [| done].
    destruct s as [|c0 s'] eqn:Es; [done |]. cbn [nonempty].
    apply safe_bytes_app. split; [| done]. apply scheme_chars_safe.
    unfold scheme_ok in Hs. apply andb_true_iff in Hs as [Hs _].
    by apply andb_true_iff in Hs as [_ Hs]. }
  unfold urlsplit. rewrite strip_filter_id by done. rewrite Hscheme.
  clear Hscheme Hhead Hv_safe Hv.
  assert (Hloc : (if starts_with (py "//") body then _splitnetloc body 2 else ([], body))
                 = (n, tail)).
  { unfold body. destruct with_netloc.
    - rewrite <- app_assoc. rewrite starts_with_app.
      apply splitnetloc_authority; [done |]. by destruct Htail_head.
    - destruct Hcase as (-> & Hss & _). rewrite app_nil_l.
      replace (starts_with (py "//") tail) with false; [done |].
      symmetry. unfold tail. clear -Hss.
      destruct pp as [|a [|b pp]]; [done | | done].
      simpl in *. by rewrite andb_false_r in *. }
  cbv beta iota.
  match goal with
  | |- context [if starts_with ?a ?b then ?c else ?d] =>
      replace (if starts_with a b then c else d) with (n, tail)
        by (symmetry; exact Hloc)
  end.
  cbv beta iota.
  unfold tail. rewrite tail_fragment by done. cbv beta iota.
  rewrite tail_query by done. cbv beta iota. by rewrite Hnok.
Qed.

End ReadBack.

Lemma qchar_echar (s : pystr) : forallb qchar s = true -> forallb echar s = true.
Proof.
  intros H. apply forallb_forall. intros c Hc. unfold echar.
  by rewrite (forallb_In qchar s c H Hc).
Qed.

Lemma encode_field_echar (kv : pystr * pystr) :
  forallb echar (encode_field kv) = true.
Proof.
  unfold encode_field. rewrite !forallb_app.
  rewrite (qchar_echar _ (quote_plus_chars (fst kv))).
  by rewrite (qchar_echar _ (quote_plus_chars (snd kv))).
Qed.

Lemma urlencode_echar (q : pydict pystr) : forallb echar (urlencode q) = true.
Proof.
  unfold urlencode. induction q as [|kv q IH]; [done |].
  destruct q as [|kv' q].
  - apply encode_field_echar.
  - change (join (py "&") (List.map encode_field (kv :: kv' :: q)))
      with (encode_field kv ++ py "&" ++ join (py "&") (List.map encode_field (kv' :: q))).
    rewrite !forallb_app. by rewrite encode_field_echar, IH.
Qed.

Lemma urlencode_nonempty (q : pydict pystr) : q <> [] -> urlencode q <> [].
Proof.
  intros Hq. destruct q as [|kv q]; [done |]. apply join_nonempty.
  exists (encode_field kv). split; [by left | apply encode_field_nonempty].
Qed.

Lemma normal_query_nonempty (qs : pystr) : normal_query qs <> [].
Proof.
  intros H. pose proof (normal_query_start qs) as Hs. by rewrite H in Hs.
Qed.

Lemma wf_split_query (r : SplitResult) (e : pystr) :
  wf_split r ->
  wf_split (mkSplit (scheme r) (netloc r) (path r) e (fragment r)).
Proof. intros [? ? ? ? ? ? ? ? ?]. by constructor. Qed.

Lemma slash_prefix_query (p : pystr) :
  starts_with (py "//") p = false -> starts_with (py "//") (p ++ py "?") = false.
Proof.
  destruct p as [|a [|b p]]; [done | | done].
  intros _. simpl. by rewrite andb_false_r.
Qed.

Lemma urlunsplit_assemble (r : SplitResult) :
  wf_split r -> query r <> [] ->
  urlunsplit r =
  assemble (scheme r) (writes_netloc r) (netloc (resplit r)) (path (resplit r))
    (query r) (fragment r).
Proof.
  intros Hwf Hq. pose proof (wf_np r Hwf) as Hnp.
  destruct r as [s n p e f]. cbn [netloc path query] in Hq, Hnp.
  unfold urlunsplit, assemble, resplit, writes_netloc.
  cbn [scheme netloc path query fragment].
  apply nonempty_true in Hq. cbv zeta. rewrite Hq. cbv iota.
  assert (Hfinish : forall body,
    (if nonempty f
     then ((if nonempty s then s ++ py ":" ++ body else body) ++ py "?" ++ e) ++ py "#" ++ f
     else (if nonempty s then s ++ py ":" ++ body else body) ++ py "?" ++ e)
    = (if nonempty s then s ++ py ":" else []) ++ body ++ py "?" ++ e
      ++ (if nonempty f then py "#" ++ f else [])).
  { intros body. destruct (nonempty f), (nonempty s);
      rewrite <- ?app_assoc, ?app_nil_r; done. }
  destruct (nonempty n) eqn:En.
  - cbn [orb netloc path].
    assert (Hin : rooted p = p).
    { unfold rooted. rewrite take1_slash. apply nonempty_true in En.
      destruct (Hnp En) as [->|H]; [done |]. by rewrite H, andb_false_r. }
    rewrite Hin. rewrite Hfinish. by rewrite <- !app_assoc.
  - cbn [orb]. apply nonempty_false in En. subst n.
    destruct (nonempty s && mem_str s uses_netloc
              && negb (str_eqb (take 2 p) (py "//"))) eqn:Ec;
      cbn [netloc path]; rewrite Hfinish; by rewrite <- ?app_assoc.
Qed.

Section RoundTrip.

Variable check_bracketed_netloc : pystr -> bool.
Variable checknetloc_nfkc : pystr -> bool.

Abbreviation urlsplit' := (urlsplit check_bracketed_netloc checknetloc_nfkc).
Abbreviation netloc_ok' := (netloc_ok check_bracketed_netloc checknetloc_nfkc).
Abbreviation normalize' :=
  (_normalize_search_url check_bracketed_netloc checknetloc_nfkc).

Lemma rooted_ok (p : pystr) :
  forallb no_qf p = true -> safe_bytes p = true ->
  forallb no_qf (rooted p) = true /\ safe_bytes (rooted p) = true /\
  (rooted p = [] \/ starts_with (py "/") (rooted p) = true) /\
  (starts_with (py "//") p = false -> starts_with (py "//") (rooted p) = false).
Proof.
  intros Hp Hs. unfold rooted. rewrite take1_slash.
  destruct p as [|c p]; [by auto |]. cbn [nonempty andb].
  destruct (starts_with (py "/") (c :: p)) eqn:E; cbn [negb].
  - auto.
  - split; [done |]. split; [done |]. split; [by right |]. intros _.
    simpl in E |- *. rewrite andb_true_r in E. by rewrite E.
Qed.

Lemma urlsplit_urlunsplit (r : SplitResult) :
  wf_split r -> netloc_ok' (netloc r) = true ->
  slash_slash_path r = false ->
  query r <> [] -> forallb echar (query r) = true ->
  urlsplit' (urlunsplit r) = Some (resplit r).
Proof.
  intros Hwf Hnok Hss Hq He. rewrite urlunsplit_assemble by done.
  pose proof Hwf as [H1 H2 H3 H4 H5 H6 H7 H8 H9].
  destruct r as [s n p e f]. unfold resplit, writes_netloc, slash_slash_path in *.
  cbn [scheme netloc path query fragment] in *.
  destruct (nonempty n) eqn:En; cbn [orb negb andb] in *.
  - cbn [netloc path]. apply urlsplit_assemble; try done.
    apply H7. by apply nonempty_true.
  - apply nonempty_false in En. subst n. rewrite take2_slashes, Hss. cbn [negb].
    rewrite andb_true_r.
    destruct (nonempty s && mem_str s uses_netloc) eqn:Ec; cbn [netloc path].
    + destruct (rooted_ok p H3 H5) as (Ha & Hb & Hc & _).
      apply urlsplit_assemble; done.
    + apply urlsplit_assemble; try done.
      split; [done |]. split; [by apply slash_prefix_query |].
      intros ->. split; [by apply H8 | by apply H9].
Qed.

Lemma urlunsplit_resplit (r : SplitResult) :
  wf_split r -> slash_slash_path r = false ->
  urlunsplit (resplit r) = urlunsplit r.
Proof.
  intros Hwf Hss. pose proof Hwf as [H1 H2 H3 H4 H5 H6 H7 H8 H9].
  destruct r as [s n p e f]. unfold resplit, slash_slash_path in *.
  cbn [scheme netloc path query fragment] in *.
  destruct (nonempty n) eqn:En; [done |]. cbn [negb andb] in Hss.
  apply nonempty_false in En. subst n.
  rewrite take2_slashes, Hss. cbn [negb]. rewrite andb_true_r.
  destruct (nonempty s && mem_str s uses_netloc) eqn:Ec; [| done].
  destruct (rooted_ok p H3 H5) as (_ & _ & Hc & Hd).
  unfold urlunsplit. cbn [scheme netloc path query fragment nonempty orb].
  rewrite !take2_slashes, Hss, (Hd Hss), Ec. cbn [negb andb].
  assert (Hin : rooted (rooted p) = rooted p).
  { unfold rooted at 1. rewrite take1_slash. destruct Hc as [->|Hc]; [done |].
    by rewrite Hc, andb_false_r. }
  by rewrite Hin.
Qed.

Lemma resplit_query (r : SplitResult) : query (resplit r) = query r.
Proof.
  unfold resplit. destruct (nonempty (netloc r)); [done |].
  by destruct (_ && _).
Qed.

Lemma resplit_eta (r : SplitResult) :
  mkSplit (scheme (resplit r)) (netloc (resplit r)) (path (resplit r))
    (query r) (fragment (resplit r)) = resplit r.
Proof. rewrite <- (resplit_query r). by destruct (resplit r). Qed.

Lemma normalize_unfold (u : pystr) (r : SplitResult) :
  urlsplit' u = Some r ->
  normalize' u =
  Some (urlunsplit (mkSplit (scheme r) (netloc r) (path r)
                      (urlencode (normal_query (query r))) (fragment r))).
Proof. intros H. unfold _normalize_search_url. by rewrite H. Qed.

Lemma normalize_fixed (u : pystr) (r : SplitResult) (v : pystr) :
  urlsplit' u = Some r -> slash_slash_path r = false ->
  normalize' u = Some v -> normalize' v = Some v.
Proof.
  intros Hu Hss Hv. rewrite (normalize_unfold u r Hu) in Hv.
  injection Hv as Hv.
  destruct (urlsplit_wf _ _ u r Hu) as [Hwf Hnok].
  set (e := urlencode (normal_query (query r))) in *.
  set (r1 := mkSplit (scheme r) (netloc r) (path r) e (fragment r)) in *.
  assert (Hwf1 : wf_split r1) by (by apply wf_split_query).
  assert (Hss1 : slash_slash_path r1 = false) by done.
  assert (Hsplit : urlsplit' v = Some (resplit r1)).
  { subst v. apply urlsplit_urlunsplit; try done.
    - apply urlencode_nonempty, normal_query_nonempty.
    - apply urlencode_echar. }
  rewrite (normalize_unfold v _ Hsplit). f_equal.
  rewrite resplit_query. change (query r1) with e. unfold e at 1.
  rewrite normal_query_fixed. fold e.
  change e with (query r1) at 1. rewrite resplit_eta.
  rewrite urlunsplit_resplit by done. exact Hv.
Qed.

End RoundTrip.

(** ** The fields that survive normalisation *)

Lemma dict_get_app {V} (d1 d2 : pydict V) (k : pystr) :
  dict_get (d1 ++ d2) k =
  match dict_get d1 k with Some v => Some v | None => dict_get d2 k end.
Proof.
  induction d1 as [|[k' v'] d1 IH]; simpl; [done |].
  by destruct (str_eqb k' k).
Qed.

Lemma dict_get_fold_set {V} (P acc : pydict V) (k : pystr) :
  dict_get (fold_left (fun d kv => dict_set d (fst kv) (snd kv)) P acc) k =
  match dict_get (rev P) k with Some v => Some v | None => dict_get acc k end.
Proof.
  revert acc. induction P as [|[k' v'] P IH]; intros acc; [done |].
  cbn [fold_left fst snd rev]. rewrite IH, dict_get_app.
  destruct (dict_get (rev P) k); [done |]. cbn [dict_get].
  destruct (str_eqb k' k) eqn:E.
  - apply str_eqb_eq in E. subst. apply dict_get_set_eq.
  - apply str_eqb_neq in E. by apply dict_get_set_ne.
Qed.

Lemma dict_get_of_pairs (P : list (pystr * pystr)) (k : pystr) :
  dict_get (dict_of_pairs P) k = last_value P k.
Proof.
  unfold dict_of_pairs, last_value. rewrite dict_get_fold_set.
  by destruct (dict_get (rev P) k).
Qed.

Lemma dict_get_filter_keep (d : pydict pystr) (k : pystr) :
  mem_str k drop_keys = false ->
  dict_get (List.filter keep_key d) k = dict_get d k.
Proof.
  intros Hk. induction d as [|[k' v'] d IH]; [done |]. cbn [List.filter dict_get].
  destruct (str_eqb k' k) eqn:E.
  - apply str_eqb_eq in E. subst k'. unfold keep_key at 1. cbn [fst].
    rewrite Hk. cbn [negb dict_get]. by rewrite str_eqb_refl.
  - destruct (keep_key (k', v')); [| done]. cbn [dict_get]. by rewrite E.
Qed.

Lemma normal_query_other (qs k : pystr) :
  mem_str k drop_keys = false -> k <> py "start" ->
  dict_get (normal_query qs) k = last_value (parse_qsl qs true) k.
Proof.
  intros Hk Hs. unfold normal_query.
  rewrite dict_get_set_ne by done.
  rewrite pop_drop_keys_filter by apply dict_of_pairs_nodup.
  rewrite dict_get_filter_keep by done. apply dict_get_of_pairs.
Qed.

Lemma normal_query_no_drop (qs k : pystr) :
  mem_str k drop_keys = true -> k ∉ dict_keys (normal_query qs).
Proof.
  intros Hk Hi. pose proof (normal_query_keep qs) as H.
  induction H as [|[k' v'] d Hkv Hd IH].
  - by apply elem_of_nil in Hi.
  - rewrite dict_keys_cons in Hi. apply elem_of_cons in Hi as [->|Hi]; [| by apply IH].
    unfold keep_key in Hkv. cbn [fst] in Hkv. by rewrite Hk in Hkv.
Qed.

(** ** Page signatures (C5) *)

Lemma collect_ids_take (skip : bool) (n : nat) (cards : list card)
    (ids : list pystr) :
  length ids < n ->
  collect_ids skip n cards ids =
  take n (ids ++ anchor_ids (if skip then non_promoted cards else cards)).
Proof.
  revert ids. induction cards as [|c cards IH]; intros ids Hlen.
  - simpl. destruct skip; simpl; rewrite app_nil_r; by rewrite take_ge by lia.
  - cbn [collect_ids].
    destruct (skip && _is_promoted_card c) eqn:Hs.
    + apply andb_true_iff in Hs as [-> Hp]. rewrite IH by done.
      unfold non_promoted. cbn [List.filter]. by rewrite Hp.
    + assert (Hc : anchor_ids (if skip then non_promoted (c :: cards) else c :: cards)
                   = match _get_listing_anchor_id c with
                     | Some jid => [jid] | None => [] end
                     ++ anchor_ids (if skip then non_promoted cards else cards)).
      { destruct skip; cbn [andb] in Hs.
        - unfold non_promoted. cbn [List.filter]. rewrite Hs. cbn [negb].
          unfold anchor_ids. cbn [omap list_omap].
          by destruct (_get_listing_anchor_id c).
        - unfold anchor_ids. cbn [omap list_omap].
          by destruct (_get_listing_anchor_id c). }
      rewrite Hc. destruct (_get_listing_anchor_id c) as [jid|].
      * destruct (n <=? length (ids ++ [jid])) eqn:Hn.
        -- apply Nat.leb_le in Hn. rewrite length_app in Hn. simpl in Hn.
           rewrite app_assoc. rewrite take_app_le by (rewrite length_app; simpl; lia).
           rewrite take_ge; [done |]. rewrite length_app. simpl. lia.
        -- apply Nat.leb_gt in Hn. rewrite IH by done. by rewrite <- app_assoc.
      * destruct (n <=? length ids) eqn:Hn.
        -- apply Nat.leb_le in Hn. lia.
        -- by rewrite IH.
Qed.

Lemma non_promoted_idem (cards : list card) :
  non_promoted (non_promoted cards) = non_promoted cards.
Proof.
  unfold non_promoted. induction cards as [|c cards IH]; [done |].
  cbn [List.filter]. destruct (_is_promoted_card c) eqn:E; cbn [negb]; [done |].
  cbn [List.filter]. rewrite E. cbn [negb]. by rewrite IH.
Qed.

Lemma nonempty_take {A} (n : nat) (l : list A) :
  1 <= n -> nonempty (take n l) = nonempty l.
Proof. destruct n; [lia |]. by destruct l. Qed.

Lemma page_signature_take (n : nat) (cards : list card) :
  1 <= n ->
  page_signature_of n cards =
  if nonempty (anchor_ids (non_promoted cards))
  then take n (anchor_ids (non_promoted cards))
  else take n (anchor_ids cards).
Proof.
  intros Hn. unfold page_signature_of.
  rewrite !collect_ids_take by (simpl; lia). cbn [app].
  by rewrite nonempty_take.
Qed.

(** C5 (as stated, refuted).  The fallback that brings promoted anchors
    into the signature runs only when the first loop found no id at
    all ([if not ids]), not whenever fewer than [n] were found: on a
    page with one plain and one promoted card the signature of depth 10
    is the plain id alone. *)
Lemma page_signature_partial_without_promoted :
  ~ (forall (n : nat) (cards : list card),
       length (anchor_ids (non_promoted cards)) < n ->
       length (anchor_ids cards) <= n ->
       forall j, In j (anchor_ids cards) -> In j (page_signature_of n cards)).
Proof.
  intros H.
  specialize (H 10 [plain_card 0 (py "101"); promoted_card 1 (py "102")]).
  assert (Hin : In (py "102")
                  (page_signature_of 10
                     [plain_card 0 (py "101"); promoted_card 1 (py "102")])).
  { apply H; vm_compute; [lia | lia | by right; left]. }
  vm_compute in Hin. destruct Hin as [Hin|[]]. discriminate Hin.
Qed.

(** C5 (amended).  For every page and depth [n >= 1], [_page_signature]
    returns the first [n] anchor ids of the non-promoted cards in page
    order when there is at least one; only when there is none does it
    fall back to the first [n] anchor ids of all cards, promoted
    included.  Consequently, whenever the page has a non-promoted
    anchor (in particular when it has [n] of them), its signature
    equals that of the page restricted to its non-promoted cards. *)
Theorem page_signature_promoted_excluded (n : nat) (cards : list card) :
  1 <= n ->
  (anchor_ids (non_promoted cards) <> [] ->
   page_signature_of n cards = take n (anchor_ids (non_promoted cards)) /\
   page_signature_of n cards = page_signature_of n (non_promoted cards)) /\
  (anchor_ids (non_promoted cards) = [] ->
   page_signature_of n cards = take n (anchor_ids cards)).
Proof.
  intros Hn. split.
  - intros Hne. apply nonempty_true in Hne.
    rewrite !page_signature_take by done. rewrite non_promoted_idem, Hne. done.
  - intros He. rewrite page_signature_take by done. by rewrite He.
Qed.

Lemma page_signature_promoted_excluded_witness :
  let cards := [promoted_card 0 (py "900"); plain_card 1 (py "101");
                plain_card 2 (py "102"); promoted_card 3 (py "901");
                plain_card 4 (py "103")] in
  1 <= 2 /\
  (anchor_ids (non_promoted cards) <> [] ->
   page_signature_of 2 cards = take 2 (anchor_ids (non_promoted cards)) /\
   page_signature_of 2 cards = page_signature_of 2 (non_promoted cards)) /\
  (anchor_ids (non_promoted cards) = [] ->
   page_signature_of 2 cards = take 2 (anchor_ids cards)).
Proof.
  intros cards. assert (H : 1 <= 2) by lia. split; [exact H |].
  exact (page_signature_promoted_excluded 2 cards H).
Defined.

(** ** A small program logic for the records a method appends *)

Section Sat.

Context {W : Type} (P : job -> Prop).

Implicit Types (s : scraper W).

Lemma extends_refl s : extends P s s.
Proof. exists []. split; [by rewrite app_nil_r | constructor]. Qed.

Lemma extends_trans s1 s2 s3 :
  extends P s1 s2 -> extends P s2 s3 -> extends P s1 s3.
Proof.
  intros (a & Ha & Pa) (b & Hb & Pb). exists (a ++ b). split.
  - by rewrite Hb, Ha, <- app_assoc.
  - apply Forall_app. by split.
Qed.

Lemma extends_same_jobs s s' : jobs s' = jobs s -> extends P s s'.
Proof. intros H. exists []. split; [by rewrite app_nil_r | constructor]. Qed.

Lemma sat_ret {A} (a : A) (Q : A -> Prop) : Q a -> sat (W:=W) P (ret a) Q.
Proof. intros HQ s r s' [= <- <-]. split; [apply extends_refl | done]. Qed.

Lemma sat_raise {A} (e : exn) (Q : A -> Prop) : sat (W:=W) P (raise e) Q.
Proof. intros s r s' [= <- <-]. split; [apply extends_refl | done]. Qed.

Lemma sat_out_of_fuel {A} (Q : A -> Prop) : sat P (@out_of_fuel (scraper W) A) Q.
Proof. intros s r s' [= <- <-]. split; [apply extends_refl | done]. Qed.

Lemma sat_bind {A B} (m : M (scraper W) A) (k : A -> M (scraper W) B)
    (Q : A -> Prop) (R : B -> Prop) :
  sat P m Q -> (forall a, Q a -> sat P (k a) R) -> sat P (bind m k) R.
Proof.
  intros Hm Hk s r s'. unfold bind. destruct (m s) as [r1 s1] eqn:E.
  destruct (Hm s r1 s1 E) as [Hext HQ]. destruct r1 as [a|e|].
  - intros Hka. destruct (Hk a HQ s1 r s' Hka) as [Hext' HR].
    split; [by eapply extends_trans | done].
  - by intros [= <- <-].
  - by intros [= <- <-].
Qed.

Lemma sat_try_except {A} (m : M (scraper W) A) (h : exn -> M (scraper W) A)
    (Q : A -> Prop) :
  sat P m Q -> (forall e, sat P (h e) Q) -> sat P (try_except m h) Q.
Proof.
  intros Hm Hh s r s'. unfold try_except. destruct (m s) as [r1 s1] eqn:E.
  destruct (Hm s r1 s1 E) as [Hext HQ]. destruct r1 as [a|e|].
  - by intros [= <- <-].
  - intros Hhe. destruct (Hh e s1 r s' Hhe) as [Hext' HR].
    split; [by eapply extends_trans | done].
  - by intros [= <- <-].
Qed.

Lemma sat_weaken {A} (m : M (scraper W) A) (Q R : A -> Prop) :
  sat P m Q -> (forall a, Q a -> R a) -> sat P m R.
Proof.
  intros Hm HQR s r s' E. destruct (Hm s r s' E) as [Hext HQ].
  split; [done |]. destruct r; auto.
Qed.

Lemma sat_any {A} (m : M (scraper W) A) (Q : A -> Prop) :
  sat P m Q -> sat P m (fun _ => True).
Proof. intros H. by apply (sat_weaken m Q). Qed.

Lemma sat_lift {A} (op : W -> result A * W) : sat P (lift op) (fun _ => True).
Proof.
  intros s r s'. unfold lift. destruct (op (world s)) as [r1 w].
  intros [= <- <-]. split; [by apply extends_same_jobs | by destruct r1].
Qed.

Lemma sat_lift_total {A} (op : W -> A * W) : sat P (lift_total op) (fun _ => True).
Proof.
  intros s r s'. unfold lift_total. destruct (op (world s)) as [a w].
  intros [= <- <-]. split; [by apply extends_same_jobs | done].
Qed.

Lemma sat_lift_unit (op : W -> W) : sat P (lift_unit op) (fun _ => True).
Proof.
  intros s r s' [= <- <-]. split; [by apply extends_same_jobs | done].
Qed.

Lemma sat_bump (company_name : pystr) :
  sat (W:=W) P (bump_company_count company_name) (fun _ => True).
Proof.
  intros s r s'. unfold bump_company_count.
  destruct (dict_get (company_counts s) company_name); intros [= <- <-];
    (split; [by apply extends_same_jobs | done]).
Qed.

Lemma sat_append (j : job) :
  P j -> sat (W:=W) P (append_job j) (fun _ => True).
Proof.
  intros Hj s r s' [= <- <-]. split; [| done].
  exists [j]. split; [done | by constructor].
Qed.

Lemma sat_save_results (env : Env W) (p : pystr) :
  sat P (save_results env p) (fun _ => True).
Proof.
  intros s r s' [= <- <-]. split; [by apply extends_same_jobs | done].
Qed.

End Sat.

(** A tactic that walks through a method and leaves the places where a
    record is appended or a returned value matters *)
Ltac sat_step :=
  lazymatch goal with
  | |- sat _ (ret _) _ => apply sat_ret
  | |- sat _ (raise _) _ => apply sat_raise
  | |- sat _ out_of_fuel _ => apply sat_out_of_fuel
  | |- sat _ (try_except _ _) _ => apply sat_try_except; [| intros ?]
  | |- sat _ (if ?b then _ else _) _ => destruct b eqn:?
  | |- sat _ (match ?x with _ => _ end) _ => destruct x eqn:?
  end.

Section Titles.

Context {W : Type} (env : Env W) (P : job -> Prop).

Lemma title_ok_not_placeholder (t : pystr) :
  title_ok t = true -> t <> [] /\ t <> py "N/A" /\ lower t <> py "jobs".
Proof.
  unfold title_ok. intros H.
  apply andb_true_iff in H as [H Hj]. apply andb_true_iff in H as [H H200].
  apply andb_true_iff in H as [Hne H3].
  apply nonempty_true in Hne. apply Nat.ltb_lt in H3.
  apply negb_true_iff, str_eqb_neq in Hj.
  split; [done |]. split; [| done]. intros ->. vm_compute in H3. lia.
Qed.

Lemma sat_extract_title_from (sels : list pystr) :
  sat P (extract_title_from env sels)
    (fun t => t = py "N/A" \/ title_ok t = true).
Proof.
  induction sels as [|sel sels IH]; cbn [extract_title_from].
  - apply sat_ret. by left.
  - eapply sat_bind.
    + apply sat_try_except.
      * eapply sat_bind; [apply sat_lift |]. intros t _.
        apply (sat_ret P _ (fun r => match r with
                                      | Some t => title_ok t = true
                                      | None => True end)).
        by destruct (title_ok (strip (default [] t))) eqn:E.
      * intros e. by apply sat_ret.
    + intros [t|] Ht; cbn beta iota.
      * apply sat_ret. by right.
      * exact IH.
Qed.

Lemma sat_extract_title :
  sat P (_extract_title env) (fun t => t = py "N/A" \/ title_ok t = true).
Proof. apply sat_extract_title_from. Qed.

Lemma sat_find_first_cards (sels : list pystr) :
  sat P (find_first_cards env sels) (fun _ => True).
Proof.
  induction sels as [|sel sels IH]; cbn [find_first_cards].
  - by apply sat_ret.
  - eapply sat_bind; [apply sat_lift |]. intros cards _.
    destruct (nonempty cards); [by apply sat_ret | exact IH].
Qed.

Lemma sat_find_job_cards : sat P (_find_job_cards env) (fun _ => True).
Proof. apply sat_find_first_cards. Qed.

Lemma sat_wait_details_from (sels : list pystr) :
  sat P (wait_details_from env sels) (fun _ => True).
Proof.
  induction sels as [|sel sels IH]; cbn [wait_details_from].
  - by apply sat_ret.
  - eapply sat_bind.
    + apply sat_try_except.
      * eapply sat_bind; [apply sat_lift |]. intros _ _.
        by apply (sat_ret P _ (fun _ => True)).
      * intros e. by apply sat_ret.
    + intros ok _. destruct ok; [by apply sat_ret | exact IH].
Qed.

Lemma sat_wait_details :
  sat P (_wait_for_job_details_loaded env) (fun _ => True).
Proof. apply sat_wait_details_from. Qed.

End Titles.

Ltac sat_prim :=
  unfold driver_get, current_url, find_elements, element_text, wait_present,
    execute_script, _find_list_container, _click_card,
    _extract_location_posted, _extract_description, _create_driver,
    _load_cookies, _save_cookies, input, time_time, sleep, human_delay, now_iso;
  first
    [ apply sat_lift | apply sat_lift_total | apply sat_lift_unit
    | apply sat_bump | apply sat_find_job_cards | apply sat_wait_details
    | apply sat_save_results ].

(** Bind a primitive whose result does not matter *)
Ltac sat_bind_prim := eapply sat_bind; [sat_prim | intros ? _].

Lemma job_permalink_nonempty (jid : pystr) :
  nonempty (_job_permalink jid) = true.
Proof.
  unfold _job_permalink.
  by destruct (nonempty jid && negb (str_eqb jid (py "N/A"))).
Qed.

(** ** The extraction loop of Linkedin_Large *)

Section LargeRecords.

Context {W : Type} (env : Env W).

Lemma sat_large_skip {A} (P : job -> Prop) (skip : A) (e : exn) :
  sat P (Large.skip_or_reraise (W:=W) skip e) (fun _ => True).
Proof.
  unfold Large.skip_or_reraise.
  destruct (exn_type e); try (by apply sat_ret);
    (destruct (_is_driver_dead e); [apply sat_raise | by apply sat_ret]).
Qed.

Lemma sat_large_current_url_retry (P : job -> Prop) :
  sat P (Large.current_url_retry env) (fun _ => True).
Proof.
  unfold Large.current_url_retry. apply sat_try_except; [sat_prim |].
  intros e. destruct (_is_driver_dead e); [apply sat_raise | sat_prim].
Qed.

Lemma sat_large_url_change_loop (P : job -> Prop) (fuel : nat) (end_ : Z)
    (prev : pystr) :
  sat P (Large.url_change_loop env fuel end_ prev) (fun _ => True).
Proof.
  induction fuel as [|fuel IH]; cbn [Large.url_change_loop].
  - apply sat_out_of_fuel.
  - sat_bind_prim. destruct (_ <? _)%Z.
    + eapply sat_bind; [apply sat_large_current_url_retry |]. intros u _.
      destruct (_ && _); [by apply sat_ret |].
      sat_bind_prim. exact IH.
    + sat_bind_prim. by apply sat_ret.
Qed.

Lemma sat_large_wait_url (P : job -> Prop) (fuel : nat) (prev : pystr) (t : Z) :
  sat P (Large._wait_for_url_job_change env fuel prev t) (fun _ => True).
Proof.
  unfold Large._wait_for_url_job_change. sat_bind_prim.
  apply sat_large_url_change_loop.
Qed.

Lemma sat_large_activate (P : job -> Prop) (fuel i : nat) (prev : pystr) :
  sat P (Large.activate_card env fuel i prev) (fun _ => True).
Proof.
  unfold Large.activate_card. apply sat_try_except.
  - sat_bind_prim. destruct (_ !! i); [| by apply sat_ret].
    sat_bind_prim. destruct (negb _); [by apply sat_ret |].
    eapply sat_bind; [apply sat_large_wait_url |]. intros r _. by apply sat_ret.
  - intros e. apply sat_large_skip.
Qed.

Lemma sat_large_extract_record (company_name jid : pystr) :
  sat large_record_ok (Large.extract_record env company_name jid)
    (fun _ => True).
Proof.
  unfold Large.extract_record. apply sat_try_except; [| intros e; apply sat_large_skip].
  sat_bind_prim. destruct (negb _); [by apply sat_ret |].
  sat_bind_prim.
  eapply sat_bind; [apply sat_extract_title |]. intros t Ht. cbn beta.
  destruct (str_eqb t (py "N/A")) eqn:Et; [by apply sat_ret |].
  apply str_eqb_neq in Et. destruct Ht as [Ht|Ht]; [done |].
  sat_bind_prim. sat_bind_prim. sat_bind_prim. sat_bind_prim.
  eapply sat_bind; [| intros _ _; by apply sat_ret].
  apply sat_append. split; [exact Ht |]. cbn [url job_id].
  by rewrite job_permalink_nonempty.
Qed.

Lemma sat_large_extract_loop (fuel : nat) (company_name : pystr)
    (todo i : nat) (prev : pystr) (count : nat) :
  sat large_record_ok
    (Large.extract_loop env fuel company_name todo i prev count) (fun _ => True).
Proof.
  revert i prev count. induction todo as [|todo IH]; intros i prev count;
    cbn [Large.extract_loop].
  - by apply sat_ret.
  - eapply sat_bind; [apply sat_large_activate |]. intros a _.
    destruct a as [| |job_url jid]; [by apply sat_ret | apply IH |].
    eapply sat_bind; [apply sat_large_extract_record |]. intros added _. apply IH.
Qed.

Lemma sat_large_extract_jobs (fuel : nat) (company_name : pystr) :
  sat large_record_ok (Large._extract_jobs_on_page env fuel company_name)
    (fun _ => True).
Proof.
  unfold Large._extract_jobs_on_page. sat_bind_prim.
  destruct (negb _); [by apply sat_ret |].
  sat_bind_prim. apply sat_large_extract_loop.
Qed.

End LargeRecords.

(** ** The extraction loop of Linkedin_Small *)

Section SmallRecords.

Context {W : Type} (env : Env W).

Lemma sat_small_skip {A} (P : job -> Prop) (skip : A) (e : exn) :
  sat P (Small.skip_or_reraise (W:=W) skip e) (fun _ => True).
Proof.
  unfold Small.skip_or_reraise.
  destruct (exn_type e); try (by apply sat_ret); apply sat_raise.
Qed.

Lemma sat_small_url_change_loop (P : job -> Prop) (fuel : nat) (end_ : Z)
    (prev : pystr) :
  sat P (Small.url_change_loop env fuel end_ prev) (fun _ => True).
Proof.
  induction fuel as [|fuel IH]; cbn [Small.url_change_loop].
  - apply sat_out_of_fuel.
  - sat_bind_prim. destruct (_ <? _)%Z.
    + sat_bind_prim.
      destruct (_ && _); [by apply sat_ret |].
      sat_bind_prim. exact IH.
    + sat_bind_prim. by apply sat_ret.
Qed.

Lemma sat_small_activate (P : job -> Prop) (fuel i : nat) (prev : pystr) :
  sat P (Small.activate_card env fuel i prev) (fun _ => True).
Proof.
  unfold Small.activate_card. apply sat_try_except.
  - sat_bind_prim. destruct (_ !! i); [| by apply sat_ret].
    sat_bind_prim. destruct (negb _); [by apply sat_ret |].
    eapply sat_bind; [| intros r _; by apply sat_ret].
    unfold Small._wait_for_url_job_change. sat_bind_prim.
    apply sat_small_url_change_loop.
  - intros e. apply sat_small_skip.
Qed.

Lemma sat_small_extract_record (company_name job_url jid : pystr) :
  sat small_record_ok (Small.extract_record env company_name job_url jid)
    (fun _ => True).
Proof.
  unfold Small.extract_record. apply sat_try_except; [| intros e; apply sat_small_skip].
  sat_bind_prim. destruct (negb _); [by apply sat_ret |].
  sat_bind_prim.
  eapply sat_bind; [apply sat_extract_title |]. intros t Ht. cbn beta.
  destruct (str_eqb t (py "N/A")) eqn:Et; [by apply sat_ret |].
  apply str_eqb_neq in Et. destruct Ht as [Ht|Ht]; [done |].
  sat_bind_prim. sat_bind_prim. sat_bind_prim. sat_bind_prim.
  eapply sat_bind; [| intros _ _; by apply sat_ret].
  apply sat_append. split; [exact Ht |]. cbn [url job_id].
  intros ->. by rewrite str_eqb_refl.
Qed.

Lemma sat_small_extract_loop (fuel : nat) (company_name : pystr)
    (todo i : nat) (prev : pystr) (count : nat) :
  sat small_record_ok
    (Small.extract_loop env fuel company_name todo i prev count) (fun _ => True).
Proof.
  revert i prev count. induction todo as [|todo IH]; intros i prev count;
    cbn [Small.extract_loop].
  - by apply sat_ret.
  - eapply sat_bind; [apply sat_small_activate |]. intros a _.
    destruct a as [| |job_url jid]; [by apply sat_ret | apply IH |].
    eapply sat_bind; [apply sat_small_extract_record |]. intros added _. apply IH.
Qed.

Lemma sat_small_extract_jobs (fuel : nat) (company_name : pystr) :
  sat small_record_ok (Small._extract_jobs_on_page env fuel company_name)
    (fun _ => True).
Proof.
  unfold Small._extract_jobs_on_page. sat_bind_prim.
  destruct (negb _); [by apply sat_ret |].
  sat_bind_prim. apply sat_small_extract_loop.
Qed.

End SmallRecords.

(** ** Checkpoint writes (C1) *)

Lemma fs_run_app (a b : list fs_op) (fs : filesystem) :
  fs_run (a ++ b) fs = fs_run b (fs_run a fs).
Proof. unfold fs_run. apply fold_left_app. Qed.

Lemma fs_step_spares (path : pystr) (op : fs_op) (fs : filesystem) :
  spares path op -> fs_read (fs_step fs op) path = fs_read fs path.
Proof.
  unfold fs_read. destruct op as [p|p chunk|src dst]; simpl; intros H.
  - by apply dict_get_set_ne.
  - destruct (dict_get fs p); by apply dict_get_set_ne.
  - done.
Qed.

Lemma fs_run_spares (path : pystr) (ops : list fs_op) (fs : filesystem) :
  Forall (spares path) ops -> fs_read (fs_run ops fs) path = fs_read fs path.
Proof.
  revert fs. induction ops as [|op ops IH]; intros fs H; [done |].
  apply Forall_cons in H as [Hop Hops]. cbn [fs_run fold_left].
  fold (fs_run ops (fs_step fs op)). by rewrite IH, fs_step_spares.
Qed.

Lemma fs_run_writes (p : pystr) (chunks : list pystr) (fs : filesystem)
    (old : pystr) :
  fs_read fs p = Some old ->
  fs_read (fs_run (List.map (FsWrite p) chunks) fs) p = Some (old ++ concat chunks).
Proof.
  revert fs old. induction chunks as [|c chunks IH]; intros fs old H.
  - simpl. by rewrite app_nil_r.
  - cbn [List.map fs_run fold_left]. fold (fs_run (List.map (FsWrite p) chunks)).
    rewrite (IH _ (old ++ c)).
    + simpl. by rewrite <- app_assoc.
    + unfold fs_read in *. simpl. rewrite H. apply dict_get_set_eq.
Qed.

Lemma tmp_differs (path : pystr) : path ++ py ".tmp" <> path.
Proof.
  intros H. apply (f_equal (@length ascii)) in H.
  rewrite length_app in H. change (length (py ".tmp")) with 4 in H. lia.
Qed.

(** [atomic_write_json] of [Indeed.py] writes a temporary file and
    renames it over the target: whenever a reader looks, the target
    holds what it held before or the complete new text. *)
Lemma atomic_write_json_old_or_new
    (path : pystr) (chunks : list pystr) (fs : filesystem) (k : nat) :
  let seen := fs_read (fs_run (take k (atomic_write_json_ops path chunks)) fs) path in
  seen = fs_read fs path \/ seen = Some (concat chunks).
Proof.
  cbv zeta.
  set (tmp := path ++ py ".tmp").
  set (pre := FsOpenW tmp :: List.map (FsWrite tmp) chunks).
  assert (E : atomic_write_json_ops path chunks = pre ++ [FsReplace tmp path])
    by reflexivity.
  rewrite E. clear E.
  assert (Hpre : Forall (spares path) pre).
  { unfold pre. constructor; [apply tmp_differs |].
    apply Forall_forall. intros op Hop. apply list_elem_of_In in Hop.
    apply in_map_iff in Hop as (c & <- & _). apply tmp_differs. }
  destruct (decide (k <= length pre)) as [Hk|Hk].
  - left. rewrite take_app_le by done. apply fs_run_spares.
    by apply Forall_take.
  - right.
    rewrite take_ge
      by (rewrite length_app; change (length [FsReplace tmp path]) with 1; lia).
    rewrite fs_run_app. cbn [fs_run fold_left fs_step].
    assert (Htmp : fs_read (fs_run pre fs) tmp = Some (concat chunks)).
    { unfold pre. cbn [fs_run fold_left]. fold (fs_run (List.map (FsWrite tmp) chunks)).
      rewrite (fs_run_writes tmp chunks _ []); [done |].
      unfold fs_read. simpl. apply dict_get_set_eq. }
    unfold fs_read in Htmp. fold (fs_run pre fs). rewrite Htmp.
    unfold fs_read. apply dict_get_set_eq.
Qed.

(** C1 (defect).  [save_results] of the two LinkedIn scrapers opens the
    output file itself for writing, which truncates it: a reader that
    comes after the first operation finds the file empty, whatever it
    held and whatever is about to be written. *)
Theorem save_results_truncates_first
    (json_path : pystr) (chunks : list pystr) (fs : filesystem) :
  fs_read (fs_run (take 1 (save_results_ops json_path chunks)) fs) json_path
  = Some [].
Proof. unfold fs_read. simpl. apply dict_get_set_eq. Qed.

(** The same at a concrete interruption: one record on disk, two to be
    written, and a reader between [open] and the first [write]. *)
Lemma save_results_interrupted :
  let old := py "[Financial Analyst]" in
  let chunks := [py "["; py "Financial Analyst"; py "Risk Manager"; py "]"] in
  let fs := [(json_path_large, old)] in
  let seen := fs_read (fs_run (take 1 (save_results_ops json_path_large chunks)) fs)
                json_path_large in
  seen = Some [] /\ seen <> Some old /\ seen <> Some (concat chunks).
Proof. vm_compute. repeat split; discriminate. Qed.

(** ** The page loop: end of results, failures, offsets (C3, C4, C6) *)

Lemma signature_repeated_iff (cur : list pystr) (prev : option (list pystr)) :
  signature_repeated cur prev = true <-> cur <> [] /\ prev = Some cur.
Proof.
  unfold signature_repeated.
  rewrite andb_true_iff, nonempty_true, bool_decide_eq_true. done.
Qed.

Lemma signature_fresh (cur : list pystr) (prev : option (list pystr)) :
  prev <> Some cur -> signature_repeated cur prev = false.
Proof.
  intros H. apply not_true_is_false. rewrite signature_repeated_iff. tauto.
Qed.

Section Polls.

Context {W : Type} (env : Env W).

(** A poll of [_wait_for_results_or_end] that finds cards answers at
    once, without a look at the no-results selectors *)
Lemma wait_results_cards_first (fuel : nat) (end_ now : Z)
    (s s1 s2 : scraper W) (cards : list card) :
  time_time env s = (Ok now, s1) -> (now < end_)%Z ->
  _find_job_cards env s1 = (Ok cards, s2) -> cards <> [] ->
  wait_results_loop env (S fuel) end_ s = (Ok true, s2).
Proof.
  intros Ht Hlt Hc Hne. cbn [wait_results_loop]. unfold bind at 1.
  rewrite Ht. apply Z.ltb_lt in Hlt. rewrite Hlt.
  unfold bind at 1. rewrite Hc.
  apply nonempty_true in Hne. by rewrite Hne.
Qed.

(** A poll that finds no card and then the marker ends the wait *)
Lemma wait_results_marker (fuel : nat) (end_ now : Z)
    (s s1 s2 s3 : scraper W) :
  time_time env s = (Ok now, s1) -> (now < end_)%Z ->
  _find_job_cards env s1 = (Ok [], s2) ->
  no_results_marker env no_res_selectors s2 = (Ok true, s3) ->
  wait_results_loop env (S fuel) end_ s = (Ok false, s3).
Proof.
  intros Ht Hlt Hc Hm. cbn [wait_results_loop]. unfold bind at 1.
  rewrite Ht. apply Z.ltb_lt in Hlt. rewrite Hlt.
  unfold bind at 1. rewrite Hc. cbn [nonempty].
  unfold bind at 1. by rewrite Hm.
Qed.

(** What the handler of the two [try] blocks of [scrape_single_url]
    does with a failure that is not a dead driver *)
Lemma recover_or_reraise_alive {A} (again : A) (e : exn) (s : scraper W) :
  _is_driver_dead e = false ->
  Large.recover_or_reraise env again e s = (Raise e, s).
Proof. intros H. unfold Large.recover_or_reraise. by rewrite H. Qed.

(** ... and with a dead driver whose recovery fails *)
Lemma recover_or_reraise_exhausted {A} (again : A) (e : exn) (u : pystr)
    (s s1 s2 : scraper W) :
  _is_driver_dead e = true ->
  current_url env s = (Ok u, s1) ->
  Large.recover_driver env u s1 = (Ok false, s2) ->
  Large.recover_or_reraise env again e s = (Ok Break, s2).
Proof.
  intros H Hu Hr. unfold Large.recover_or_reraise. rewrite H.
  unfold bind at 1. rewrite Hu. unfold bind at 1. by rewrite Hr.
Qed.

(** [scrape_single_company] lets nothing but an
    [InvalidSessionIdException] through *)
Lemma small_company_raises_only_invalid_session (fuel : nat)
    (company_name u : pystr) (max_pages : option nat) (s : scraper W) (e : exn) :
  fst (Small.scrape_single_company env fuel company_name u max_pages s) = Raise e ->
  exn_type e = InvalidSessionIdException.
Proof.
  unfold Small.scrape_single_company, try_except.
  match goal with |- context [match ?m s with _ => _ end] => destruct (m s) as [[a|e0|] s'] end;
    simpl; try discriminate.
  destruct (exn_type e0) eqn:E; simpl; try discriminate.
  intros [= <-]. exact E.
Qed.

(** A dead driver in the middle of an extraction, recovered: the body
    ends as it does after a page that was extracted and saved, with the
    signature of the page as [prev_sig], and nothing is saved *)
Lemma scrape_page_recovered_extraction (fuel : nat)
    (company_name base_url : pystr) (max_pages : option nat) (page_count : nat)
    (prev_sig : option (list pystr)) (cards : list card) (sig : list pystr)
    (e : exn) (u : pystr) (s s_go s1 s2 s3 s4 s5 s6 : scraper W) :
  page_limit_reached max_pages page_count = false ->
  (if 1 <? page_count
   then Large.open_next_page env fuel base_url ((page_count - 1) * PAGE_SIZE)
   else ret true) s = (Ok true, s_go) ->
  _ensure_cards_loaded env PAGE_SIZE 12 s_go = (Ok true, s1) ->
  _find_job_cards env s1 = (Ok cards, s2) -> cards <> [] ->
  _page_signature env 10 s2 = (Ok sig, s3) ->
  signature_repeated sig prev_sig = false ->
  Large._extract_jobs_on_page env fuel company_name s3 = (Raise e, s4) ->
  _is_driver_dead e = true ->
  current_url env s4 = (Ok u, s5) ->
  Large.recover_driver env u s5 = (Ok true, s6) ->
  Large.scrape_page env fuel company_name base_url max_pages page_count
    prev_sig s = (Ok (Large.PageContinue (Some sig)), s6).
Proof.
  intros Hlimit Hgo Hload Hcards Hne Hsig Hfresh Hextract Hdead Hu Hr.
  unfold Large.scrape_page. rewrite Hlimit.
  unfold bind at 1. rewrite Hgo. cbn [negb].
  unfold bind at 1. unfold try_except at 1, bind at 1. rewrite Hload.
  unfold ret at 1. cbv beta iota.
  unfold bind at 1. rewrite Hcards.
  apply nonempty_true in Hne. rewrite Hne. cbn [negb].
  unfold bind at 1. rewrite Hsig. rewrite Hfresh.
  unfold bind at 1. unfold try_except at 1, bind at 1. rewrite Hextract.
  unfold Large.recover_or_reraise. rewrite Hdead.
  unfold bind at 1. rewrite Hu. unfold bind at 1. rewrite Hr. done.
Qed.

(** The loop goes to the next page count after any body that did not
    break *)
Lemma pages_loop_continue (rounds fuel : nat) (company_name base_url : pystr)
    (max_pages : option nat) (page_count : nat)
    (prev_sig prev_sig' : option (list pystr)) (s s' : scraper W) :
  Large.scrape_page env fuel company_name base_url max_pages (S page_count)
    prev_sig s = (Ok (Large.PageContinue prev_sig'), s') ->
  Large.pages_loop env (S rounds) fuel company_name base_url max_pages
    page_count prev_sig s
  = Large.pages_loop env rounds fuel company_name base_url max_pages
      (S page_count) prev_sig' s'.
Proof.
  intros H. cbn [Large.pages_loop]. unfold bind at 1. by rewrite H.
Qed.

End Polls.

(** ** Deduplication in the Indeed pipeline (C10) *)

Module IndeedFacts.
Import Indeed.

Lemma get_normalize_dict (d : pydict pyval) (k : pystr) :
  get (normalize_dict d) k = norm (get d k).
Proof.
  unfold get. induction d as [|[k' v] d IH]; simpl; [done |].
  destruct (str_eqb k' k); [done | exact IH].
Qed.

Lemma norm_not_nan (v : pyval) : norm v <> VNaN.
Proof.
  destruct v; unfold norm; simpl; try discriminate.
  destruct (nonempty (strip s)); discriminate.
Qed.

Lemma pyval_eqb_eq (a b : pyval) : a <> VNaN -> pyval_eqb a b = true <-> a = b.
Proof.
  intros Ha. destruct a, b; simpl; try (split; [discriminate | congruence]);
    try done.
  - rewrite str_eqb_eq. split; congruence.
  - rewrite Bool.eqb_true_iff. split; congruence.
  - rewrite Z.eqb_eq. split; congruence.
  - rewrite str_eqb_eq. split; congruence.
Qed.

Lemma existsb_pyval_eqb (key : pyval) (l : list pyval) :
  key <> VNaN -> existsb (pyval_eqb key) l = true <-> key ∈ l.
Proof.
  intros Hk. rewrite existsb_exists, list_elem_of_In. split.
  - intros (x & Hx & E). apply pyval_eqb_eq in E; [by subst | done].
  - intros H. exists key. split; [done | by apply pyval_eqb_eq].
Qed.

Section Group.

Variable sha1_hexdigest : pystr -> pystr.
Variable infer_work_arrangement : pyval -> pyval -> pyval -> pyval.
Variable infer_employment_types : pyval -> pyval -> pyval -> pyval.
Variable parse_salary_from_text : pyval -> pyval -> pyval * pyval * pyval * pyval.
Variable split_location : pyval -> pyval * pyval * pyval.
Variable posted_days_ago : pyval -> pyval -> pyval.
Variable key_lt : pyval * pyval * pyval -> pyval * pyval * pyval -> bool.
Variable enforce_exact_company_match : bool.
Variable company_group : pystr.
Variable search_terms : list pystr.
Variable utc_now_iso : nat -> pystr.

Local Abbreviation enrich :=
  (enrich_common_fields sha1_hexdigest infer_work_arrangement
     infer_employment_types parse_salary_from_text split_location
     posted_days_ago).
Local Abbreviation ingest_row' :=
  (ingest_row sha1_hexdigest infer_work_arrangement infer_employment_types
     parse_salary_from_text split_location posted_days_ago
     enforce_exact_company_match company_group search_terms utc_now_iso).
Local Abbreviation ingest_df' :=
  (ingest_df sha1_hexdigest infer_work_arrangement infer_employment_types
     parse_salary_from_text split_location posted_days_ago
     enforce_exact_company_match company_group search_terms utc_now_iso).
Local Abbreviation handle_response' :=
  (handle_response sha1_hexdigest infer_work_arrangement infer_employment_types
     parse_salary_from_text split_location posted_days_ago
     enforce_exact_company_match company_group search_terms utc_now_iso).
Local Abbreviation insert_desc' := (insert_desc key_lt).

(** The key that [enrich_common_fields] leaves in the job is the
    hexadecimal digest after [norm], never a NaN *)
Lemma enrich_dedupe_key (now : pystr) (job : pydict pyval) :
  exists h, dedupe_key (enrich now job) = norm (VStr h).
Proof.
  unfold dedupe_key, enrich_common_fields.
  destruct (split_location _) as [[city region] hint].
  eexists. rewrite get_normalize_dict. unfold get at 1.
  by rewrite dict_get_set_eq.
Qed.

Lemma enrich_key_not_nan (now : pystr) (job : pydict pyval) :
  get (enrich now job) (py "dedupe_key") <> VNaN.
Proof.
  destruct (enrich_dedupe_key now job) as [h E]. unfold dedupe_key in E.
  rewrite E. apply norm_not_nan.
Qed.

Lemma group_inv_group0 : group_inv group0.
Proof. split; simpl; try done. constructor. Qed.

Lemma group_inv_ingest_row (term country loc : pystr) (g : group_state)
    (raw : pydict pyval) :
  group_inv g -> group_inv (ingest_row' term country loc g raw).
Proof.
  intros [Hseen Hnd Hadd Hrows]. unfold ingest_row.
  destruct (is_missing _ && is_missing _ && is_missing _).
  { split; simpl; try done. lia. }
  destruct (enforce_exact_company_match && _).
  { split; simpl; try done. lia. }
  cbv zeta.
  set (enriched := enrich _ _).
  destruct (existsb _ _) eqn:E.
  { split; simpl; try done. lia. }
  assert (Hkey : get enriched (py "dedupe_key") ∉ seen g).
  { intros Hin.
    apply (existsb_pyval_eqb _ _ (enrich_key_not_nan _ _)) in Hin.
    unfold enriched in E. simpl in E, Hin. rewrite Hin in E. discriminate. }
  split; simpl.
  - rewrite map_app, rev_app_distr. simpl. by rewrite Hseen.
  - rewrite map_app. simpl. apply NoDup_app. split; [done |].
    split; [| apply NoDup_singleton].
    intros x Hx Hx'. apply list_elem_of_singleton in Hx'. subst x.
    apply Hkey. rewrite Hseen. apply list_elem_of_In, in_rev.
    rewrite rev_involutive. by apply list_elem_of_In.
  - rewrite length_app. simpl. lia.
  - lia.
Qed.

Lemma group_inv_ingest_df (df : option (list (pydict pyval)))
    (term country loc : pystr) (g : group_state) :
  group_inv g -> group_inv (ingest_df' df term country loc g).
Proof.
  destruct df as [rows|]; [| done]. simpl. revert g.
  induction rows as [|row rows IH]; intros g Hg; [done |].
  simpl. apply IH. by apply group_inv_ingest_row.
Qed.

Lemma group_inv_handle_response (g : group_state) (r : response) :
  group_inv g -> group_inv (handle_response' g r).
Proof.
  intros [Hseen Hnd Hadd Hrows]. unfold handle_response.
  apply group_inv_ingest_df. split; simpl; done.
Qed.

Lemma group_inv_fold (answers : list response) (g : group_state) :
  group_inv g -> group_inv (fold_left handle_response' answers g).
Proof.
  revert g. induction answers as [|r answers IH]; intros g Hg; [done |].
  simpl. apply IH. by apply group_inv_handle_response.
Qed.

(** A row with an anchor and an allowed company whose key is in [seen]
    is counted as a duplicate and leaves the jobs alone *)
Lemma ingest_row_seen_key (term country loc : pystr) (g : group_state)
    (raw : pydict pyval) :
  let kept := with_provenance company_group (keep_common_fields raw) term country loc in
  let key := get (enrich (utc_now_iso (S (rows_seen (stats g)))) kept)
               (py "dedupe_key") in
  let g' := ingest_row' term country loc g raw in
  is_missing (get raw (py "job_url"))
  && is_missing (get raw (py "job_url_direct"))
  && is_missing (get raw (py "id")) = false ->
  enforce_exact_company_match
  && negb (company_exact_allowed (get raw (py "company"))
             (make_allowed_company_set search_terms)) = false ->
  key ∈ seen g ->
  jobs g' = jobs g /\ seen g' = seen g
  /\ added (stats g') = added (stats g)
  /\ deduped (stats g') = S (deduped (stats g)).
Proof.
  cbv zeta. intros Hanchor Hcompany Hin. unfold ingest_row.
  rewrite Hanchor, Hcompany. cbv zeta. simpl.
  apply (existsb_pyval_eqb _ _ (enrich_key_not_nan _ _)) in Hin.
  by rewrite Hin.
Qed.

Lemma insert_desc_perm (j : pydict pyval) (l : list (pydict pyval)) :
  Permutation (insert_desc' j l) (j :: l).
Proof.
  induction l as [|x l IH]; simpl; [done |].
  destruct (key_lt _ _); [done |].
  rewrite IH. apply perm_swap.
Qed.

Lemma sort_jobs_perm_acc (l acc : list (pydict pyval)) :
  Permutation (fold_left (fun acc j => insert_desc' j acc) l acc) (acc ++ l).
Proof.
  revert acc. induction l as [|j l IH]; intros acc; simpl.
  - by rewrite app_nil_r.
  - rewrite IH, insert_desc_perm.
    simpl. apply Permutation_middle.
Qed.

Lemma sort_jobs_perm (l : list (pydict pyval)) :
  Permutation (sort_jobs_newest_first key_lt l) l.
Proof. apply (sort_jobs_perm_acc l []). Qed.

End Group.
End IndeedFacts.

(** ** URL normalisation (C8, C9) *)

(** C8 (as stated, refuted).  The claim that every filter parameter
    outside the deny-list is preserved with its value fails on a URL
    that repeats a key: [dict(parse_qsl(...))] keeps one value per key,
    so of [f_E=1&f_E=2] only [f_E=2] reaches the normalised URL. *)
Lemma normalize_collapses_repeated_field :
  ~ (forall (u v : pystr) (r r' : SplitResult) (k x : pystr),
       urlsplit accept_all accept_all u = Some r ->
       _normalize_search_url accept_all accept_all u = Some v ->
       urlsplit accept_all accept_all v = Some r' ->
       In (k, x) (parse_qsl (query r) true) ->
       mem_str k drop_keys = false -> k <> py "start" ->
       In (k, x) (parse_qsl (query r') true)).
Proof.
  intros H.
  specialize (H (py "https://www.linkedin.com/jobs/search/?f_E=1&f_E=2")
                (py "https://www.linkedin.com/jobs/search/?f_E=2&start=0")
                (mkSplit (py "https") (py "www.linkedin.com") (py "/jobs/search/")
                   (py "f_E=1&f_E=2") [])
                (mkSplit (py "https") (py "www.linkedin.com") (py "/jobs/search/")
                   (py "f_E=2&start=0") [])
                (py "f_E") (py "1")).
  assert (Hin : In (py "f_E", py "1")
                  (parse_qsl (py "f_E=2&start=0") true)).
  { apply H; try (vm_compute; reflexivity).
    - vm_compute. by left.
    - vm_compute. discriminate. }
  vm_compute in Hin. destruct Hin as [Hin|[Hin|[]]]; discriminate Hin.
Qed.

(** C8 (amended).  For every URL that [urlsplit] accepts and that names
    a host, the normalised URL splits into the same scheme (as
    [urlsplit] reports it), host, path and fragment; its query has no
    deny-listed key, has [start=0], has every key once, and gives every
    other key the last value the input gave it. *)
Theorem normalize_search_url_fields
    (chk1 chk2 : pystr -> bool) (u v : pystr) (r : SplitResult) :
  urlsplit chk1 chk2 u = Some r ->
  netloc r <> [] ->
  _normalize_search_url chk1 chk2 u = Some v ->
  exists r',
    urlsplit chk1 chk2 v = Some r' /\
    scheme r' = scheme r /\ netloc r' = netloc r /\
    path r' = path r /\ fragment r' = fragment r /\
    NoDup (dict_keys (parse_qsl (query r') true)) /\
    (forall k, mem_str k drop_keys = true ->
               k ∉ dict_keys (parse_qsl (query r') true)) /\
    dict_get (parse_qsl (query r') true) (py "start") = Some (py "0") /\
    (forall k, mem_str k drop_keys = false -> k <> py "start" ->
               dict_get (parse_qsl (query r') true) k
               = last_value (parse_qsl (query r) true) k).
Proof.
  intros Hu Hn Hv. rewrite (normalize_unfold _ _ u r Hu) in Hv. injection Hv as Hv.
  destruct (urlsplit_wf _ _ u r Hu) as [Hwf Hnok].
  set (r1 := mkSplit (scheme r) (netloc r) (path r)
               (urlencode (normal_query (query r))) (fragment r)) in *.
  assert (Hres : resplit r1 = r1).
  { unfold resplit. cbn [netloc r1]. apply nonempty_true in Hn. by rewrite Hn. }
  assert (Hsplit : urlsplit chk1 chk2 v = Some r1).
  { subst v. rewrite <- Hres at 2. apply urlsplit_urlunsplit.
    - by apply wf_split_query.
    - done.
    - unfold slash_slash_path. cbn [netloc r1]. apply nonempty_true in Hn.
      by rewrite Hn.
    - apply urlencode_nonempty, normal_query_nonempty.
    - apply urlencode_echar. }
  exists r1. split; [done |]. do 4 (split; [done |]).
  cbn [query r1]. rewrite parse_qsl_urlencode.
  split; [apply normal_query_nodup |].
  split; [intros k Hk; by apply normal_query_no_drop |].
  split; [apply normal_query_start |].
  intros k Hk Hs. by apply normal_query_other.
Qed.

Lemma normalize_search_url_fields_witness :
  let u := py "https://www.linkedin.com/jobs/search/?currentJobId=4359370027&f_C=2775&f_E=2&origin=JOB_SEARCH_PAGE_JOB_FILTER&sortBy=R#top" in
  let r := mkSplit (py "https") (py "www.linkedin.com") (py "/jobs/search/")
             (py "currentJobId=4359370027&f_C=2775&f_E=2&origin=JOB_SEARCH_PAGE_JOB_FILTER&sortBy=R")
             (py "top") in
  let v := py "https://www.linkedin.com/jobs/search/?f_C=2775&f_E=2&sortBy=R&start=0#top" in
  urlsplit accept_all accept_all u = Some r /\
  netloc r <> [] /\
  _normalize_search_url accept_all accept_all u = Some v /\
  exists r',
    urlsplit accept_all accept_all v = Some r' /\
    scheme r' = scheme r /\ netloc r' = netloc r /\
    path r' = path r /\ fragment r' = fragment r /\
    NoDup (dict_keys (parse_qsl (query r') true)) /\
    (forall k, mem_str k drop_keys = true ->
               k ∉ dict_keys (parse_qsl (query r') true)) /\
    dict_get (parse_qsl (query r') true) (py "start") = Some (py "0") /\
    (forall k, mem_str k drop_keys = false -> k <> py "start" ->
               dict_get (parse_qsl (query r') true) k
               = last_value (parse_qsl (query r) true) k).
Proof.
  intros u r v.
  assert (H1 : urlsplit accept_all accept_all u = Some r) by (vm_compute; reflexivity).
  assert (H2 : netloc r <> []) by (vm_compute; discriminate).
  assert (H3 : _normalize_search_url accept_all accept_all u = Some v)
    by (vm_compute; reflexivity).
  split; [exact H1 |]. split; [exact H2 |]. split; [exact H3 |].
  exact (normalize_search_url_fields accept_all accept_all u v r H1 H2 H3).
Defined.

(** C9 (as stated, refuted).  With CPython 3.11's [urlunsplit] a URL
    whose authority is empty and whose path starts with two slashes
    loses two slashes at every pass: normalising [//////x] gives
    [////x?start=0], and normalising that gives [//x?start=0]. *)
Lemma normalize_not_idempotent_on_slash_path :
  ~ (forall u v : pystr,
       _normalize_search_url accept_all accept_all u = Some v ->
       _normalize_search_url accept_all accept_all v = Some v).
Proof.
  intros H.
  specialize (H (py "//////x") (py "////x?start=0")).
  assert (H' : _normalize_search_url accept_all accept_all (py "////x?start=0")
               = Some (py "////x?start=0")) by (apply H; vm_compute; reflexivity).
  vm_compute in H'. discriminate H'.
Qed.

(** C9 (amended).  For every URL that [urlsplit] accepts, unless it has
    an empty authority followed by a path that starts with [//], the
    normalised URL is a fixed point of [_normalize_search_url]. *)
Theorem normalize_search_url_idempotent
    (chk1 chk2 : pystr -> bool) (u v : pystr) (r : SplitResult) :
  urlsplit chk1 chk2 u = Some r ->
  slash_slash_path r = false ->
  _normalize_search_url chk1 chk2 u = Some v ->
  _normalize_search_url chk1 chk2 v = Some v.
Proof. apply normalize_fixed. Qed.

Lemma normalize_search_url_idempotent_witness :
  let u := py "https://www.linkedin.com/jobs/search/?currentJobId=4354565228&f_C=1826%2C11243664&geoId=92000000&origin=COMPANY_PAGE_JOBS_CLUSTER_EXPANSION" in
  let r := mkSplit (py "https") (py "www.linkedin.com") (py "/jobs/search/")
             (py "currentJobId=4354565228&f_C=1826%2C11243664&geoId=92000000&origin=COMPANY_PAGE_JOBS_CLUSTER_EXPANSION")
             [] in
  let v := py "https://www.linkedin.com/jobs/search/?f_C=1826%2C11243664&geoId=92000000&start=0" in
  urlsplit accept_all accept_all u = Some r /\
  slash_slash_path r = false /\
  _normalize_search_url accept_all accept_all u = Some v /\
  _normalize_search_url accept_all accept_all v = Some v.
Proof.
  intros u r v.
  assert (H1 : urlsplit accept_all accept_all u = Some r) by (vm_compute; reflexivity).
  assert (H2 : slash_slash_path r = false) by (vm_compute; reflexivity).
  assert (H3 : _normalize_search_url accept_all accept_all u = Some v)
    by (vm_compute; reflexivity).
  split; [exact H1 |]. split; [exact H2 |]. split; [exact H3 |].
  exact (normalize_search_url_idempotent accept_all accept_all u v r H1 H2 H3).
Defined.

(** ** Records (C2, C7) *)

Lemma extends_appended {W} (P : job -> Prop) (s s' : scraper W) :
  extends P s s' ->
  jobs s' = jobs s ++ appended s s' /\ Forall P (appended s s').
Proof.
  intros (added & Hj & HP). unfold appended. rewrite Hj.
  rewrite drop_app_length. by split.
Qed.

Lemma sat_appended {W A} (P : job -> Prop) (m : M (scraper W) A)
    (Q : A -> Prop) (s : scraper W) :
  sat P m Q ->
  jobs (snd (m s)) = jobs s ++ appended s (snd (m s)) /\
  Forall P (appended s (snd (m s))).
Proof.
  intros H. apply extends_appended. destruct (m s) as [r s'] eqn:E.
  by destruct (H s r s' E).
Qed.



(** C7 (as stated, refuted).  [Linkedin_Small] stores the browser URL
    read after the click, as its docstring announces.  Two cards that
    open the same posting give two records with the same [job_id] and
    different [url]s. *)
Lemma small_url_is_browser_url :
  ~ (forall (W : Type) (env : Env W) (fuel : nat) (company_name : pystr)
            (s : scraper W) (j1 j2 : job),
       In j1 (appended s (snd (Small._extract_jobs_on_page env fuel company_name s))) ->
       In j2 (appended s (snd (Small._extract_jobs_on_page env fuel company_name s))) ->
       job_id j1 = job_id j2 -> url j1 = url j2).
Proof.
  intros H.
  pose (j1 := mkJob (py "Financial Analyst") (py "RBC") (py "Toronto, ON")
                (py "N/A") (py "2 days ago") (py "N/A")
                (py "https://www.linkedin.com/jobs/search/?currentJobId=42&f_C=1808")
                (py "42") 1 (py "2026-01-05T09:00:00")).
  pose (j2 := mkJob (py "Financial Analyst") (py "RBC") (py "Toronto, ON")
                (py "N/A") (py "2 days ago") (py "N/A")
                (py "https://www.linkedin.com/jobs/search/?currentJobId=42&f_C=1808&refId=abc")
                (py "42") 2 (py "2026-01-05T09:00:00")).
  specialize (H browser (scripted_env site_same_posting_twice) 20 (py "RBC")
                (scraper_at search_page (py "RBC")) j1 j2).
  assert (H1 : In j1 (appended (scraper_at search_page (py "RBC"))
                        (snd (Small._extract_jobs_on_page
                                (scripted_env site_same_posting_twice) 20 (py "RBC")
                                (scraper_at search_page (py "RBC"))))))
    by (vm_compute; by left).
  assert (H2 : In j2 (appended (scraper_at search_page (py "RBC"))
                        (snd (Small._extract_jobs_on_page
                                (scripted_env site_same_posting_twice) 20 (py "RBC")
                                (scraper_at search_page (py "RBC"))))))
    by (vm_compute; by right; left).
  specialize (H H1 H2 eq_refl). vm_compute in H. discriminate H.
Qed.

(** C7 (amended).  In [Linkedin_Large] the stored url of every extracted
    record is [_job_permalink(job_id)], a function of the job id alone
    (the canonical jobs/view form, or "N/A" without an id), never the
    browser URL; two records of [Linkedin_Large] with the same job id,
    from whatever pages or runs, carry the same url.  ([Linkedin_Small]
    stores the browser URL.) *)
Theorem large_url_is_permalink
    (W1 W2 : Type) (env1 : Env W1) (env2 : Env W2) (fuel1 fuel2 : nat)
    (company1 company2 : pystr) (s1 : scraper W1) (s2 : scraper W2) :
  let new1 := appended s1 (snd (Large._extract_jobs_on_page env1 fuel1 company1 s1)) in
  let new2 := appended s2 (snd (Large._extract_jobs_on_page env2 fuel2 company2 s2)) in
  (forall j, In j new1 -> url j = _job_permalink (job_id j)) /\
  (forall j1 j2, In j1 new1 -> In j2 new2 ->
                 job_id j1 = job_id j2 -> url j1 = url j2).
Proof.
  cbv zeta.
  destruct (sat_appended _ _ _ s1 (sat_large_extract_jobs env1 fuel1 company1))
    as [_ HP1].
  destruct (sat_appended _ _ _ s2 (sat_large_extract_jobs env2 fuel2 company2))
    as [_ HP2].
  rewrite Forall_forall in HP1, HP2. split.
  - intros j Hin. apply list_elem_of_In in Hin. by destruct (HP1 j Hin).
  - intros j1 j2 Hi1 Hi2 Hid. apply list_elem_of_In in Hi1, Hi2.
    destruct (HP1 j1 Hi1) as [_ ->]. destruct (HP2 j2 Hi2) as [_ ->].
    by rewrite Hid.
Qed.


(** On such a page the crawl goes on: the posting is extracted and the
    next offset is requested. *)
Example banner_and_cards_run :
  let r := Large.scrape_single_url (scripted_env site_banner_and_cards) 40
             (py "RBC") seed_url None (scraper_for (py "RBC")) in
  fst r = Ok tt
  /\ List.map job_id (jobs (snd r)) = [py "101"]
  /\ requested (br_log (world (snd r))) = [page_url 0; page_url 25].
Proof. vm_compute. done. Qed.



(** The scenario of two identical pages: two fetches, the records of
    the first page only. *)
Example repeated_page_ends_run :
  let r := Large.scrape_single_url (scripted_env site_repeating) 40
             (py "RBC") seed_url None (scraper_for (py "RBC")) in
  fst r = Ok tt
  /\ List.map job_id (jobs (snd r)) = [py "101"; py "102"]
  /\ requested (br_log (world (snd r))) = [page_url 0; page_url 25].
Proof. vm_compute. done. Qed.


(** A dead driver outside the two [try] blocks escapes alike. *)
Example large_run_stops_on_dead_driver :
  let env := scripted_env (three_pages (fault_at 0 read_timed_out) no_fault) in
  let r := Large.scrape_all_companies env 40 two_targets_large None
             (scraper_for (py "RBC")) in
  fst r = Raise read_timed_out
  /\ requested (br_log (world (snd r))) = [seed_url; page_url 0].
Proof. vm_compute. done. Qed.

(** [Linkedin_Small] stops the run on an invalid session. *)
Example small_run_stops_on_invalid_session :
  let env := scripted_env (three_pages (fault_at 1 invalid_session) no_fault) in
  let r := Small.scrape_all_companies env 40 two_targets_small None
             (scraper_for (py "RBC")) in
  fst r = Raise invalid_session
  /\ requested (br_log (world (snd r))) = [seed_url; page_url 0].
Proof. vm_compute. done. Qed.



(** Exhausted recovery: the driver dies while the cards of the first
    target load and no page opens after the restart; the target is
    abandoned and the second one is requested. *)
Example exhausted_recovery_moves_on :
  let env := scripted_env
               (three_pages (fault_at 1 read_timed_out) offline_after_restart) in
  let r := Large.scrape_all_companies env 40 two_targets_large None
             (scraper_for (py "RBC")) in
  fst r = Ok tt
  /\ List.map is_restart (br_log (world (snd r)))
     = [false; false; true; false; false; false]
  /\ requested (br_log (world (snd r)))
     = [seed_url; page_url 0; page_url 0;
        py "https://www.linkedin.com/jobs/search/?f_C=2211&start=0"].
Proof. vm_compute. done. Qed.

(** A failure that [Linkedin_Small] contains: the second target is
    scraped in full. *)
Example small_run_contains_failure :
  let env := scripted_env (three_pages (fault_at 1 unknown_error) no_fault) in
  let r := Small.scrape_all_companies env 40 two_targets_small None
             (scraper_for (py "RBC")) in
  fst r = Ok tt
  /\ List.map job_id (jobs (snd r)) = [py "101"; py "201"; py "301"]
  /\ List.map company (jobs (snd r)) = [py "TD"; py "TD"; py "TD"].
Proof. vm_compute. done. Qed.

(** C6 (defect).  The driver dies while the second page (offset 25) is
    extracted and the recovery succeeds.  The handler logs "Recovering
    and retrying page..." and leaves the body with [continue], so the
    loop counts the page as done: the recovery reopens offset 25, the
    next request is offset 50, and the posting of offset 25 is never
    extracted.  The pages that were processed and saved have offsets 0
    and 50. *)
Theorem recovered_page_is_skipped :
  let env := scripted_env (three_pages (fault_at 14 read_timed_out) no_fault) in
  let r := Large.scrape_single_url env 40 (py "RBC") seed_url None
             (scraper_for (py "RBC")) in
  fst r = Ok tt
  /\ requested (br_log (world (snd r)))
     = [page_url 0; page_url 25; page_url 25; page_url 50; page_url 75]
  /\ List.map job_id (jobs (snd r)) = [py "101"; py "301"]
  /\ fs_read (files (snd r)) json_path_large
     = Some (py "[Analyst 101Analyst 301]").
Proof. vm_compute. done. Qed.

(** The same source without the failure: three pages, three postings. *)
Example three_pages_run :
  let env := scripted_env (three_pages no_fault no_fault) in
  let r := Large.scrape_single_url env 40 (py "RBC") seed_url None
             (scraper_for (py "RBC")) in
  fst r = Ok tt
  /\ requested (br_log (world (snd r)))
     = [page_url 0; page_url 25; page_url 50; page_url 75]
  /\ List.map job_id (jobs (snd r)) = [py "101"; py "201"; py "301"].
Proof. vm_compute. done. Qed.


(** The same posting answered twice, by the country request and by a
    city request: one job is kept and one duplicate is counted. *)
Lemma same_posting_twice_is_kept_once :
  let none3 := fun _ _ _ : Indeed.pyval => Indeed.VNone in
  let row := [(py "id", Indeed.VStr (py "in-42"));
              (py "title", Indeed.VStr (py "Teller"));
              (py "company", Indeed.VStr (py "FNBO"))] in
  let answers :=
    [Indeed.mkResponse (py "FNBO") (py "USA") (py "USA") (Some [row]) false;
     Indeed.mkResponse (py "FNBO") (py "USA") (py "Omaha, NE") (Some [row]) false] in
  let g := Indeed.scrape_company_group (fun raw => raw) none3 none3
             (fun _ _ => (Indeed.VNone, Indeed.VNone, Indeed.VNone, Indeed.VNone))
             (fun _ => (Indeed.VNone, Indeed.VNone, Indeed.VNone))
             (fun _ _ => Indeed.VNone) true (py "First National Bank")
             [py "FNBO"] (fun _ => py "2025-01-01T00:00:00+00:00") answers in
  length (Indeed.jobs g) = 1
  /\ Indeed.deduped (Indeed.stats g) = 1
  /\ Indeed.rows_seen (Indeed.stats g) = 2.
Proof. vm_compute. done. Qed.

(** ** More on the URL helpers *)

Lemma dict_set_nonempty {V} (d : pydict V) (k : pystr) (v : V) :
  dict_set d k v <> [].
Proof.
  destruct d as [|[k' v'] d]; cbn [dict_set]; [done |].
  by destruct (str_eqb k' k).
Qed.

Lemma dict_set_set {V} (d : pydict V) (k : pystr) (a b : V) :
  dict_set (dict_set d k a) k b = dict_set d k b.
Proof.
  induction d as [|[k' v'] d IH]; cbn [dict_set].
  - by rewrite str_eqb_refl.
  - destruct (str_eqb k' k) eqn:E; cbn [dict_set]; rewrite E; [done |].
    by rewrite IH.
Qed.

Lemma resplit_netloc (r : SplitResult) : netloc r <> [] -> resplit r = r.
Proof.
  intros H. unfold resplit. apply nonempty_true in H. by rewrite H.
Qed.

Lemma slash_slash_netloc (r : SplitResult) :
  netloc r <> [] -> slash_slash_path r = false.
Proof.
  intros H. unfold slash_slash_path. apply nonempty_true in H. by rewrite H.
Qed.

Lemma resplit_with_query (r : SplitResult) (e : pystr) :
  resplit (mkSplit (scheme r) (netloc r) (path r) e (fragment r))
  = mkSplit (scheme (resplit r)) (netloc (resplit r)) (path (resplit r)) e
      (fragment (resplit r)).
Proof.
  unfold resplit. cbn [scheme netloc path query fragment].
  destruct (nonempty (netloc r)); [done |]. by destruct (_ && _).
Qed.

Lemma resplit_slash_slash (r : SplitResult) :
  wf_split r -> slash_slash_path r = false ->
  slash_slash_path (resplit r) = false.
Proof.
  intros Hwf Hss. pose proof Hwf as [H1 H2 H3 H4 H5 H6 H7 H8 H9].
  unfold resplit. destruct (nonempty (netloc r)) eqn:En; [done |].
  destruct (_ && _) eqn:Ec; [| done].
  unfold slash_slash_path in *. cbn [netloc path nonempty negb andb].
  rewrite En in Hss. cbn [negb andb] in Hss.
  destruct (rooted_ok (path r) H3 H5) as (_ & _ & _ & Hd). by apply Hd.
Qed.

Lemma resplit_idem (r : SplitResult) :
  wf_split r -> slash_slash_path r = false -> resplit (resplit r) = resplit r.
Proof.
  intros Hwf Hss. pose proof Hwf as [H1 H2 H3 H4 H5 H6 H7 H8 H9].
  destruct (nonempty (netloc r)) eqn:En.
  - assert (E : resplit r = r) by (unfold resplit; by rewrite En).
    by rewrite !E.
  - destruct (nonempty (scheme r) && mem_str (scheme r) uses_netloc
              && negb (str_eqb (take 2 (path r)) (py "//"))) eqn:Ec.
    + assert (E : resplit r = mkSplit (scheme r) [] (rooted (path r)) (query r)
                                (fragment r))
        by (unfold resplit; by rewrite En, Ec).
      rewrite E. unfold resplit. cbn [scheme netloc path query fragment nonempty].
      unfold slash_slash_path in Hss. rewrite En in Hss. cbn [negb andb] in Hss.
      destruct (rooted_ok (path r) H3 H5) as (_ & _ & Hc & Hd).
      apply andb_true_iff in Ec as [Ec _]. rewrite Ec.
      rewrite take2_slashes, (Hd Hss). cbn [negb].
      f_equal. unfold rooted at 1. rewrite take1_slash.
      destruct Hc as [->|Hc]; [done |]. by rewrite Hc, andb_false_r.
    + assert (E : resplit r = r) by (unfold resplit; by rewrite En, Ec).
      by rewrite !E.
Qed.

Section QueryRewrites.

Variable check_bracketed_netloc : pystr -> bool.
Variable checknetloc_nfkc : pystr -> bool.

Abbreviation urlsplit' := (urlsplit check_bracketed_netloc checknetloc_nfkc).
Abbreviation normalize' :=
  (_normalize_search_url check_bracketed_netloc checknetloc_nfkc).
Abbreviation set_param' :=
  (_set_query_param check_bracketed_netloc checknetloc_nfkc).

(** The text written for a split URL whose query is an encoded
    dictionary reads back as that split *)
Lemma rewritten_query_splits (r : SplitResult) (q : pydict pystr) :
  wf_split r ->
  netloc_ok check_bracketed_netloc checknetloc_nfkc (netloc r) = true ->
  slash_slash_path r = false -> q <> [] ->
  urlsplit' (urlunsplit (mkSplit (scheme r) (netloc r) (path r) (urlencode q)
                           (fragment r)))
  = Some (resplit (mkSplit (scheme r) (netloc r) (path r) (urlencode q)
                     (fragment r))).
Proof.
  intros Hwf Hnok Hss Hq.
  apply urlsplit_urlunsplit; try done.
  - by apply wf_split_query.
  - by apply urlencode_nonempty.
  - apply urlencode_echar.
Qed.

Lemma set_query_param_unfold (u key value : pystr) (r : SplitResult) :
  urlsplit' u = Some r ->
  set_param' u key value =
  Some (urlunsplit
          (mkSplit (scheme r) (netloc r) (path r)
             (urlencode (dict_set (dict_of_pairs (parse_qsl (query r) true))
                           key value))
             (fragment r))).
Proof. intros H. unfold _set_query_param. by rewrite H. Qed.

(** What a normalised URL splits into *)
Lemma normalized_splits (u v : pystr) (r : SplitResult) :
  urlsplit' u = Some r -> slash_slash_path r = false ->
  normalize' u = Some v ->
  let r1 := mkSplit (scheme r) (netloc r) (path r)
              (urlencode (normal_query (query r))) (fragment r) in
  v = urlunsplit r1 /\ urlsplit' v = Some (resplit r1)
  /\ wf_split r1 /\ slash_slash_path r1 = false.
Proof.
  intros Hu Hss Hv. cbv zeta. rewrite (normalize_unfold _ _ u r Hu) in Hv.
  injection Hv as <-.
  destruct (urlsplit_wf _ _ u r Hu) as [Hwf Hnok].
  split; [done |]. split; [| split; [by apply wf_split_query | done]].
  apply rewritten_query_splits; try done. apply normal_query_nonempty.
Qed.

Lemma set_start_on_normalized (u v n : pystr) (r : SplitResult) :
  urlsplit' u = Some r -> slash_slash_path r = false ->
  normalize' u = Some v ->
  let r1 := mkSplit (scheme r) (netloc r) (path r)
              (urlencode (normal_query (query r))) (fragment r) in
  set_param' v (py "start") n =
  Some (urlunsplit
          (mkSplit (scheme (resplit r1)) (netloc (resplit r1))
             (path (resplit r1))
             (urlencode (dict_set (normal_query (query r)) (py "start") n))
             (fragment (resplit r1)))).
Proof.
  intros Hu Hss Hv. cbv zeta.
  destruct (normalized_splits u v r Hu Hss Hv) as (_ & Hsplit & _ & _).
  rewrite (set_query_param_unfold v _ _ _ Hsplit).
  rewrite resplit_query. cbn [query].
  rewrite parse_qsl_urlencode.
  by rewrite dict_of_pairs_id by apply normal_query_nodup.
Qed.

End QueryRewrites.

(** ** Reading a job id *)

Lemma drop_while_incl (p : ascii -> bool) (s : pystr) (c : ascii) :
  In c (drop_while p s) -> In c s.
Proof.
  induction s as [|x s IH]; simpl; [done |].
  destruct (p x); [intros H; right; by apply IH | done].
Qed.

Lemma split_scheme_incl (w : pystr) (c : ascii) :
  In c (snd (split_scheme w)) -> In c w.
Proof.
  destruct (split_scheme_cases w) as [->|(pre & post & -> & _ & _ & _ & ->)];
    [done |].
  cbn [snd]. intros H. apply in_or_app. right. apply in_or_app. by right.
Qed.

Section JobIds.

Variable check_bracketed_netloc : pystr -> bool.
Variable checknetloc_nfkc : pystr -> bool.

Abbreviation urlsplit' := (urlsplit check_bracketed_netloc checknetloc_nfkc).
Abbreviation job_id_of :=
  (_extract_job_id_from_url check_bracketed_netloc checknetloc_nfkc).

(** A text without a question mark has no query *)
Lemma urlsplit_query_nil (u : pystr) (r : SplitResult) :
  ~ In "?"%char u -> urlsplit' u = Some r -> query r = [].
Proof.
  intros Hq. unfold urlsplit.
  set (u1 := List.filter _ (drop_while c0_control_or_space u)).
  assert (H1 : ~ In "?"%char u1).
  { intros H. apply Hq. unfold u1 in H. apply filter_In in H as [H _].
    by apply drop_while_incl in H. }
  clearbody u1.
  pose proof (split_scheme_incl u1 "?"%char) as H2.
  destruct (split_scheme u1) as [sch u2]. cbn [snd] in H2.
  assert (H3 : forall loc u3,
             (if starts_with (py "//") u2 then _splitnetloc u2 2 else ([], u2))
             = (loc, u3) -> ~ In "?"%char u3).
  { intros loc u3. destruct (starts_with (py "//") u2).
    - unfold _splitnetloc. intros [= _ <-] H. apply drop_while_incl in H.
      apply H1, H2. clear -H. revert H. generalize 2.
      intros n. revert u2. induction n as [|n IH]; intros [|x u2]; simpl; try done.
      intros H. right. by apply IH.
    - intros [= _ <-] H. by apply H1, H2. }
  destruct (if starts_with (py "//") u2 then _ else _) as [loc u3].
  specialize (H3 loc u3 eq_refl).
  assert (H4 : forall a f,
             match cut_at "#" u3 with Some (a, b) => (a, b) | None => (u3, []) end
             = (a, f) -> ~ In "?"%char a).
  { intros a f. destruct (cut_at "#" u3) as [[a' b']|] eqn:E.
    - intros [= <- <-] H. apply cut_at_inv in E as [-> _].
      apply H3. apply in_or_app. by left.
    - by intros [= <- <-]. }
  destruct (match cut_at "#" u3 with Some _ => _ | None => _ end) as [u4 f].
  specialize (H4 u4 f eq_refl).
  apply cut_at_None in H4. rewrite H4.
  destruct (netloc_ok _ _ loc); [| done]. by intros [= <-].
Qed.

Lemma job_id_without_query (u : pystr) :
  ~ In "?"%char u ->
  job_id_of u =
  if negb (nonempty u) then py "N/A"
  else match after_first (py "/jobs/view/") u with
       | Some rest =>
           before_first (py "?")
             (before_first (py "/") (before_first (py "/jobs/view/") rest))
       | None => py "N/A"
       end.
Proof.
  intros Hq. unfold _extract_job_id_from_url.
  destruct (negb (nonempty u)); [done |].
  destruct (urlsplit' u) as [r|] eqn:E; [| done].
  by rewrite (urlsplit_query_nil u r Hq E).
Qed.

End JobIds.

Lemma before_first_char_absent (c : ascii) (s : pystr) :
  ~ In c s -> before_first [c] s = s.
Proof.
  induction s as [|x s IH]; [done |]. intros H.
  cbn [before_first starts_with].
  assert (Hx : Ascii.eqb c x = false).
  { apply eqb_char_neq. intros ->. apply H. by left. }
  rewrite Hx. cbn [andb]. f_equal. apply IH. intros Hi. apply H. by right.
Qed.

Lemma before_first_char_end (c : ascii) (s t : pystr) :
  ~ In c s -> before_first [c] (s ++ c :: t) = s.
Proof.
  induction s as [|x s IH]; intros H.
  - cbn [app before_first starts_with]. by rewrite Ascii.eqb_refl.
  - cbn [app before_first starts_with].
    assert (Hx : Ascii.eqb c x = false).
    { apply eqb_char_neq. intros ->. apply H. by left. }
    rewrite Hx. cbn [andb]. f_equal. apply IH. intros Hi. apply H. by right.
Qed.

(** A separator that starts with [c] and is longer than one character
    is not found in a text whose only [c] is its last character *)
Lemma before_first_long_sep (c d : ascii) (sep s : pystr) :
  ~ In c s -> before_first (c :: d :: sep) (s ++ [c]) = s ++ [c].
Proof.
  induction s as [|x s IH]; intros H.
  - cbn [app before_first starts_with]. rewrite Ascii.eqb_refl. cbn [andb].
    done.
  - cbn [app before_first starts_with].
    assert (Hx : Ascii.eqb c x = false).
    { apply eqb_char_neq. intros ->. apply H. by left. }
    rewrite Hx. cbn [andb]. f_equal. apply IH. intros Hi. apply H. by right.
Qed.

(** ** Stripping *)

Lemma forallb_rev (p : ascii -> bool) (s : pystr) :
  forallb p (rev s) = forallb p s.
Proof.
  induction s as [|x s IH]; [done |]. cbn [rev forallb].
  rewrite forallb_app, IH. cbn [forallb]. rewrite andb_true_r. apply andb_comm.
Qed.

Section Strip.

Variable p : ascii -> bool.

Local Abbreviation trim := (trim p).

Lemma rev_drop_prefix (s : pystr) :
  exists w, s = rev (drop_while p (rev s)) ++ w /\ forallb p w = true.
Proof.
  exists (rev (take_while p (rev s))). split.
  - rewrite <- rev_app_distr, take_drop_while. by rewrite rev_involutive.
  - rewrite forallb_rev. apply take_while_all.
Qed.

Lemma trim_head (s : pystr) :
  match trim s with [] => True | x :: _ => p x = false end.
Proof.
  unfold trim. pose proof (drop_while_head p s) as Hh.
  destruct (rev_drop_prefix (drop_while p s)) as (w & E & _).
  destruct (rev (drop_while p (rev (drop_while p s)))) as [|x t]; [done |].
  rewrite E in Hh. exact Hh.
Qed.

Lemma trim_last (s : pystr) :
  match rev (trim s) with [] => True | x :: _ => p x = false end.
Proof. unfold trim. rewrite rev_involutive. apply drop_while_head. Qed.

Lemma trim_fixed (s : pystr) :
  match s with [] => True | x :: _ => p x = false end ->
  match rev s with [] => True | x :: _ => p x = false end ->
  trim s = s.
Proof.
  intros Hh Hl. unfold trim. rewrite (drop_while_id p s Hh).
  rewrite (drop_while_id p (rev s) Hl). apply rev_involutive.
Qed.

Lemma trim_idem (s : pystr) : trim (trim s) = trim s.
Proof. apply trim_fixed; [apply trim_head | apply trim_last]. Qed.

Lemma trim_incl (s : pystr) (c : ascii) : In c (trim s) -> In c s.
Proof.
  unfold trim. intros H. apply in_rev in H. apply drop_while_incl in H.
  apply in_rev in H. by apply drop_while_incl in H.
Qed.

Lemma trim_nil_iff (s : pystr) : trim s = [] <-> forallb p s = true.
Proof.
  unfold trim. split.
  - intros H. apply (f_equal (@rev ascii)) in H. rewrite rev_involutive in H.
    cbn [rev] in H.
    rewrite <- (take_drop_while p s). rewrite forallb_app, take_while_all.
    cbn [andb]. rewrite <- (rev_involutive (drop_while p s)).
    rewrite forallb_rev.
    rewrite <- (take_drop_while p (rev (drop_while p s))), H, app_nil_r.
    apply take_while_all.
  - intros H. rewrite <- (app_nil_r s) at 1. rewrite drop_while_app by done.
    done.
Qed.

End Strip.

Lemma strip_trim (s : pystr) : strip s = trim is_space s.
Proof. done. Qed.

Lemma strip_idem (s : pystr) : strip (strip s) = strip s.
Proof. rewrite !strip_trim. apply trim_idem. Qed.

Lemma strip_nil_iff (s : pystr) : strip s = [] <-> forallb is_space s = true.
Proof. rewrite strip_trim. apply trim_nil_iff. Qed.

Lemma isdigit_chars (s : pystr) :
  isdigit s = true <-> s <> [] /\ forallb is_digit s = true.
Proof.
  unfold isdigit. rewrite andb_true_iff, negb_true_iff, bool_decide_eq_false.
  done.
Qed.

(** ** File names *)

Module FileNames.
Import IndeedHelpers.

Lemma squeeze_chars (b : bool) (s : pystr) :
  forallb filename_char (squeeze b s) = true.
Proof.
  revert b. induction s as [|c s IH]; intros b; [done |]. cbn [squeeze].
  destruct (filename_char c) eqn:E.
  - cbn [forallb]. by rewrite E, IH.
  - destruct b; [apply IH |]. cbn [forallb]. by rewrite IH.
Qed.

Lemma squeeze_id (b : bool) (s : pystr) :
  forallb filename_char s = true -> squeeze b s = s.
Proof.
  revert b. induction s as [|c s IH]; intros b H; [done |].
  cbn [forallb] in H. apply andb_true_iff in H as [Hc Hs].
  cbn [squeeze]. by rewrite Hc, IH.
Qed.

Lemma trim_chars (p q : ascii -> bool) (s : pystr) :
  forallb q s = true -> forallb q (trim p s) = true.
Proof.
  intros H. apply forallb_forall. intros c Hc. apply trim_incl in Hc.
  by apply (forallb_In q s).
Qed.

End FileNames.

(** ** Locations *)

Lemma split_char_nonempty (c : ascii) (s : pystr) : split_char c s <> [].
Proof.
  induction s as [|x s IH]; cbn [split_char]; [done |].
  destruct (Ascii.eqb x c); [done |]. by destruct (split_char c s).
Qed.

Lemma blank_segments (s : pystr) :
  Forall (fun w => forallb is_space w = true) (split_char "," s)
  <-> only_commas s = true.
Proof.
  unfold only_commas. induction s as [|x s IH]; cbn [split_char forallb].
  - split; [done |]. intros _. by constructor.
  - destruct (Ascii.eqb x ",") eqn:E; cbn [orb andb].
    + rewrite <- IH. split.
      * intros H. by apply Forall_cons in H as [_ H].
      * intros H. by constructor.
    + pose proof (split_char_nonempty "," s) as Hne.
      destruct (split_char "," s) as [|w ws]; [done |].
      rewrite andb_true_iff, <- IH. split.
      * intros H. apply Forall_cons in H as [Hw Hws]. cbn [forallb] in Hw.
        apply andb_true_iff in Hw as [Hx Hw]. split; [done |]. by constructor.
      * intros [Hx H]. apply Forall_cons in H as [Hw Hws].
        constructor; [| done]. cbn [forallb]. by rewrite Hx, Hw.
Qed.

Lemma parts_nil_iff (s : pystr) :
  List.filter nonempty (List.map strip (split_char "," s)) = []
  <-> only_commas s = true.
Proof.
  rewrite <- blank_segments.
  induction (split_char "," s) as [|w ws IH]; cbn [List.map List.filter].
  - split; [by constructor | done].
  - destruct (nonempty (strip w)) eqn:E.
    + split; [done |]. intros H. apply Forall_cons in H as [Hw _].
      apply strip_nil_iff in Hw. by rewrite Hw in E.
    + rewrite IH. apply nonempty_false, strip_nil_iff in E. split.
      * intros H. by constructor.
      * intros H. by apply Forall_cons in H as [_ H].
Qed.

Lemma parts_clean (s : pystr) :
  Forall (fun p => p <> [] /\ strip p = p)
    (List.filter nonempty (List.map strip (split_char "," s))).
Proof.
  apply Forall_forall. intros p Hp. apply list_elem_of_In in Hp.
  apply filter_In in Hp as [Hin Hne]. apply in_map_iff in Hin as (w & <- & _).
  split; [by apply nonempty_true | apply strip_idem].
Qed.

Lemma comma_or_space_lower (c : ascii) :
  Ascii.eqb c "," || is_space c = true -> lower_char c <> "r"%char.
Proof. by_ascii c. Qed.

Lemma only_commas_not_remote (s : pystr) :
  only_commas s = true -> lower s <> py "remote".
Proof.
  destruct s as [|c s]; [done |]. unfold only_commas. cbn [forallb lower List.map].
  intros H. apply andb_true_iff in H as [Hc _].
  intros E. injection E as E _. by apply (comma_or_space_lower c).
Qed.

Lemma last_part_In (a : pystr) (rest : list pystr) :
  In (IndeedHelpers.last_part a rest) (a :: rest).
Proof.
  revert a. induction rest as [|b rest IH]; intros a; cbn [IndeedHelpers.last_part].
  - by left.
  - right. apply IH.
Qed.

(** ** Retries *)

Module Retries.
Import IndeedHelpers.

Lemma retry_loop_outcome (call : nat -> attempt) (max_retries : nat)
    (d a : nat) (last_err : option pystr) (slept : list nat) :
  a + d <= max_retries ->
  (forall i, a <= i < a + d -> exists e, call i = Failed e) ->
  retry_loop call max_retries (S max_retries - a) a last_err slept
  = match call (a + d) with
    | Answered df => ((default [] df, None), slept ++ seq a d)
    | Failed e =>
        if max_retries <=? a + d then (([], Some e), slept ++ seq a d)
        else retry_loop call max_retries (S max_retries - S (a + d))
               (S (a + d)) (Some e) (slept ++ seq a (S d))
    end.
Proof.
  revert a last_err slept. induction d as [|d IH]; intros a last_err slept Hk Hf.
  - rewrite Nat.add_0_r. cbn [seq]. rewrite app_nil_r.
    replace (S max_retries - a) with (S (max_retries - a)) by lia.
    cbn [retry_loop]. destruct (call a) as [df|e]; [done |].
    destruct (max_retries <=? a) eqn:E; [done |].
    apply Nat.leb_gt in E.
    by replace (S max_retries - S a) with (max_retries - a) by lia.
  - replace (S max_retries - a) with (S (max_retries - a)) by lia.
    cbn [retry_loop]. destruct (Hf a ltac:(lia)) as [e He]. rewrite He.
    assert (E : (max_retries <=? a) = false) by (apply Nat.leb_gt; lia).
    rewrite E.
    replace (max_retries - a) with (S max_retries - S a) by lia.
    rewrite (IH (S a)); [| lia | intros i Hi; apply Hf; lia].
    replace (S a + d) with (a + S d) by lia.
    cbn [seq]. rewrite <- !app_assoc. cbn [app].
    destruct (call (a + S d)); [done |].
    by destruct (max_retries <=? a + S d).
Qed.

End Retries.

(** ** More on Indeed.py *)

Module IndeedMore.
Import Indeed.

Lemma norm_idem (v : pyval) : norm (norm v) = norm v.
Proof.
  destruct v as [| |s|b|z|o]; try reflexivity.
  unfold norm. cbn [is_missing].
  destruct (nonempty (strip s)) eqn:E; [| reflexivity].
  cbn [is_missing]. by rewrite strip_idem, E.
Qed.

Lemma norm_clean (v : pyval) : clean_value (norm v).
Proof.
  destruct v as [| |s|b|z|o]; try exact I.
  unfold norm. cbn [is_missing].
  destruct (nonempty (strip s)) eqn:E; [| exact I].
  split; [by apply nonempty_true | apply strip_idem].
Qed.

Lemma get_map_fields (raw : pydict pyval) (fields : list pystr) (k : pystr) :
  get (List.map (fun k => (k, get raw k)) fields) k
  = if mem_str k fields then get raw k else VNone.
Proof.
  unfold get at 1. induction fields as [|f fields IH]; [done |].
  cbn [List.map dict_get mem_str existsb].
  unfold str_eqb at 1 2.
  destruct (decide (f = k)) as [->|Hne].
  - by rewrite !bool_decide_eq_true_2.
  - rewrite !bool_decide_eq_false_2 by congruence. exact IH.
Qed.

Lemma to_clean_lower_str (a : pystr) :
  to_clean_lower (VStr a)
  = if nonempty (strip a) then Some (lower (strip a)) else None.
Proof. done. Qed.

Lemma allowed_set_spec (aliases : list pystr) (x : pystr) :
  x ∈ make_allowed_company_set aliases <->
  exists a, In a aliases /\ strip a <> [] /\ x = lower (strip a).
Proof.
  unfold make_allowed_company_set. rewrite list_elem_of_omap. split.
  - intros (a & Ha & E). rewrite to_clean_lower_str in E.
    destruct (nonempty (strip a)) eqn:En; [| done]. injection E as <-.
    exists a. split; [by apply list_elem_of_In |].
    split; [by apply nonempty_true | done].
  - intros (a & Ha & Hne & ->). exists a. split; [by apply list_elem_of_In |].
    rewrite to_clean_lower_str. apply nonempty_true in Hne. by rewrite Hne.
Qed.

End IndeedMore.

Module IndeedKeys.
Import Indeed.

Lemma same_anchor_refl (d : pydict pyval) : same_anchor d d.
Proof. by intros k _. Qed.

Lemma same_anchor_set (d d' : pydict pyval) (k : pystr) (v : pyval) :
  mem_str k dedupe_fields = false ->
  same_anchor d d' -> same_anchor d (dict_set d' k v).
Proof.
  intros Hk H k' Hk'. rewrite <- (H k' Hk'). unfold get.
  rewrite dict_get_set_ne; [done |]. intros ->.
  apply mem_str_In in Hk'. congruence.
Qed.

Lemma same_anchor_fill (d d' : pydict pyval) (k : pystr) (v : pyval) :
  mem_str k dedupe_fields = false ->
  same_anchor d d' -> same_anchor d (fill d' k v).
Proof. intros Hk H. unfold fill. by apply same_anchor_set. Qed.

Lemma same_anchor_key (sha1 : pystr -> pystr) (d d' : pydict pyval) :
  same_anchor d d' -> stable_dedupe_key sha1 d' = stable_dedupe_key sha1 d.
Proof.
  intros H. unfold stable_dedupe_key. do 2 f_equal.
  apply map_ext_in. intros k Hk. unfold piece. by rewrite (H k Hk).
Qed.

End IndeedKeys.

Module IndeedStats.
Import Indeed.

Section Group.

Variable sha1_hexdigest : pystr -> pystr.
Variable infer_work_arrangement : pyval -> pyval -> pyval -> pyval.
Variable infer_employment_types : pyval -> pyval -> pyval -> pyval.
Variable parse_salary_from_text : pyval -> pyval -> pyval * pyval * pyval * pyval.
Variable split_location : pyval -> pyval * pyval * pyval.
Variable posted_days_ago : pyval -> pyval -> pyval.
Variable key_lt : pyval * pyval * pyval -> pyval * pyval * pyval -> bool.
Variable enforce_exact_company_match : bool.
Variable company_group : pystr.
Variable search_terms : list pystr.
Variable utc_now_iso : nat -> pystr.

Local Abbreviation ingest_row' :=
  (ingest_row sha1_hexdigest infer_work_arrangement infer_employment_types
     parse_salary_from_text split_location posted_days_ago
     enforce_exact_company_match company_group search_terms utc_now_iso).
Local Abbreviation ingest_df' :=
  (ingest_df sha1_hexdigest infer_work_arrangement infer_employment_types
     parse_salary_from_text split_location posted_days_ago
     enforce_exact_company_match company_group search_terms utc_now_iso).
Local Abbreviation handle_response' :=
  (handle_response sha1_hexdigest infer_work_arrangement infer_employment_types
     parse_salary_from_text split_location posted_days_ago
     enforce_exact_company_match company_group search_terms utc_now_iso).

Lemma ingest_row_counts (term country loc : pystr) (g : group_state)
    (raw : pydict pyval) :
  let g' := ingest_row' term country loc g raw in
  rows_seen (stats g') = S (rows_seen (stats g))
  /\ requests (stats g') = requests (stats g)
  /\ errors (stats g') = errors (stats g).
Proof.
  cbv zeta. unfold ingest_row.
  destruct (is_missing _ && is_missing _ && is_missing _); [done |].
  destruct (enforce_exact_company_match && _); [done |].
  cbv zeta. by destruct (existsb _ _).
Qed.

Lemma ingest_df_counts (df : option (list (pydict pyval)))
    (term country loc : pystr) (g : group_state) :
  let g' := ingest_df' df term country loc g in
  rows_seen (stats g') = rows_seen (stats g) + length (default [] df)
  /\ requests (stats g') = requests (stats g)
  /\ errors (stats g') = errors (stats g).
Proof.
  cbv zeta. destruct df as [rows|]; simpl default; cbn [ingest_df];
    [| simpl; repeat split; lia].
  revert g. induction rows as [|row rows IH]; intros g.
  - cbn [fold_left length]. repeat split; lia.
  - cbn [fold_left length].
    destruct (IH (ingest_row' term country loc g
                    (with_provenance company_group row term country loc)))
      as (H1 & H2 & H3).
    destruct (ingest_row_counts term country loc g
                (with_provenance company_group row term country loc))
      as (R1 & R2 & R3).
    cbv zeta in R1, R2, R3. rewrite H1, H2, H3, R1, R2, R3.
    repeat split; lia.
Qed.

Lemma handle_response_counts (g : group_state) (r : response) :
  let g' := handle_response' g r in
  rows_seen (stats g') = rows_seen (stats g) + length (default [] (resp_df r))
  /\ requests (stats g') = S (requests (stats g))
  /\ errors (stats g') = errors (stats g) + (if resp_err r then 1 else 0).
Proof.
  cbv zeta. unfold handle_response.
  destruct (ingest_df_counts (resp_df r) (resp_search_term r) (resp_country r)
              (resp_location r) (count_request (resp_err r) g))
    as (H1 & H2 & H3).
  cbv zeta in H1, H2, H3. rewrite H1, H2, H3.
  unfold count_request. cbn [stats rows_seen requests errors].
  repeat split; try lia. destruct (resp_err r); lia.
Qed.

Lemma fold_response_counts (answers : list response) (g : group_state) :
  let g' := fold_left handle_response' answers g in
  rows_seen (stats g') = rows_seen (stats g) + rows_of answers
  /\ requests (stats g') = requests (stats g) + length answers
  /\ errors (stats g')
     = errors (stats g) + length (List.filter resp_err answers).
Proof.
  cbv zeta. revert g. induction answers as [|r answers IH]; intros g.
  - unfold rows_of. cbn. repeat split; lia.
  - cbn [fold_left]. destruct (IH (handle_response' g r)) as (H1 & H2 & H3).
    destruct (handle_response_counts g r) as (R1 & R2 & R3).
    cbv zeta in R1, R2, R3. rewrite H1, H2, H3, R1, R2, R3.
    change (rows_of (r :: answers))
      with (length (default [] (resp_df r)) + rows_of answers).
    cbn [List.filter length].
    repeat split; try lia. destruct (resp_err r); cbn [length]; lia.
Qed.

End Group.
End IndeedStats.

(** ** Invariants kept by whole runs *)

Section Keeps.

Context {W : Type} (I : scraper W -> Prop).

Lemma keeps_ret {A} (a : A) : keeps I (ret a).
Proof. by intros s r s' HI [= <- <-]. Qed.

Lemma keeps_raise {A} (e : exn) : keeps I (@raise (scraper W) A e).
Proof. by intros s r s' HI [= <- <-]. Qed.

Lemma keeps_out_of_fuel {A} : keeps I (@out_of_fuel (scraper W) A).
Proof. by intros s r s' HI [= <- <-]. Qed.

Lemma keeps_bind {A B} (m : M (scraper W) A) (k : A -> M (scraper W) B) :
  keeps I m -> (forall a, keeps I (k a)) -> keeps I (bind m k).
Proof.
  intros Hm Hk s r s' HI. unfold bind. destruct (m s) as [r1 s1] eqn:E.
  pose proof (Hm s r1 s1 HI E) as H1. destruct r1 as [a|e|].
  - by apply Hk.
  - by intros [= <- <-].
  - by intros [= <- <-].
Qed.

Lemma keeps_try_except {A} (m : M (scraper W) A) (h : exn -> M (scraper W) A) :
  keeps I m -> (forall e, keeps I (h e)) -> keeps I (try_except m h).
Proof.
  intros Hm Hh s r s' HI. unfold try_except. destruct (m s) as [r1 s1] eqn:E.
  pose proof (Hm s r1 s1 HI E) as H1. destruct r1 as [a|e|].
  - by intros [= <- <-].
  - by apply Hh.
  - by intros [= <- <-].
Qed.

Lemma keeps_try_finally {A} (m : M (scraper W) A) (fin : scraper W -> scraper W) :
  keeps I m -> (forall s, I s -> I (fin s)) -> keeps I (try_finally m fin).
Proof.
  intros Hm Hf s r s' HI. unfold try_finally. destruct (m s) as [r1 s1] eqn:E.
  intros [= <- <-]. apply Hf. by apply (Hm s r1 s1).
Qed.

(** [I] does not look at the browser *)
Hypothesis Hworld : forall s w, I s -> I (set_world s w).

Lemma keeps_lift {A} (op : W -> result A * W) : keeps I (lift op).
Proof.
  intros s r s' HI. unfold lift. destruct (op (world s)) as [r1 w].
  intros [= <- <-]. by apply Hworld.
Qed.

Lemma keeps_lift_total {A} (op : W -> A * W) : keeps I (lift_total op).
Proof.
  intros s r s' HI. unfold lift_total. destruct (op (world s)) as [a w].
  intros [= <- <-]. by apply Hworld.
Qed.

Lemma keeps_lift_unit (op : W -> W) : keeps I (lift_unit op).
Proof. intros s r s' HI [= <- <-]. by apply Hworld. Qed.

End Keeps.

Ltac keeps_prim :=
  unfold driver_get, current_url, find_elements, element_text, wait_present,
    execute_script, _find_list_container, _click_card,
    _extract_location_posted, _extract_description, _create_driver,
    _load_cookies, _save_cookies, input, time_time, sleep, human_delay, now_iso;
  first
    [ apply keeps_lift; assumption
    | apply keeps_lift_total; assumption
    | apply keeps_lift_unit; assumption ].

Ltac keeps_step :=
  lazymatch goal with
  | |- keeps _ (ret _) => apply keeps_ret
  | |- keeps _ (raise _) => apply keeps_raise
  | |- keeps _ out_of_fuel => apply keeps_out_of_fuel
  | |- keeps _ (bind _ _) => apply keeps_bind; [| intros ?]
  | |- keeps _ (try_except _ _) => apply keeps_try_except; [| intros ?]
  | |- keeps _ (if ?b then _ else _) => destruct b
  | |- keeps _ (match ?x with _ => _ end) => destruct x
  end.

(** Walk through a method; [tac] closes the calls of other methods *)
Ltac keeps_walk tac := repeat first [ keeps_step | keeps_prim | tac ].

Section Common.

Context {W : Type} (env : Env W) (I : scraper W -> Prop).
Hypothesis Hworld : forall s w, I s -> I (set_world s w).

Lemma keeps_find_first_cards (sels : list pystr) :
  keeps I (find_first_cards env sels).
Proof.
  induction sels as [|sel sels IH]; cbn [find_first_cards];
    keeps_walk ltac:(exact IH).
Qed.

Lemma keeps_find_job_cards : keeps I (_find_job_cards env).
Proof. apply keeps_find_first_cards. Qed.

Lemma keeps_no_results_marker (sels : list pystr) :
  keeps I (no_results_marker env sels).
Proof.
  induction sels as [|sel sels IH]; cbn [no_results_marker];
    keeps_walk ltac:(exact IH).
Qed.

Lemma keeps_wait_results_loop (fuel : nat) (end_ : Z) :
  keeps I (wait_results_loop env fuel end_).
Proof.
  induction fuel as [|fuel IH]; cbn [wait_results_loop];
    keeps_walk ltac:(first [ exact IH | apply keeps_find_job_cards
                           | apply keeps_no_results_marker ]).
Qed.

Lemma keeps_wait_for_results (fuel : nat) (timeout : Z) :
  keeps I (_wait_for_results_or_end env fuel timeout).
Proof.
  unfold _wait_for_results_or_end.
  keeps_walk ltac:(apply keeps_wait_results_loop).
Qed.

Lemma keeps_ensure_cards_loop (scrolls : nat) (container : bool)
    (target : nat) (prev_count : Z) (stable : nat) :
  keeps I (ensure_cards_loop env scrolls container target prev_count stable).
Proof.
  revert prev_count stable.
  induction scrolls as [|scrolls IH]; intros prev_count stable;
    cbn [ensure_cards_loop];
    keeps_walk ltac:(first [ apply IH | apply keeps_find_job_cards ]).
Qed.

Lemma keeps_ensure_cards_loaded (target max_scrolls : nat) :
  keeps I (_ensure_cards_loaded env target max_scrolls).
Proof.
  unfold _ensure_cards_loaded.
  keeps_walk ltac:(apply keeps_ensure_cards_loop).
Qed.

Lemma keeps_page_signature (n : nat) : keeps I (_page_signature env n).
Proof.
  unfold _page_signature. keeps_walk ltac:(apply keeps_find_job_cards).
Qed.

Lemma keeps_wait_details_from (sels : list pystr) :
  keeps I (wait_details_from env sels).
Proof.
  induction sels as [|sel sels IH]; cbn [wait_details_from];
    keeps_walk ltac:(exact IH).
Qed.

Lemma keeps_extract_title_from (sels : list pystr) :
  keeps I (extract_title_from env sels).
Proof.
  induction sels as [|sel sels IH]; cbn [extract_title_from];
    keeps_walk ltac:(exact IH).
Qed.

Lemma keeps_normalize_url (u : pystr) : keeps I (normalize_url env u).
Proof. unfold normalize_url. keeps_walk fail. Qed.

Lemma keeps_set_query_param (u key value : pystr) :
  keeps I (set_query_param env u key value).
Proof. unfold set_query_param. keeps_walk fail. Qed.

End Common.

(** *** Linkedin_Large: only [setdefault], the extraction and
    [save_results] touch what an invariant may look at *)

Section LargeRun.

Context {W : Type} (env : Env W) (I : scraper W -> Prop).
Hypothesis Hworld : forall s w, I s -> I (set_world s w).
Hypothesis Hset : forall name, keeps I (setdefault_company_count (W:=W) name).
Hypothesis Hsave : keeps I (save_results env json_path_large).
Hypothesis Hextract :
  forall fuel name, keeps I (Large._extract_jobs_on_page env fuel name).

Lemma keeps_large_safe_get (u : pystr) (retries : nat) (wait_after : Z) :
  keeps I (Large.safe_get env u retries wait_after).
Proof.
  induction retries as [|retries IH]; cbn [Large.safe_get];
    keeps_walk ltac:(exact IH).
Qed.

Lemma keeps_large_looks_logged_out : keeps I (Large._looks_logged_out env).
Proof. unfold Large._looks_logged_out. keeps_walk fail. Qed.

Lemma keeps_large_recover_driver (u : pystr) :
  keeps I (Large.recover_driver env u).
Proof.
  unfold Large.recover_driver.
  keeps_walk ltac:(first [ apply keeps_large_safe_get
                         | apply keeps_large_looks_logged_out ]).
Qed.

Lemma keeps_large_ensure_logged_in (u : pystr) :
  keeps I (Large._ensure_logged_in_once env u).
Proof.
  unfold Large._ensure_logged_in_once.
  keeps_walk ltac:(first [ apply keeps_large_safe_get
                         | apply keeps_large_looks_logged_out ]).
Qed.

Lemma keeps_large_recover_or_reraise {A} (again : A) (e : exn) :
  keeps I (Large.recover_or_reraise env again e).
Proof.
  unfold Large.recover_or_reraise.
  keeps_walk ltac:(apply keeps_large_recover_driver).
Qed.

Lemma keeps_large_open_next_page (fuel : nat) (base_url : pystr) (start : nat) :
  keeps I (Large.open_next_page env fuel base_url start).
Proof.
  unfold Large.open_next_page.
  keeps_walk ltac:(first [ apply keeps_set_query_param
                         | apply keeps_large_safe_get
                         | apply keeps_large_recover_driver
                         | apply keeps_large_looks_logged_out
                         | apply keeps_wait_for_results ]; try assumption).
Qed.

Lemma keeps_large_scrape_page (fuel : nat) (company_name base_url : pystr)
    (max_pages : option nat) (page_count : nat) (prev_sig : option (list pystr)) :
  keeps I (Large.scrape_page env fuel company_name base_url max_pages
             page_count prev_sig).
Proof.
  unfold Large.scrape_page. cbv zeta.
  keeps_walk ltac:(first [ apply keeps_large_open_next_page
                         | apply keeps_ensure_cards_loaded
                         | apply keeps_large_recover_or_reraise
                         | apply keeps_find_job_cards
                         | apply keeps_page_signature
                         | apply Hextract
                         | apply Hsave ]; try assumption).
Qed.

Lemma keeps_large_pages_loop (rounds fuel : nat) (company_name base_url : pystr)
    (max_pages : option nat) (page_count : nat) (prev_sig : option (list pystr)) :
  keeps I (Large.pages_loop env rounds fuel company_name base_url max_pages
             page_count prev_sig).
Proof.
  revert page_count prev_sig.
  induction rounds as [|rounds IH]; intros page_count prev_sig;
    cbn [Large.pages_loop];
    keeps_walk ltac:(first [ apply IH | apply keeps_large_scrape_page ]).
Qed.

Lemma keeps_large_scrape_single_url (fuel : nat) (company_name u : pystr)
    (max_pages : option nat) :
  keeps I (Large.scrape_single_url env fuel company_name u max_pages).
Proof.
  unfold Large.scrape_single_url.
  keeps_walk ltac:(first [ apply keeps_normalize_url
                         | apply keeps_set_query_param
                         | apply keeps_large_safe_get
                         | apply keeps_large_looks_logged_out
                         | apply keeps_wait_for_results
                         | apply keeps_large_pages_loop ]; try assumption).
Qed.

Lemma keeps_large_scrape_urls (fuel : nat) (company_name : pystr)
    (urls : list pystr) (max_pages : option nat) :
  keeps I (Large.scrape_urls env fuel company_name urls max_pages).
Proof.
  induction urls as [|u urls IH]; cbn [Large.scrape_urls];
    keeps_walk ltac:(first [ exact IH | apply keeps_large_scrape_single_url ]).
Qed.

Lemma keeps_large_scrape_companies (fuel : nat)
    (companies : list company_large) (max_pages : option nat) :
  keeps I (Large.scrape_companies env fuel companies max_pages).
Proof.
  induction companies as [|c companies IH]; cbn [Large.scrape_companies];
    keeps_walk ltac:(first [ exact IH | apply Hset
                           | apply keeps_large_scrape_urls ]).
Qed.

Lemma keeps_large_scrape_all_companies (fuel : nat)
    (companies : list company_large) (max_pages : option nat) :
  keeps I (Large.scrape_all_companies env fuel companies max_pages).
Proof.
  unfold Large.scrape_all_companies. apply keeps_try_finally.
  - unfold Large.first_url.
    keeps_walk ltac:(first [ apply keeps_large_ensure_logged_in
                           | apply keeps_large_scrape_companies ]).
  - intros s Hs. unfold driver_quit. by apply Hworld.
Qed.

End LargeRun.

(** *** Linkedin_Small *)

Section SmallRun.

Context {W : Type} (env : Env W) (I : scraper W -> Prop).
Hypothesis Hworld : forall s w, I s -> I (set_world s w).
Hypothesis Hsign : forall s b, I s -> I (set_signin_prompted s b).
Hypothesis Hset : forall name, keeps I (setdefault_company_count (W:=W) name).
Hypothesis Hsave : keeps I (save_results env json_path_small).
Hypothesis Hextract :
  forall fuel name, keeps I (Small._extract_jobs_on_page env fuel name).

Lemma keeps_small_is_session_valid : keeps I (Small._is_session_valid env).
Proof. unfold Small._is_session_valid. keeps_walk fail. Qed.

Lemma keeps_small_scrape_page (fuel : nat) (company_name base_url : pystr)
    (max_pages : option nat) (page_count : nat) (seen : list pystr) :
  keeps I (Small.scrape_page env fuel company_name base_url max_pages
             page_count seen).
Proof.
  unfold Small.scrape_page. cbv zeta.
  keeps_walk ltac:(first [ apply keeps_ensure_cards_loaded
                         | apply keeps_find_job_cards
                         | apply Hextract
                         | apply Hsave
                         | apply keeps_set_query_param
                         | apply keeps_wait_for_results ]; try assumption).
Qed.

Lemma keeps_small_pages_loop (rounds fuel : nat) (company_name base_url : pystr)
    (max_pages : option nat) (page_count : nat) (seen : list pystr) :
  keeps I (Small.pages_loop env rounds fuel company_name base_url max_pages
             page_count seen).
Proof.
  revert page_count seen.
  induction rounds as [|rounds IH]; intros page_count seen;
    cbn [Small.pages_loop];
    keeps_walk ltac:(first [ apply IH | apply keeps_small_scrape_page ]).
Qed.

Lemma keeps_small_scrape_single_company (fuel : nat) (company_name u : pystr)
    (max_pages : option nat) :
  keeps I (Small.scrape_single_company env fuel company_name u max_pages).
Proof.
  unfold Small.scrape_single_company.
  keeps_walk ltac:(first [ apply keeps_normalize_url
                         | apply keeps_set_query_param
                         | apply keeps_wait_for_results
                         | apply keeps_small_pages_loop ]; try assumption).
Qed.

Lemma keeps_small_scrape_companies (fuel : nat)
    (companies : list company_small) (max_pages : option nat) :
  keeps I (Small.scrape_companies env fuel companies max_pages).
Proof.
  induction companies as [|c companies IH]; cbn [Small.scrape_companies];
    keeps_walk ltac:(first [ exact IH | apply Hset
                           | apply keeps_small_is_session_valid
                           | apply keeps_small_scrape_single_company ]).
Qed.

Lemma keeps_small_sign_in_once (companies : list company_small) :
  keeps I (Small.sign_in_once env companies).
Proof.
  intros s r s' HI. unfold Small.sign_in_once.
  destruct companies as [|c companies]; [by intros [= <- <-] |].
  destruct (signin_prompted s); [by intros [= <- <-] |].
  revert s r s' HI.
  change (keeps I
            (driver_get env (cs_url c) ;; sleep env 6000 ;;
             execute_script env Small.hide_webdriver ;;
             input env (py "Log into LinkedIn (Google sign-in fine), then press ENTER when job list is visible... ") ;;
             (fun s' => (Ok tt, set_signin_prompted s' true)))).
  keeps_walk fail. intros s r s' HI [= <- <-]. by apply Hsign.
Qed.

Lemma keeps_small_scrape_all_companies (fuel : nat)
    (companies : list company_small) (max_pages : option nat) :
  keeps I (Small.scrape_all_companies env fuel companies max_pages).
Proof.
  unfold Small.scrape_all_companies. apply keeps_try_finally.
  - keeps_walk ltac:(first [ apply keeps_small_sign_in_once
                           | apply keeps_small_scrape_companies ]).
  - intros s Hs. unfold driver_quit. by apply Hworld.
Qed.

End SmallRun.

(** *** The extraction loops: only the end of an iteration, from the
    counter to the append, touches what an invariant may look at *)

Ltac keeps_walk_first tac := repeat first [ tac | keeps_step | keeps_prim ].

Section Extraction.

Context {W : Type} (env : Env W) (I : scraper W -> Prop).
Hypothesis Hworld : forall s w, I s -> I (set_world s w).
Hypothesis Hrecord :
  forall (name : pystr) (mk : nat -> pystr -> job),
    (forall c t, company (mk c t) = name /\ company_job_count (mk c t) = c) ->
    keeps I
      (c <- bump_company_count name ;;
       t <- now_iso env ;;
       append_job (mk c t) ;;
       ret true).

Lemma keeps_large_skip {A} (skip : A) (e : exn) :
  keeps I (Large.skip_or_reraise (W:=W) skip e).
Proof. unfold Large.skip_or_reraise. keeps_walk fail. Qed.

Lemma keeps_large_url_change_loop (fuel : nat) (end_ : Z) (prev : pystr) :
  keeps I (Large.url_change_loop env fuel end_ prev).
Proof.
  induction fuel as [|fuel IH]; cbn [Large.url_change_loop];
    unfold Large.current_url_retry; keeps_walk ltac:(exact IH).
Qed.

Lemma keeps_large_activate (fuel i : nat) (prev : pystr) :
  keeps I (Large.activate_card env fuel i prev).
Proof.
  unfold Large.activate_card, Large._wait_for_url_job_change.
  keeps_walk ltac:(first [ apply keeps_find_job_cards
                         | apply keeps_large_url_change_loop
                         | apply keeps_large_skip ]; try assumption).
Qed.

Lemma keeps_large_extract_record (company_name jid : pystr) :
  keeps I (Large.extract_record env company_name jid).
Proof.
  unfold Large.extract_record, _wait_for_job_details_loaded, _extract_title.
  cbv zeta.
  keeps_walk_first
    ltac:(first [ eapply Hrecord; intros c t; split; reflexivity
                | apply keeps_wait_details_from; assumption
                | apply keeps_extract_title_from; assumption
                | apply keeps_large_skip ]).
Qed.

Lemma keeps_large_extract_loop (fuel : nat) (company_name : pystr)
    (todo i : nat) (prev : pystr) (count : nat) :
  keeps I (Large.extract_loop env fuel company_name todo i prev count).
Proof.
  revert i prev count. induction todo as [|todo IH]; intros i prev count;
    cbn [Large.extract_loop];
    keeps_walk ltac:(first [ apply IH | apply keeps_large_activate
                           | apply keeps_large_extract_record ]).
Qed.

Lemma keeps_large_extract_jobs (fuel : nat) (company_name : pystr) :
  keeps I (Large._extract_jobs_on_page env fuel company_name).
Proof.
  unfold Large._extract_jobs_on_page. cbv zeta.
  keeps_walk ltac:(first [ apply keeps_find_job_cards; assumption
                         | apply keeps_large_extract_loop ]).
Qed.

Lemma keeps_small_skip {A} (skip : A) (e : exn) :
  keeps I (Small.skip_or_reraise (W:=W) skip e).
Proof. unfold Small.skip_or_reraise. keeps_walk fail. Qed.

Lemma keeps_small_url_change_loop (fuel : nat) (end_ : Z) (prev : pystr) :
  keeps I (Small.url_change_loop env fuel end_ prev).
Proof.
  induction fuel as [|fuel IH]; cbn [Small.url_change_loop];
    keeps_walk ltac:(exact IH).
Qed.

Lemma keeps_small_activate (fuel i : nat) (prev : pystr) :
  keeps I (Small.activate_card env fuel i prev).
Proof.
  unfold Small.activate_card, Small._wait_for_url_job_change.
  keeps_walk ltac:(first [ apply keeps_find_job_cards
                         | apply keeps_small_url_change_loop
                         | apply keeps_small_skip ]; try assumption).
Qed.

Lemma keeps_small_extract_record (company_name job_url jid : pystr) :
  keeps I (Small.extract_record env company_name job_url jid).
Proof.
  unfold Small.extract_record, _wait_for_job_details_loaded, _extract_title.
  cbv zeta.
  keeps_walk_first
    ltac:(first [ eapply Hrecord; intros c t; split; reflexivity
                | apply keeps_wait_details_from; assumption
                | apply keeps_extract_title_from; assumption
                | apply keeps_small_skip ]).
Qed.

Lemma keeps_small_extract_loop (fuel : nat) (company_name : pystr)
    (todo i : nat) (prev : pystr) (count : nat) :
  keeps I (Small.extract_loop env fuel company_name todo i prev count).
Proof.
  revert i prev count. induction todo as [|todo IH]; intros i prev count;
    cbn [Small.extract_loop];
    keeps_walk ltac:(first [ apply IH | apply keeps_small_activate
                           | apply keeps_small_extract_record ]).
Qed.

Lemma keeps_small_extract_jobs (fuel : nat) (company_name : pystr) :
  keeps I (Small._extract_jobs_on_page env fuel company_name).
Proof.
  unfold Small._extract_jobs_on_page. cbv zeta.
  keeps_walk ltac:(first [ apply keeps_find_job_cards; assumption
                         | apply keeps_small_extract_loop ]).
Qed.

End Extraction.

(** *** The running count of a company *)

Lemma count_of_app (c : pystr) (js1 js2 : list job) :
  count_of c (js1 ++ js2) = count_of c js1 + count_of c js2.
Proof. unfold count_of. by rewrite List.filter_app, length_app. Qed.

Lemma count_of_one (c : pystr) (j : job) :
  count_of c [j] = if str_eqb (company j) c then 1 else 0.
Proof. unfold count_of. simpl. by destruct (str_eqb (company j) c). Qed.

Lemma numbered_snoc (js : list job) (j : job) :
  numbered js ->
  company_job_count j = S (count_of (company j) js) ->
  numbered (js ++ [j]).
Proof.
  intros Hn Hj i x Hx.
  destruct (decide (i < length js)) as [Hi|Hi].
  - rewrite lookup_app_l in Hx by done.
    rewrite take_app_le by lia. by apply Hn.
  - assert (i = length js) as ->.
    { apply lookup_lt_Some in Hx. rewrite length_app in Hx. simpl in Hx. lia. }
    rewrite list_lookup_middle in Hx by done. injection Hx as <-.
    rewrite take_ge by (rewrite length_app; simpl; lia).
    rewrite count_of_app, count_of_one, str_eqb_refl. lia.
Qed.

Section Counted.

Context {W : Type} (env : Env W).

Lemma counted_set_world (s : scraper W) (w : W) :
  counted s -> counted (set_world s w).
Proof. done. Qed.

Lemma counted_set_signin (s : scraper W) (b : bool) :
  counted s -> counted (set_signin_prompted s b).
Proof. done. Qed.

Lemma counted_setdefault (name : pystr) :
  keeps counted (setdefault_company_count (W:=W) name).
Proof.
  intros s r s' [Hc Hn]. unfold setdefault_company_count.
  destruct (dict_get (company_counts s) name) eqn:E; intros [= <- <-];
    [by split |].
  split; [| exact Hn]. intros c. cbn [company_counts set_company_counts jobs].
  destruct (decide (name = c)) as [<-|Hne].
  - rewrite dict_get_set_eq. specialize (Hc name). rewrite E in Hc. by rewrite Hc.
  - rewrite dict_get_set_ne by done. apply Hc.
Qed.

Lemma counted_save_results (p : pystr) : keeps counted (save_results env p).
Proof. by intros s r s' H [= <- <-]. Qed.

Lemma counted_record (name : pystr) (mk : nat -> pystr -> job) :
  (forall c t, company (mk c t) = name /\ company_job_count (mk c t) = c) ->
  keeps (W:=W) counted
    (c <- bump_company_count name ;;
     t <- now_iso env ;;
     append_job (mk c t) ;;
     ret true).
Proof.
  intros Hmk s r s' [Hc Hn]. unfold bind at 1, bump_company_count.
  pose proof (Hc name) as Hname.
  destruct (dict_get (company_counts s) name) as [n|] eqn:E;
    [| by intros [= <- <-]].
  unfold bind at 1, now_iso, lift_total. cbn [world set_company_counts].
  destruct (env_now_iso W env (world s)) as [t w].
  unfold bind, append_job, ret. intros [= <- <-].
  destruct (Hmk (S n) t) as [Hcomp Hcnt].
  split; cbn [jobs company_counts set_jobs set_world set_company_counts].
  - intros c. rewrite count_of_app, count_of_one, Hcomp.
    destruct (decide (name = c)) as [<-|Hne].
    + rewrite dict_get_set_eq, str_eqb_refl. lia.
    + rewrite dict_get_set_ne by done. apply str_eqb_neq in Hne. rewrite Hne.
      specialize (Hc c). destruct (dict_get (company_counts s) c); lia.
  - apply numbered_snoc; [exact Hn |]. rewrite Hcnt, Hcomp. by rewrite Hname.
Qed.

End Counted.

(** *** The output file and the records in memory *)

Lemma save_results_ops_read (p : pystr) (chunks : list pystr) (fs : filesystem) :
  fs_read (fs_run (save_results_ops p chunks) fs) p = Some (concat chunks).
Proof.
  unfold save_results_ops. cbn [fs_run fold_left].
  fold (fs_run (List.map (FsWrite p) chunks)).
  rewrite (fs_run_writes p chunks _ []); [done |].
  unfold fs_read. simpl. apply dict_get_set_eq.
Qed.

Lemma save_results_ops_other (p q : pystr) (chunks : list pystr)
    (fs : filesystem) :
  q <> p -> fs_read (fs_run (save_results_ops p chunks) fs) q = fs_read fs q.
Proof.
  intros Hne. apply fs_run_spares. unfold save_results_ops.
  constructor; [simpl; congruence |].
  apply Forall_forall. intros op Hop. apply list_elem_of_In in Hop.
  apply in_map_iff in Hop as (c & <- & _). simpl. congruence.
Qed.

Section Checkpoints.

Context {W : Type} (env : Env W) (path : pystr).

Lemma checkpoint_set_world (s : scraper W) (w : W) :
  checkpoint_behind env path s -> checkpoint_behind env path (set_world s w).
Proof. done. Qed.

Lemma checkpoint_set_signin (s : scraper W) (b : bool) :
  checkpoint_behind env path s ->
  checkpoint_behind env path (set_signin_prompted s b).
Proof. done. Qed.

Lemma checkpoint_setdefault (name : pystr) :
  keeps (checkpoint_behind env path) (setdefault_company_count (W:=W) name).
Proof.
  intros s r s' H. unfold setdefault_company_count.
  destruct (dict_get (company_counts s) name); by intros [= <- <-].
Qed.

Lemma checkpoint_save_results :
  keeps (checkpoint_behind env path) (save_results env path).
Proof.
  intros s r s' _ [= <- <-]. right. exists (length (jobs s)).
  unfold set_files. cbn [files jobs].
  rewrite (fs_run_writes path _ _ []); [by rewrite firstn_all |].
  unfold fs_read. apply dict_get_set_eq.
Qed.

Lemma checkpoint_record (name : pystr) (mk : nat -> pystr -> job) :
  (forall c t, company (mk c t) = name /\ company_job_count (mk c t) = c) ->
  keeps (checkpoint_behind env path)
    (c <- bump_company_count name ;;
     t <- now_iso env ;;
     append_job (mk c t) ;;
     ret true).
Proof.
  intros _ s r s' H. unfold bind at 1, bump_company_count.
  destruct (dict_get (company_counts s) name) as [n|] eqn:E;
    [| by intros [= <- <-]].
  unfold bind at 1, now_iso, lift_total. cbn [world set_company_counts].
  destruct (env_now_iso W env (world s)) as [t w].
  unfold bind, append_job, ret. intros [= <- <-].
  destruct H as [H|[k H]]; [by left |]. right.
  exists (Nat.min k (length (jobs s))).
  cbn [files jobs set_jobs set_world set_company_counts] in *.
  rewrite take_app_le by lia. rewrite H. do 2 f_equal.
  destruct (decide (k <= length (jobs s))) as [Hk|Hk].
  - by rewrite Nat.min_l.
  - rewrite Nat.min_r by lia. rewrite firstn_all. f_equal. apply take_ge. lia.
Qed.

End Checkpoints.

(** *** Removing a key *)

Lemma dict_get_pop_ne {V} (d : pydict V) (k q : pystr) :
  q <> k -> dict_get (dict_pop d k) q = dict_get d q.
Proof.
  intros Hne. induction d as [|[k' v'] d IH]; [done |]. cbn [dict_pop].
  destruct (str_eqb k' k) eqn:E.
  - apply str_eqb_eq in E. subst k'. cbn [dict_get].
    assert (Hk : str_eqb k q = false) by (apply str_eqb_neq; congruence).
    by rewrite Hk.
  - cbn [dict_get]. by rewrite IH.
Qed.

Lemma dict_get_pop_eq {V} (d : pydict V) (k : pystr) :
  NoDup (dict_keys d) -> dict_get (dict_pop d k) k = None.
Proof.
  induction d as [|[k' v'] d IH]; [done |]. rewrite dict_keys_cons.
  intros Hnd. apply NoDup_cons in Hnd as [Hk' Hnd]. cbn [dict_pop].
  destruct (str_eqb k' k) eqn:E.
  - apply str_eqb_eq in E. subst k'. by apply dict_get_None.
  - cbn [dict_get]. rewrite E. by apply IH.
Qed.

Lemma keeps_extends_of_sat {W A} (P : job -> Prop) (s0 : scraper W)
    (m : M (scraper W) A) (Q : A -> Prop) :
  sat P m Q -> keeps (extends P s0) m.
Proof.
  intros Hm s r s' H0 E. destruct (Hm s r s' E) as [H1 _].
  by eapply extends_trans.
Qed.

Lemma keeps_extends_same_jobs {W A} (P : job -> Prop) (s0 : scraper W)
    (m : M (scraper W) A) :
  (forall s r s', m s = (r, s') -> jobs s' = jobs s) ->
  keeps (extends P s0) m.
Proof.
  intros Hm s r s' H0 E. eapply extends_trans; [exact H0 |].
  apply extends_same_jobs. by apply (Hm s r s').
Qed.

Lemma setdefault_same_jobs {W} (name : pystr) (s : scraper W)
    (r : result unit) (s' : scraper W) :
  setdefault_company_count name s = (r, s') -> jobs s' = jobs s.
Proof.
  unfold setdefault_company_count.
  destruct (dict_get (company_counts s) name); by intros [= <- <-].
Qed.


Lemma counted_fresh {W} (w : W) (name : pystr) (b : bool) (fs : filesystem) :
  counted (mkScraper w [] [(name, 0)] b fs).
Proof.
  split.
  - intros c. cbn [company_counts jobs dict_get].
    by destruct (str_eqb name c).
  - intros i j H. cbn [jobs] in H. by destruct i.
Qed.

(** X2.  [company_job_count] is a running count.  When the counters
    and the records agree at the start of a run (as they do in a fresh
    scraper), they agree at its end, however it ends: the i-th record
    of a company carries the number i, [company_counts] holds for
    every registered company the number of its records, and a company
    that was never registered has none. *)
Theorem company_job_count_is_running_count
    (W : Type) (env : Env W) (fuel : nat)
    (large : list company_large) (small : list company_small)
    (max_pages : option nat) (s : scraper W) :
  counted s ->
  counted (snd (Large.scrape_all_companies env fuel large max_pages s))
  /\ counted (snd (Small.scrape_all_companies env fuel small max_pages s)).
Proof.
  intros Hs. split.
  - destruct (Large.scrape_all_companies env fuel large max_pages s)
      as [r s'] eqn:E.
    apply (keeps_large_scrape_all_companies env counted)
      with (fuel := fuel) (companies := large) (max_pages := max_pages)
           (s := s) (r := r); try done.
    + apply counted_setdefault.
    + apply counted_save_results.
    + intros f name. apply keeps_large_extract_jobs; [done |].
      apply counted_record.
  - destruct (Small.scrape_all_companies env fuel small max_pages s)
      as [r s'] eqn:E.
    apply (keeps_small_scrape_all_companies env counted)
      with (fuel := fuel) (companies := small) (max_pages := max_pages)
           (s := s) (r := r); try done.
    + apply counted_setdefault.
    + apply counted_save_results.
    + intros f name. apply keeps_small_extract_jobs; [done |].
      apply counted_record.
Qed.

Lemma company_job_count_is_running_count_witness :
  let env := scripted_env (three_pages no_fault no_fault) in
  let s := scraper_for (py "RBC") in
  counted (snd (Large.scrape_all_companies env 40 two_targets_large None s))
  /\ counted (snd (Small.scrape_all_companies env 40 two_targets_small None s)).
Proof.
  intros env s.
  exact (company_job_count_is_running_count browser env 40 two_targets_large
           two_targets_small None s
           (counted_fresh fresh_browser (py "RBC") false [])).
Defined.

(** The numbers of the records of such a run: RBC through two search
    URLs, three postings each. *)
Example running_count_run :
  let env := scripted_env (three_pages no_fault no_fault) in
  let r := Large.scrape_all_companies env 40 two_targets_large None
             (scraper_for (py "RBC")) in
  List.map company_job_count (jobs (snd r)) = [1; 2; 3; 4; 5; 6]
  /\ company_counts (snd r) = [(py "RBC", 6)].
Proof. vm_compute. done. Qed.



(** X4.  [save_results] overwrites: once it has run to its end the
    output file holds exactly the dump of all of [self.jobs], whatever
    it held before; no other file and no record is touched. *)
Theorem save_results_overwrites
    (W : Type) (env : Env W) (json_path : pystr) (s : scraper W) :
  let s' := snd (save_results env json_path s) in
  fs_read (files s') json_path = Some (concat (env_json_dump W env (jobs s)))
  /\ (forall q, q <> json_path -> fs_read (files s') q = fs_read (files s) q)
  /\ jobs s' = jobs s
  /\ fst (save_results env json_path s) = Ok tt.
Proof.
  cbv zeta. unfold save_results. cbn [fst snd files set_files jobs].
  split; [apply save_results_ops_read |].
  split; [| done]. intros q Hq. by apply save_results_ops_other.
Qed.

(** X5.  [atomic_write_json] of [Indeed.py], run to its end over
    well-formed files: the target holds the new text, the temporary
    file is gone, and every other file is as it was. *)
Theorem atomic_write_json_completes
    (path : pystr) (chunks : list pystr) (fs : filesystem) :
  NoDup (dict_keys fs) ->
  let fs' := fs_run (atomic_write_json_ops path chunks) fs in
  fs_read fs' path = Some (concat chunks)
  /\ fs_read fs' (path ++ py ".tmp") = None
  /\ (forall q, q <> path -> q <> path ++ py ".tmp" ->
                fs_read fs' q = fs_read fs q).
Proof.
  intros Hnd. cbv zeta.
  set (tmp := path ++ py ".tmp").
  set (pre := FsOpenW tmp :: List.map (FsWrite tmp) chunks).
  assert (E : atomic_write_json_ops path chunks = pre ++ [FsReplace tmp path])
    by reflexivity.
  rewrite E, fs_run_app. clear E.
  assert (Hpre : forall q, q <> tmp -> fs_read (fs_run pre fs) q = fs_read fs q).
  { intros q Hq. apply (save_results_ops_other tmp q chunks fs Hq). }
  assert (Htmp : fs_read (fs_run pre fs) tmp = Some (concat chunks))
    by apply (save_results_ops_read tmp chunks fs).
  assert (Hkeys : NoDup (dict_keys (fs_run pre fs))).
  { unfold pre. clear Hpre Htmp. unfold fs_run.
    assert (H : forall ops d, NoDup (dict_keys d) ->
                Forall (fun op => match op with FsReplace _ _ => False | _ => True end) ops ->
                NoDup (dict_keys (fold_left fs_step ops d))).
    { induction ops as [|op ops IH]; intros d Hd Hops; [done |].
      apply Forall_cons in Hops as [Hop Hops]. cbn [fold_left]. apply IH; [| done].
      destruct op as [p|p c|a b]; [| | done]; cbn [fs_step].
      - by apply dict_set_nodup.
      - destruct (dict_get d p); by apply dict_set_nodup. }
    apply H; [done |]. constructor; [done |].
    apply Forall_forall. intros op Hop. apply list_elem_of_In in Hop.
    by apply in_map_iff in Hop as (c & <- & _). }
  cbn [fs_run fold_left fs_step]. unfold fs_read in *. rewrite Htmp.
  split; [apply dict_get_set_eq |]. split.
  - rewrite dict_get_set_ne by (symmetry; apply tmp_differs).
    by apply dict_get_pop_eq.
  - intros q Hq Hq'. rewrite dict_get_set_ne by congruence.
    rewrite dict_get_pop_ne by done. by apply Hpre.
Qed.

Lemma atomic_write_json_completes_witness :
  let path := py "indeed_json/FNBO.json" in
  let fs := [(path, py "[old]")] in
  let fs' := fs_run (atomic_write_json_ops path [py "["; py "new"; py "]"]) fs in
  fs_read fs' path = Some (py "[new]")
  /\ fs_read fs' (path ++ py ".tmp") = None.
Proof.
  intros path fs fs'.
  assert (Hnd : NoDup (dict_keys fs)) by (apply NoDup_singleton).
  destruct (atomic_write_json_completes path [py "["; py "new"; py "]"] fs Hnd)
    as (H1 & H2 & _).
  split; [exact H1 | exact H2].
Defined.

(** X6.  [safe_get] swallows every failure of [driver.get]: unless the
    creation of a new driver raises, [safe_get] does not raise. *)
Theorem safe_get_never_raises
    (W : Type) (env : Env W) (u : pystr) (retries : nat) (wait_after : Z)
    (s : scraper W) (e : exn) :
  (forall w e', fst (env_create_driver W env w) <> Raise e') ->
  fst (Large.safe_get env u retries wait_after s) <> Raise e.
Proof.
  intros Hcreate. revert s.
  induction retries as [|retries IH]; intros s; cbn [Large.safe_get]; [done |].
  unfold try_except, bind at 1, driver_get, lift.
  destruct (env_get W env u (world s)) as [[[]|e0|] w] eqn:E; [done | | done].
  destruct (_is_driver_dead e0); [| done].
  unfold bind at 1, _create_driver, lift. cbn [world set_world].
  pose proof (Hcreate w) as Hw.
  destruct (env_create_driver W env w) as [[[]|e1|] w']; cbn [fst] in Hw |- *;
    [| by destruct (Hw e1) | done].
  unfold bind at 1, _load_cookies, lift_total. cbn [world set_world].
  destruct (env_load_cookies W env w') as [b w'']. apply IH.
Qed.

Lemma safe_get_never_raises_witness :
  let env := scripted_env (three_pages no_fault offline_after_restart) in
  fst (Large.safe_get env seed_url 3 5500 (scraper_for (py "RBC")))
  <> Raise net_error.
Proof.
  intros env.
  apply (safe_get_never_raises browser env seed_url 3 5500
           (scraper_for (py "RBC")) net_error).
  intros w e'. discriminate.
Defined.

Lemma after_first_permalink (rest : pystr) :
  after_first (py "/jobs/view/") (py "https://www.linkedin.com/jobs/view/" ++ rest)
  = Some rest.
Proof. unfold py. simpl. by rewrite drop_0. Qed.

(** X7.  The permalink of a job id reads back as that id:
    [_extract_job_id_from_url(_job_permalink(job_id))] is [job_id] for
    every id that is not empty, not the placeholder "N/A" and has
    neither "/" nor "?" in it. *)
Theorem job_id_of_permalink
    (chk1 chk2 : pystr -> bool) (job_id : pystr) :
  job_id <> [] -> job_id <> py "N/A" ->
  ~ In "/"%char job_id -> ~ In "?"%char job_id ->
  _extract_job_id_from_url chk1 chk2 (_job_permalink job_id) = job_id.
Proof.
  intros Hne Hna Hslash Hq. unfold _job_permalink.
  apply nonempty_true in Hne. apply str_eqb_neq in Hna. rewrite Hne, Hna.
  cbn [negb andb].
  rewrite job_id_without_query.
  2:{ intros H. apply in_app_or in H as [H|H].
      - revert H. vm_compute. intuition discriminate.
      - apply in_app_or in H as [H|H]; [by apply Hq |].
        revert H. vm_compute. intuition discriminate. }
  replace (negb (nonempty (py "https://www.linkedin.com/jobs/view/" ++ job_id ++ py "/")))
    with false by (unfold py; done).
  rewrite after_first_permalink.
  change (py "/jobs/view/") with ("/"%char :: "j"%char :: py "obs/view/").
  change (py "/") with ["/"%char].
  rewrite before_first_long_sep by done.
  rewrite (before_first_char_end "/" job_id []) by done.
  by apply (before_first_char_absent "?").
Qed.

Lemma job_id_of_permalink_witness :
  _extract_job_id_from_url accept_all accept_all
    (_job_permalink (py "4359370027")) = py "4359370027".
Proof.
  apply job_id_of_permalink; vm_compute; intuition discriminate.
Defined.

(** X8.  [_set_query_param] sets the parameter and nothing else: for a
    URL that [urlsplit] accepts and that names a host, the result
    splits into the same scheme, host, path and fragment; its query
    gives [key] the value [value], has every key once, and gives every
    other key the last value the input gave it. *)
Theorem set_query_param_reads_back
    (chk1 chk2 : pystr -> bool) (u key value v : pystr) (r : SplitResult) :
  urlsplit chk1 chk2 u = Some r ->
  netloc r <> [] ->
  _set_query_param chk1 chk2 u key value = Some v ->
  exists r',
    urlsplit chk1 chk2 v = Some r' /\
    scheme r' = scheme r /\ netloc r' = netloc r /\
    path r' = path r /\ fragment r' = fragment r /\
    dict_get (parse_qsl (query r') true) key = Some value /\
    NoDup (dict_keys (parse_qsl (query r') true)) /\
    (forall k, k <> key ->
               dict_get (parse_qsl (query r') true) k
               = last_value (parse_qsl (query r) true) k).
Proof.
  intros Hu Hn Hv.
  rewrite (set_query_param_unfold _ _ u key value r Hu) in Hv.
  injection Hv as <-.
  destruct (urlsplit_wf _ _ u r Hu) as [Hwf Hnok].
  set (q := dict_set (dict_of_pairs (parse_qsl (query r) true)) key value).
  set (r1 := mkSplit (scheme r) (netloc r) (path r) (urlencode q) (fragment r)).
  exists r1. split.
  - unfold r1. rewrite rewritten_query_splits; try done.
    + by rewrite resplit_netloc.
    + by apply slash_slash_netloc.
    + apply dict_set_nonempty.
  - do 4 (split; [done |]). cbn [query r1]. rewrite parse_qsl_urlencode.
    split; [apply dict_get_set_eq |]. split.
    + apply dict_set_nodup, dict_of_pairs_nodup.
    + intros k Hk. unfold q. rewrite dict_get_set_ne by done.
      apply dict_get_of_pairs.
Qed.

Lemma set_query_param_reads_back_witness :
  let u := py "https://www.linkedin.com/jobs/search/?f_C=1808&start=0" in
  let v := py "https://www.linkedin.com/jobs/search/?f_C=1808&start=25" in
  let r := mkSplit (py "https") (py "www.linkedin.com") (py "/jobs/search/")
             (py "f_C=1808&start=0") [] in
  _set_query_param accept_all accept_all u (py "start") (py "25") = Some v /\
  exists r',
    urlsplit accept_all accept_all v = Some r' /\
    scheme r' = scheme r /\ netloc r' = netloc r /\
    path r' = path r /\ fragment r' = fragment r /\
    dict_get (parse_qsl (query r') true) (py "start") = Some (py "25") /\
    NoDup (dict_keys (parse_qsl (query r') true)) /\
    (forall k, k <> py "start" ->
               dict_get (parse_qsl (query r') true) k
               = last_value (parse_qsl (query r) true) k).
Proof.
  intros u v r.
  assert (Hu : urlsplit accept_all accept_all u = Some r)
    by (vm_compute; reflexivity).
  assert (Hn : netloc r <> []) by (vm_compute; discriminate).
  assert (Hv : _set_query_param accept_all accept_all u (py "start") (py "25")
               = Some v) by (vm_compute; reflexivity).
  split; [exact Hv |].
  exact (set_query_param_reads_back accept_all accept_all u (py "start")
           (py "25") v r Hu Hn Hv).
Defined.

(** X9.  After [_normalize_search_url] the call
    [_set_query_param(base_url, "start", 0)] that opens
    [scrape_single_url] and [scrape_single_company] changes nothing:
    the normalised URL already is the URL of the first page.  (For
    every URL that [urlsplit] accepts, unless it has an empty authority
    followed by a path that starts with two slashes.) *)
Theorem start_zero_keeps_normalized_url
    (chk1 chk2 : pystr -> bool) (u v : pystr) (r : SplitResult) :
  urlsplit chk1 chk2 u = Some r ->
  slash_slash_path r = false ->
  _normalize_search_url chk1 chk2 u = Some v ->
  _set_query_param chk1 chk2 v (py "start") (str_of_nat 0) = Some v.
Proof.
  intros Hu Hss Hv.
  rewrite (set_start_on_normalized _ _ u v _ r Hu Hss Hv).
  destruct (normalized_splits _ _ u v r Hu Hss Hv) as (-> & _ & Hwf1 & Hss1).
  f_equal.
  change (str_of_nat 0) with (py "0").
  rewrite (dict_set_id _ _ _ (normal_query_start (query r))).
  set (r1 := mkSplit _ _ _ _ _) in *.
  change (urlencode (normal_query (query r))) with (query r1).
  rewrite resplit_eta. by apply urlunsplit_resplit.
Qed.

Lemma start_zero_keeps_normalized_url_witness :
  let u := py "https://www.linkedin.com/jobs/search/?currentJobId=4354565228&f_C=1826%2C11243664&geoId=92000000&origin=COMPANY_PAGE_JOBS_CLUSTER_EXPANSION" in
  let v := py "https://www.linkedin.com/jobs/search/?f_C=1826%2C11243664&geoId=92000000&start=0" in
  _normalize_search_url accept_all accept_all u = Some v /\
  _set_query_param accept_all accept_all v (py "start") (str_of_nat 0) = Some v.
Proof.
  intros u v.
  assert (Hu : urlsplit accept_all accept_all u
               = Some (mkSplit (py "https") (py "www.linkedin.com")
                         (py "/jobs/search/")
                         (py "currentJobId=4354565228&f_C=1826%2C11243664&geoId=92000000&origin=COMPANY_PAGE_JOBS_CLUSTER_EXPANSION")
                         [])) by (vm_compute; reflexivity).
  assert (Hv : _normalize_search_url accept_all accept_all u = Some v)
    by (vm_compute; reflexivity).
  split; [exact Hv |].
  exact (start_zero_keeps_normalized_url accept_all accept_all u v _ Hu
           eq_refl Hv).
Defined.

Lemma keep_key_dict_set (d : pydict pystr) (k v : pystr) :
  Forall (fun kv => keep_key kv = true) d -> keep_key (k, v) = true ->
  Forall (fun kv => keep_key kv = true) (dict_set d k v).
Proof.
  intros Hd Hk. induction Hd as [|[k' v'] d Hkv Hd IH]; cbn [dict_set].
  - by constructor.
  - destruct (str_eqb k' k) eqn:E.
    + constructor; [| done]. apply str_eqb_eq in E. by subst k'.
    + by constructor.
Qed.

(** X10.  Every page URL leads back to the base URL.  For a normalised
    URL [v] and any offset text [n], [_set_query_param(v, "start", n)]
    gives a URL [p] whose [start] is [n], and
    [_normalize_search_url(p)] is [v] again. *)
Theorem page_url_normalizes_to_base
    (chk1 chk2 : pystr -> bool) (u v n : pystr) (r : SplitResult) :
  urlsplit chk1 chk2 u = Some r ->
  slash_slash_path r = false ->
  _normalize_search_url chk1 chk2 u = Some v ->
  exists p r',
    _set_query_param chk1 chk2 v (py "start") n = Some p /\
    urlsplit chk1 chk2 p = Some r' /\
    dict_get (parse_qsl (query r') true) (py "start") = Some n /\
    _normalize_search_url chk1 chk2 p = Some v.
Proof.
  intros Hu Hss Hv.
  pose proof (set_start_on_normalized _ _ u v n r Hu Hss Hv) as Hp.
  destruct (normalized_splits _ _ u v r Hu Hss Hv) as (Ev & Hsplit & Hwf1 & Hss1).
  cbv zeta in Hp.
  set (nq := normal_query (query r)) in *.
  set (r1 := mkSplit (scheme r) (netloc r) (path r) (urlencode nq)
               (fragment r)) in *.
  destruct (urlsplit_wf _ _ v _ Hsplit) as [HwfR HnokR].
  set (q2 := dict_set nq (py "start") n) in *.
  set (R2 := mkSplit (scheme (resplit r1)) (netloc (resplit r1))
               (path (resplit r1)) (urlencode q2) (fragment (resplit r1))) in *.
  assert (HssR : slash_slash_path (resplit r1) = false)
    by (by apply resplit_slash_slash).
  assert (Hsplit2 : urlsplit chk1 chk2 (urlunsplit R2) = Some (resplit R2)).
  { apply rewritten_query_splits; try done. apply dict_set_nonempty. }
  assert (HR2 : resplit R2 = R2).
  { unfold R2. rewrite resplit_with_query. by rewrite resplit_idem. }
  exists (urlunsplit R2), (resplit R2). split; [exact Hp |].
  split; [exact Hsplit2 |]. split.
  - rewrite resplit_query. cbn [query R2]. rewrite parse_qsl_urlencode.
    apply dict_get_set_eq.
  - rewrite (normalize_unfold _ _ _ _ Hsplit2). f_equal.
    rewrite HR2. cbn [scheme netloc path query fragment R2].
    assert (Hnq : normal_query (urlencode q2) = nq).
    { unfold normal_query at 1. rewrite parse_qsl_urlencode.
      assert (Hnd : NoDup (dict_keys q2))
        by apply dict_set_nodup, normal_query_nodup.
      rewrite dict_of_pairs_id by done.
      rewrite pop_drop_keys_filter by done.
      rewrite filter_pairs_id
        by (apply keep_key_dict_set; [apply normal_query_keep | done]).
      unfold q2. rewrite dict_set_set.
      apply dict_set_id, normal_query_start. }
    rewrite Hnq.
    change (urlencode nq) with (query r1).
    rewrite resplit_eta, Ev. by apply urlunsplit_resplit.
Qed.

Lemma page_url_normalizes_to_base_witness :
  let u := py "https://www.linkedin.com/jobs/search/?currentJobId=5&f_C=1808&origin=x" in
  exists p r',
    _set_query_param accept_all accept_all (page_url 0) (py "start") (py "50")
    = Some p /\
    urlsplit accept_all accept_all p = Some r' /\
    dict_get (parse_qsl (query r') true) (py "start") = Some (py "50") /\
    _normalize_search_url accept_all accept_all p = Some (page_url 0).
Proof.
  intros u.
  assert (Hu : urlsplit accept_all accept_all u
               = Some (mkSplit (py "https") (py "www.linkedin.com")
                         (py "/jobs/search/")
                         (py "currentJobId=5&f_C=1808&origin=x") []))
    by (vm_compute; reflexivity).
  assert (Hv : _normalize_search_url accept_all accept_all u = Some (page_url 0))
    by (vm_compute; reflexivity).
  exact (page_url_normalizes_to_base accept_all accept_all u (page_url 0)
           (py "50") _ Hu eq_refl Hv).
Defined.



(** X13.  [keep_common_fields] fixes the columns of a job: whatever
    the row holds, the result has the fifteen common fields as its keys,
    each once, and every one with the normalised value of the row, or
    [None] when the row has no such column. *)
Theorem keep_common_fields_schema (raw : pydict Indeed.pyval) :
  NoDup (dict_keys (Indeed.keep_common_fields raw))
  /\ (forall k, In k (dict_keys (Indeed.keep_common_fields raw))
                <-> In k Indeed.COMMON_FIELDS)
  /\ (forall k, In k Indeed.COMMON_FIELDS ->
                Indeed.get (Indeed.keep_common_fields raw) k
                = Indeed.norm (Indeed.get raw k))
  /\ (forall k, ~ In k Indeed.COMMON_FIELDS ->
                Indeed.get (Indeed.keep_common_fields raw) k = Indeed.VNone).
Proof.
  assert (Hkeys : dict_keys (Indeed.keep_common_fields raw) = Indeed.COMMON_FIELDS).
  { unfold Indeed.keep_common_fields, Indeed.normalize_dict, dict_keys.
    rewrite !map_map. cbn [fst]. apply map_id. }
  rewrite Hkeys. split; [| split; [done | split]].
  - refine (bool_decide_unpack _ _). vm_compute. exact I.
  - intros k Hk. unfold Indeed.keep_common_fields.
    rewrite IndeedFacts.get_normalize_dict, IndeedMore.get_map_fields.
    apply mem_str_In in Hk. by rewrite Hk.
  - intros k Hk. unfold Indeed.keep_common_fields.
    rewrite IndeedFacts.get_normalize_dict, IndeedMore.get_map_fields.
    destruct (mem_str k Indeed.COMMON_FIELDS) eqn:E; [| done].
    apply mem_str_In in E. done.
Qed.

Lemma enrich_keeps_anchor
    (sha1_hexdigest : pystr -> pystr)
    (infer_work_arrangement infer_employment_types
       : Indeed.pyval -> Indeed.pyval -> Indeed.pyval -> Indeed.pyval)
    (parse_salary_from_text
       : Indeed.pyval -> Indeed.pyval
         -> Indeed.pyval * Indeed.pyval * Indeed.pyval * Indeed.pyval)
    (split_location : Indeed.pyval -> Indeed.pyval * Indeed.pyval * Indeed.pyval)
    (posted_days_ago : Indeed.pyval -> Indeed.pyval -> Indeed.pyval)
    (now : pystr) (job : pydict Indeed.pyval) :
  Indeed.dedupe_key
    (Indeed.enrich_common_fields sha1_hexdigest infer_work_arrangement
       infer_employment_types parse_salary_from_text split_location
       posted_days_ago now job)
  = Indeed.norm
      (Indeed.VStr
         (Indeed.stable_dedupe_key sha1_hexdigest (Indeed.normalize_dict job))).
Proof.
  unfold Indeed.dedupe_key, Indeed.enrich_common_fields.
  destruct (split_location _) as [[city region] hint].
  rewrite IndeedFacts.get_normalize_dict. unfold Indeed.get at 1.
  rewrite dict_get_set_eq.
  change (default Indeed.VNone (Some ?x)) with x.
  f_equal. f_equal.
  apply IndeedKeys.same_anchor_key.
  repeat first
    [ apply IndeedKeys.same_anchor_refl
    | apply IndeedKeys.same_anchor_set; [vm_compute; reflexivity |]
    | apply IndeedKeys.same_anchor_fill; [vm_compute; reflexivity |]
    | match goal with
      | |- same_anchor _ (if ?b then _ else _) => destruct b
      | |- same_anchor _ (match ?x with _ => _ end) =>
          destruct x as [[[? ?] ?] ?]
      end ].
Qed.



(** X16.  [scrape_with_retries] stops at the first call that answers
    and gives up after [max_retries + 1] failures.  When the calls
    before attempt [k <= max_retries] all fail: if call [k] answers,
    the result is its frame (an empty one for [None]) with no error
    after exactly [k] sleeps; if [k] is the last attempt and fails too,
    the result is an empty frame with the error of that last call after
    [max_retries] sleeps. *)
Theorem scrape_with_retries_outcome
    (max_retries : nat) (call : nat -> IndeedHelpers.attempt) (k : nat) :
  k <= max_retries ->
  (forall i, i < k -> exists e, call i = IndeedHelpers.Failed e) ->
  (forall df, call k = IndeedHelpers.Answered df ->
     IndeedHelpers.scrape_with_retries max_retries call
     = ((default [] df, None), seq 0 k))
  /\ (forall e, call k = IndeedHelpers.Failed e -> k = max_retries ->
        IndeedHelpers.scrape_with_retries max_retries call
        = (([], Some e), seq 0 max_retries)).
Proof.
  intros Hk Hf. unfold IndeedHelpers.scrape_with_retries.
  pose proof (Retries.retry_loop_outcome call max_retries k 0 None [] Hk) as H.
  rewrite Nat.sub_0_r in H. cbn [Nat.add app] in H.
  rewrite H by (intros i Hi; apply Hf; lia). split.
  - by intros df ->.
  - intros e -> ->. by rewrite Nat.leb_refl.
Qed.

Lemma scrape_with_retries_outcome_witness :
  let row := [(py "id", Indeed.VStr (py "in-42"))] in
  let call := fun i => if i <? 2 then IndeedHelpers.Failed (py "ReadTimeout: ")
                       else IndeedHelpers.Answered (Some [row]) in
  IndeedHelpers.scrape_with_retries 3 call = (([row], None), [0; 1]).
Proof.
  intros row call.
  assert (Hk : 2 <= 3) by lia.
  assert (Hf : forall i, i < 2 -> exists e, call i = IndeedHelpers.Failed e).
  { intros i Hi. exists (py "ReadTimeout: "). unfold call.
    apply Nat.ltb_lt in Hi. by rewrite Hi. }
  destruct (scrape_with_retries_outcome 3 call 2 Hk Hf) as [H _].
  exact (H (Some [row]) eq_refl).
Defined.

(** X17.  [safe_filename] gives a name made of letters, digits, dots,
    underscores and hyphens only, with no underscore at either end, and
    leaves such a name as it is: applying it twice is applying it
    once. *)
Theorem safe_filename_is_safe (name : pystr) :
  forallb IndeedHelpers.filename_char (IndeedHelpers.safe_filename name) = true
  /\ starts_with (py "_") (IndeedHelpers.safe_filename name) = false
  /\ starts_with (py "_") (rev (IndeedHelpers.safe_filename name)) = false
  /\ IndeedHelpers.safe_filename (IndeedHelpers.safe_filename name)
     = IndeedHelpers.safe_filename name.
Proof.
  unfold IndeedHelpers.safe_filename, IndeedHelpers.strip_char.
  fold (trim (Ascii.eqb "_") (IndeedHelpers.squeeze false name)).
  set (t := trim (Ascii.eqb "_") (IndeedHelpers.squeeze false name)).
  assert (Hc : forallb IndeedHelpers.filename_char t = true)
    by apply FileNames.trim_chars, FileNames.squeeze_chars.
  split; [exact Hc |]. split; [| split].
  - pose proof (trim_head (Ascii.eqb "_") (IndeedHelpers.squeeze false name)) as H.
    fold t in H. destruct t as [|x t']; [done |].
    change (py "_") with ["_"%char]. cbn [starts_with]. by rewrite H.
  - pose proof (trim_last (Ascii.eqb "_") (IndeedHelpers.squeeze false name)) as H.
    fold t in H. destruct (rev t) as [|x t']; [done |].
    change (py "_") with ["_"%char]. cbn [starts_with]. by rewrite H.
  - rewrite (FileNames.squeeze_id false t Hc).
    fold (trim (Ascii.eqb "_") t). apply trim_idem.
Qed.


(** X19.  [atomic_write_json] of [Indeed.py] never shows a partial
    file.  Stopped after any number of its file operations, the target
    holds what it held before or the complete new text, and every file
    other than the target and the temporary file is as it was. *)
Theorem atomic_write_json_never_partial
    (path : pystr) (chunks : list pystr) (fs : filesystem) (k : nat) :
  let fs' := fs_run (take k (atomic_write_json_ops path chunks)) fs in
  (fs_read fs' path = fs_read fs path \/ fs_read fs' path = Some (concat chunks))
  /\ (forall q, q <> path -> q <> path ++ py ".tmp" ->
                fs_read fs' q = fs_read fs q).
Proof.
  cbv zeta. split; [apply (atomic_write_json_old_or_new path chunks fs k) |].
  intros q Hq Hq'.
  set (tmp := path ++ py ".tmp") in *.
  set (pre := FsOpenW tmp :: List.map (FsWrite tmp) chunks).
  assert (E : atomic_write_json_ops path chunks = pre ++ [FsReplace tmp path])
    by reflexivity.
  rewrite E. clear E.
  assert (Hpre : Forall (spares q) pre).
  { unfold pre. constructor; [by cbn; congruence |].
    apply Forall_forall. intros op Hop. apply list_elem_of_In in Hop.
    apply in_map_iff in Hop as (c & <- & _). cbn. congruence. }
  destruct (decide (k <= length pre)) as [Hk|Hk].
  - rewrite take_app_le by done. apply fs_run_spares. by apply Forall_take.
  - rewrite take_ge
      by (rewrite length_app; change (length [FsReplace tmp path]) with 1; lia).
    rewrite fs_run_app. cbn [fs_run fold_left fs_step]. fold (fs_run pre fs).
    destruct (dict_get (fs_run pre fs) tmp) as [content|] eqn:Et.
    + unfold fs_read. rewrite dict_get_set_ne by congruence.
      rewrite dict_get_pop_ne by done. by apply (fs_run_spares q pre fs).
    + by apply fs_run_spares.
Qed.

